(** * NLQ-to-SQL pipeline (nlq_sql.py): validator, executor and orchestrator

    A shallow embedding of [src/nlq_sql.py].

    - Python [str] values are lists of characters.  Characters are the
      code points 0..255 (Latin-1); on that range the tables below are
      exactly those of CPython ([str.isspace], [str.lower], the [re]
      classes [\s] and [\w], and [re.IGNORECASE] matching).  Code points
      above 255 are outside the model.
    - The regular expressions of the source are kept as regular
      expressions and run by a backtracking matcher with the semantics of
      [re] (leftmost match, greedy quantifiers, ordered alternation).
    - Calls to collaborators (the CrewAI crews, the database handler, the
      clock, stdin, the MySQL connector) are events of a finite
      interaction tree; an environment answers them, and a run leaves the
      trace of the calls it made. *)

From Stdlib Require Import List Ascii String Bool Arith NArith ZArith QArith Lia.
From Stdlib Require Import DecimalString Sorting.Sorted.
From stdpp Require Import base option list gmap strings.
Import ListNotations.

Local Open Scope list_scope.

(* ====================================================================== *)
(** ** Python strings over Latin-1 *)
(* ====================================================================== *)

Module PyStr.

Definition pystr := list ascii.

(** A literal. *)
Definition py (s : string) : pystr := list_ascii_of_string s.

Definition code (c : ascii) : N := N_of_ascii c.

(** [c.isspace()], which is also the class [\s] of [re] and the set that
    [str.strip()] removes. *)
Definition is_space (c : ascii) : bool :=
  let n := code c in
  ((9 <=? n) && (n <=? 13) || (28 <=? n) && (n <=? 32) || (n =? 133) || (n =? 160))%N.

(** [c.lower()]: A-Z and the Latin-1 capitals 192..222 except the
    multiplication sign 215. *)
Definition lower_char (c : ascii) : ascii :=
  let n := code c in
  if ((65 <=? n) && (n <=? 90) || (192 <=? n) && (n <=? 222) && negb (n =? 215))%N
  then ascii_of_N (n + 32) else c.

(** The class [\w] of a [str] pattern: alphanumeric characters and the
    underscore. *)
Definition is_word (c : ascii) : bool :=
  let n := code c in
  ((48 <=? n) && (n <=? 57) || (65 <=? n) && (n <=? 90) || (n =? 95)
   || (97 <=? n) && (n <=? 122)
   || (n =? 170) || (n =? 178) || (n =? 179) || (n =? 181) || (n =? 185)
   || (n =? 186) || (188 <=? n) && (n <=? 190)
   || (192 <=? n) && (n <=? 255) && negb (n =? 215) && negb (n =? 247))%N.

Definition ascii_eqb (a b : ascii) : bool := Ascii.eqb a b.

(** Equality of two characters under [re.IGNORECASE]. *)
Definition eqb_ic (a b : ascii) : bool := ascii_eqb (lower_char a) (lower_char b).

(** [s.lower()] *)
Definition lower (s : pystr) : pystr := map lower_char s.

Fixpoint drop_while (p : ascii -> bool) (s : pystr) : pystr :=
  match s with
  | [] => []
  | c :: r => if p c then drop_while p r else s
  end.

(** [s.lstrip()], [s.rstrip()] and [s.strip()] *)
Definition lstrip (s : pystr) : pystr := drop_while is_space s.
Definition rstrip (s : pystr) : pystr := rev (drop_while is_space (rev s)).
Definition strip (s : pystr) : pystr := rstrip (lstrip s).

Fixpoint pystr_eqb (a b : pystr) : bool :=
  match a, b with
  | [], [] => true
  | x :: a', y :: b' => ascii_eqb x y && pystr_eqb a' b'
  | _, _ => false
  end.

(** [s.startswith(p)] *)
Fixpoint startswith (p s : pystr) : bool :=
  match p, s with
  | [], _ => true
  | x :: p', y :: s' => ascii_eqb x y && startswith p' s'
  | _ :: _, [] => false
  end.

(** [s.endswith(p)] *)
Definition endswith (p s : pystr) : bool := startswith (rev p) (rev s).

(** [str(n)] for a natural number and [str(b)] for a boolean. *)
Definition str_of_nat (n : nat) : pystr :=
  py (NilZero.string_of_uint (Nat.to_uint n)).
Definition str_of_bool (b : bool) : pystr :=
  if b then py "True" else py "False".

End PyStr.
Import PyStr.

(* ====================================================================== *)
(** ** The [re] module: patterns, matching, [findall] and [sub] *)
(* ====================================================================== *)

Module Re.

(** The pattern constructs the source uses. *)
Inductive regex : Type :=
| Eps                         (* the empty pattern *)
| Lit (c : ascii)             (* a literal character *)
| Cls (p : ascii -> bool)     (* a character class, such as \s *)
| Seq (a b : regex)           (* ab *)
| Alt (a b : regex)           (* a|b, the left one first *)
| Opt (a : regex)             (* a?, greedy *)
| Star (a : regex)            (* a*, greedy *)
| Bol                         (* ^ (no MULTILINE) *)
| Eol                         (* $ (no MULTILINE) *)
| WordB.                      (* \b *)

(** A position in the subject: the characters before it, nearest first,
    and the characters from it on. *)
Definition cursor : Type := pystr * pystr.

Definition word_before (bef : pystr) : bool :=
  match bef with c :: _ => is_word c | [] => false end.
Definition word_after (rest : pystr) : bool :=
  match rest with c :: _ => is_word c | [] => false end.

(** [\b]: exactly one side of the position is a word character. *)
Definition at_boundary (bef rest : pystr) : bool :=
  xorb (word_before bef) (word_after rest).

(** [$]: the end of the subject, or just before a newline that ends it. *)
Definition at_eol (rest : pystr) : bool :=
  match rest with
  | [] => true
  | [c] => ascii_eqb c "010"
  | _ => false
  end.

Section Matcher.

(** [re.IGNORECASE] *)
Variable ignorecase : bool.

Definition lit_ok (p c : ascii) : bool :=
  if ignorecase then eqb_ic p c else ascii_eqb p c.

(** Backtracking matcher in continuation-passing style: [k] is what is
    left of the pattern.  The first success in the order of [re] is
    returned: a greedy quantifier takes the longest repetition first and
    gives characters back on failure.  An iteration of [a*] that consumes
    nothing ends the repetition. *)
Fixpoint run (r : regex) (bef rest : pystr)
    (k : pystr -> pystr -> option cursor) {struct r} : option cursor :=
  match r with
  | Eps => k bef rest
  | Lit p =>
      match rest with
      | c :: rest' => if lit_ok p c then k (c :: bef) rest' else None
      | [] => None
      end
  | Cls p =>
      match rest with
      | c :: rest' => if p c then k (c :: bef) rest' else None
      | [] => None
      end
  | Seq a b => run a bef rest (fun bef' rest' => run b bef' rest' k)
  | Alt a b =>
      match run a bef rest k with
      | Some x => Some x
      | None => run b bef rest k
      end
  | Opt a =>
      match run a bef rest k with
      | Some x => Some x
      | None => k bef rest
      end
  | Star a =>
      (fix loop (fuel : nat) (bef rest : pystr) {struct fuel} : option cursor :=
         match fuel with
         | 0 => k bef rest
         | S fuel' =>
             match run a bef rest
                     (fun bef' rest' =>
                        if length rest' <? length rest
                        then loop fuel' bef' rest' else None) with
             | Some x => Some x
             | None => k bef rest
             end
         end) (length rest) bef rest
  | Bol => match bef with [] => k bef rest | _ :: _ => None end
  | Eol => if at_eol rest then k bef rest else None
  | WordB => if at_boundary bef rest then k bef rest else None
  end.

(** A match of [r] that starts at the position: its length. *)
Definition match_at (r : regex) (bef rest : pystr) : option nat :=
  match run r bef rest (fun b s => Some (b, s)) with
  | Some (_, rest') => Some (length rest - length rest')
  | None => None
  end.

(** The scan of [finditer]: the matches from left to right, not
    overlapping; [skip] characters of the last match are still to pass.
    After an empty match the scan moves on by one character. *)
Fixpoint scan (r : regex) (bef rest : pystr) (skip : nat) {struct rest}
    : list pystr :=
  match skip with
  | S skip' =>
      match rest with
      | c :: rest' => scan r (c :: bef) rest' skip'
      | [] => []
      end
  | 0 =>
      match match_at r bef rest with
      | Some n =>
          firstn n rest ::
            match rest with
            | c :: rest' => scan r (c :: bef) rest' (n - 1)
            | [] => []
            end
      | None =>
          match rest with
          | c :: rest' => scan r (c :: bef) rest' 0
          | [] => []
          end
      end
  end.

(** [re.findall(r, s)]: the texts of the matches. *)
Definition findall (r : regex) (s : pystr) : list pystr := scan r [] s 0.

(** The scan of [re.sub(r, repl, s)]. *)
Fixpoint subst (r : regex) (repl : pystr) (bef rest : pystr) (skip : nat)
    {struct rest} : pystr :=
  match skip with
  | S skip' =>
      match rest with
      | c :: rest' => subst r repl (c :: bef) rest' skip'
      | [] => []
      end
  | 0 =>
      match match_at r bef rest with
      | Some n =>
          repl ++
            match rest with
            | c :: rest' =>
                (if n =? 0 then [c] else []) ++ subst r repl (c :: bef) rest' (n - 1)
            | [] => []
            end
      | None =>
          match rest with
          | c :: rest' => c :: subst r repl (c :: bef) rest' 0
          | [] => []
          end
      end
  end.

(** [re.sub(r, repl, s)] *)
Definition sub (r : regex) (repl s : pystr) : pystr := subst r repl [] s 0.

End Matcher.

(** A literal word, and an alternation of patterns in their order. *)
Fixpoint lits (w : pystr) : regex :=
  match w with
  | [] => Eps
  | c :: w' => Seq (Lit c) (lits w')
  end.

Fixpoint alts (rs : list regex) : regex :=
  match rs with
  | [] => Eps
  | [r] => r
  | r :: rs' => Alt r (alts rs')
  end.

End Re.

(* ====================================================================== *)
(** ** [difflib.SequenceMatcher(None, a, b)] *)
(* ====================================================================== *)

(** [Validator.compute_similarity] is one call of the standard library:
    [SequenceMatcher(None, a, b).ratio()].  The matcher is not part of the
    repository; it is embedded here from CPython's [Lib/difflib.py] with
    the arguments of that call: [isjunk] is [None] and [autojunk] is
    [True].  The dictionaries [b2j] and [j2len] are finite maps; an index
    outside a string gives no element, which the windows that
    [get_matching_blocks] asks for never reach. *)
Module Difflib.

(** [Match(a, b, size)] *)
Definition block : Type := nat * nat * nat.
Definition size (m : block) : nat := m.2.

(** [(alo, ahi, blo, bhi)] *)
Definition window : Type := nat * nat * nat * nat.

Section SequenceMatcher.

Variables a b : pystr.

(** *** [__chain_b] *)

(** [indices = b2j.setdefault(elt, []); indices.append(i)] *)
Definition chain_step (b2j : gmap ascii (list nat)) (i : nat) (elt : ascii)
    : gmap ascii (list nat) :=
  <[elt := default [] (b2j !! elt) ++ [i]]> b2j.

Fixpoint chain (b2j : gmap ascii (list nat)) (i : nat) (s : pystr)
    : gmap ascii (list nat) :=
  match s with
  | [] => b2j
  | elt :: s' => chain (chain_step b2j i elt) (S i) s'
  end.

(** No junk predicate is given: [bjunk] stays empty. *)
Definition isbjunk (c : ascii) : bool := false.

(** [self.autojunk and n >= 200], then [len(idxs) > n // 100 + 1] *)
Definition is_popular (idxs : list nat) : bool :=
  (200 <=? length b) && (length b / 100 + 1 <? length idxs).

Definition b2j : gmap ascii (list nat) :=
  omap (fun idxs => if is_popular idxs then None else Some idxs)
       (chain ∅ 0 b).

(** *** [find_longest_match] *)

(** [j2len.get(j-1, 0)]; for [j = 0] the key is [-1], never present. *)
Definition j2lenget (j2len : gmap nat nat) (j : nat) : nat :=
  match j with
  | 0 => 0
  | S j' => default 0 (j2len !! j')
  end.

(** [a[i] == b[j]] *)
Definition same_elt (i j : nat) : bool :=
  match a !! i, b !! j with
  | Some x, Some y => ascii_eqb x y
  | _, _ => false
  end.

(** The loop [for j in b2j.get(a[i], nothing)], with its [continue] and
    its [break]. *)
Fixpoint inner (i blo bhi : nat) (js : list nat)
    (j2len newj2len : gmap nat nat) (best : block)
    : gmap nat nat * block :=
  match js with
  | [] => (newj2len, best)
  | j :: js' =>
      if j <? blo then inner i blo bhi js' j2len newj2len best
      else if bhi <=? j then (newj2len, best)
      else
        let k := j2lenget j2len j + 1 in
        inner i blo bhi js' j2len (<[j := k]> newj2len)
              (if size best <? k then (i + 1 - k, j + 1 - k, k) else best)
  end.

(** One round of [for i in range(alo, ahi)]. *)
Definition outer_step (blo bhi : nat) (st : gmap nat nat * block) (i : nat)
    : gmap nat nat * block :=
  inner i blo bhi
        (match a !! i with
         | Some x => default [] (b2j !! x)
         | None => []
         end)
        st.1 ∅ st.2.

(** The two loops that grow the block backwards; [junk] tells whether
    the loop is the one for junk elements. *)
Fixpoint extend_back (junk : bool) (alo blo besti bestj bestsize : nat)
    {struct besti} : block :=
  match besti, bestj with
  | S i', S j' =>
      if (alo <? besti) && (blo <? bestj)
         && Bool.eqb (match b !! j' with Some y => isbjunk y | None => false end) junk
         && same_elt i' j'
      then extend_back junk alo blo i' j' (S bestsize)
      else (besti, bestj, bestsize)
  | _, _ => (besti, bestj, bestsize)
  end.

(** The two loops that grow the block forwards; [fuel] is the distance
    of the block's end from [ahi], which bounds the rounds. *)
Fixpoint extend_fwd (junk : bool) (ahi bhi : nat) (fuel : nat)
    (besti bestj bestsize : nat) {struct fuel} : block :=
  match fuel with
  | 0 => (besti, bestj, bestsize)
  | S fuel' =>
      if (besti + bestsize <? ahi) && (bestj + bestsize <? bhi)
         && Bool.eqb (match b !! (bestj + bestsize) with
                      | Some y => isbjunk y | None => false end) junk
         && same_elt (besti + bestsize) (bestj + bestsize)
      then extend_fwd junk ahi bhi fuel' besti bestj (S bestsize)
      else (besti, bestj, bestsize)
  end.

Definition back (junk : bool) (alo blo : nat) (m : block) : block :=
  extend_back junk alo blo m.1.1 m.1.2 m.2.
Definition fwd (junk : bool) (ahi bhi : nat) (m : block) : block :=
  extend_fwd junk ahi bhi (ahi - (m.1.1 + m.2)) m.1.1 m.1.2 m.2.

Definition find_longest_match (alo ahi blo bhi : nat) : block :=
  let st := foldl (outer_step blo bhi) (∅, (alo, blo, 0)) (seq alo (ahi - alo)) in
  fwd true ahi bhi (back true alo blo (fwd false ahi bhi (back false alo blo st.2))).

(** *** [get_matching_blocks] *)

(** The loop [while queue]: the head of the list is the end of the
    Python list, where [pop] and [append] work.  [None] when [fuel]
    rounds did not empty the queue. *)
Fixpoint blocks_loop (fuel : nat) (queue : list window)
    (matching_blocks : list block) : option (list block) :=
  match queue with
  | [] => Some matching_blocks
  | (alo, ahi, blo, bhi) :: queue' =>
      match fuel with
      | 0 => None
      | S fuel' =>
          let x := find_longest_match alo ahi blo bhi in
          let '(i, j, k) := x in
          if k =? 0 then blocks_loop fuel' queue' matching_blocks
          else
            let q1 := if (alo <? i) && (blo <? j)
                      then (alo, i, blo, j) :: queue' else queue' in
            let q2 := if (i + k <? ahi) && (j + k <? bhi)
                      then (i + k, ahi, j + k, bhi) :: q1 else q1 in
            blocks_loop fuel' q2 (matching_blocks ++ [x])
      end
  end.

(** The order of tuples, for [matching_blocks.sort()]. *)
Definition block_leb (x y : block) : bool :=
  let '(i1, j1, k1) := x in
  let '(i2, j2, k2) := y in
  (i1 <? i2) || (i1 =? i2) && ((j1 <? j2) || (j1 =? j2) && (k1 <=? k2)).

Fixpoint insert_block (x : block) (l : list block) : list block :=
  match l with
  | [] => [x]
  | y :: l' => if block_leb x y then x :: l else y :: insert_block x l'
  end.

Definition sort_blocks (l : list block) : list block :=
  foldr insert_block [] l.

(** The loop that merges adjacent blocks; [(i1, j1, k1)] is the block
    being grown. *)
Fixpoint collapse (cur : block) (l : list block) : list block :=
  let '(i1, j1, k1) := cur in
  match l with
  | [] => if k1 =? 0 then [] else [cur]
  | (i2, j2, k2) :: l' =>
      if (i1 + k1 =? i2) && (j1 + k1 =? j2)
      then collapse (i1, j1, k1 + k2) l'
      else (if k1 =? 0 then [] else [cur]) ++ collapse (i2, j2, k2) l'
  end.

Definition get_matching_blocks : option (list block) :=
  let la := length a in
  let lb := length b in
  match blocks_loop (2 * la + 1) [(0, la, 0, lb)] [] with
  | Some matching_blocks =>
      Some (collapse (0, 0, 0) (sort_blocks matching_blocks) ++ [(la, lb, 0)])
  | None => None
  end.

(** [_calculate_ratio(matches, length)]; the float is the rounding of
    this rational. *)
Definition calculate_ratio (matches len : nat) : Q :=
  if len =? 0 then 1
  else Qmake (Z.of_nat (2 * matches)) (Pos.of_nat len).

Definition ratio : option Q :=
  match get_matching_blocks with
  | Some blocks =>
      Some (calculate_ratio (list_sum (map size blocks)) (length a + length b))
  | None => None
  end.

End SequenceMatcher.

End Difflib.

(* ====================================================================== *)
(** ** Exceptions, data frames and the platform *)
(* ====================================================================== *)

(** The classes of exceptions the source tells apart:
    [mysql.connector.Error] (caught in [DatabaseHandler.__init__]), any
    other [Exception] (both caught by [except Exception] in [run]), and
    what is only a [BaseException], such as [KeyboardInterrupt]. *)
Inductive exn_class : Type := MySQLError | OtherException | BaseExceptionOnly.

(** An exception: its class and [str(e)]. *)
Record exn : Type := mk_exn { exn_cls : exn_class; exn_str : pystr }.

Definition is_Exception (e : exn) : bool :=
  match exn_cls e with BaseExceptionOnly => false | _ => true end.
Definition is_mysql_Error (e : exn) : bool :=
  match exn_cls e with MySQLError => true | _ => false end.

Module Pandas.

Section DataFrame.

(** The type of a value in a result column. *)
Variable cell : Type.

(** A row as [cursor(dictionary=True)] yields it: a dict from column
    names to values, in the order of its keys. *)
Definition record : Type := list (pystr * cell).

Record DataFrame : Type := mk_df { columns : list pystr; records : list record }.

Definition add_column (cols : list pystr) (k : pystr) : list pystr :=
  if existsb (pystr_eqb k) cols then cols else cols ++ [k].

(** [pd.DataFrame(rows)] for a list of dicts: the columns are the keys
    in the order of their first appearance. *)
Definition of_records (rs : list record) : DataFrame :=
  {| columns := foldl (fun cols r => foldl add_column cols (map fst r)) [] rs;
     records := rs |}.

(** [pd.DataFrame()] *)
Definition empty : DataFrame := {| columns := []; records := [] |}.

(** [df.head(n)]; [df.head()] is [df.head(5)]. *)
Definition head (n : nat) (df : DataFrame) : DataFrame :=
  {| columns := columns df; records := firstn n (records df) |}.

(** [len(df)] and [len(df.columns)] *)
Definition len (df : DataFrame) : nat := length (records df).
Definition ncols (df : DataFrame) : nat := length (columns df).

End DataFrame.

Arguments mk_df {cell}.
Arguments columns {cell}.
Arguments records {cell}.
Arguments of_records {cell}.
Arguments empty {cell}.
Arguments head {cell}.
Arguments len {cell}.
Arguments ncols {cell}.

End Pandas.

(** What the source takes from its platform and does not define: floats
    (the values of [time.perf_counter()], their difference and the format
    [:.3f]), the values of result columns, the rendering
    [DataFrame.to_string(index=False)], and [sqlparse.parse] (the number of
    statements it returns, or the exception it raises). *)
Class Platform : Type := {
  pyfloat : Type;
  float_sub : pyfloat -> pyfloat -> pyfloat;
  format_3f : pyfloat -> pystr;
  cell : Type;
  to_string : Pandas.DataFrame cell -> pystr;
  sqlparse_parse : pystr -> exn + nat;
}.

(* ====================================================================== *)
(** ** Programs that call collaborators *)
(* ====================================================================== *)

Module Prog.

Section Prog.

(** The calls a program can make; [E R] is a call answered by an [R]. *)
Context {E : Type -> Type}.

Inductive Prog (A : Type) : Type :=
| Ret (x : A)
| Raise (e : exn)
| Vis {R : Type} (ev : E R) (k : R -> Prog A).

Arguments Ret {A}.
Arguments Raise {A}.
Arguments Vis {A R}.

Fixpoint bind {A B : Type} (p : Prog A) (f : A -> Prog B) : Prog B :=
  match p with
  | Ret x => f x
  | Raise e => Raise e
  | Vis ev k => Vis ev (fun r => bind (k r) f)
  end.

(** A call that returns. *)
Definition ask {R : Type} (ev : E R) : Prog R := Vis ev Ret.

(** A call that returns or raises. *)
Definition call {R : Type} (ev : E (exn + R)) : Prog R :=
  Vis ev (fun r => match r with inl e => Raise e | inr x => Ret x end).

(** [try: p  except C as e: h(e)], where [catches] is [isinstance(e, C)]. *)
Fixpoint try_except {A : Type} (catches : exn -> bool) (p : Prog A)
    (h : exn -> Prog A) : Prog A :=
  match p with
  | Ret x => Ret x
  | Raise e => if catches e then h e else Raise e
  | Vis ev k => Vis ev (fun r => try_except catches (k r) h)
  end.

(** *** Running a program in an environment *)

(** How a run ends. *)
Inductive outcome (A : Type) : Type :=
| Returned (x : A)
| Raised (e : exn).

Arguments Returned {A}.
Arguments Raised {A}.

(** A call together with its answer. *)
Inductive obs : Type :=
| Obs {R : Type} (ev : E R) (r : R).

(** An environment with state [St] answers every call. *)
Definition env (St : Type) : Type := forall R : Type, E R -> St -> R * St.

(** The run of [p] from the state [s]: how it ends, the state it
    leaves, and the calls it made, in order, with their answers. *)
Fixpoint interp {St A : Type} (h : env St) (p : Prog A) (s : St)
    : outcome A * St * list obs :=
  match p with
  | Ret x => (Returned x, s, [])
  | Raise e => (Raised e, s, [])
  | Vis ev k =>
      let '(r, s1) := h _ ev s in
      let '(o, s2, tr) := interp h (k r) s1 in
      (o, s2, Obs ev r :: tr)
  end.

End Prog.

Arguments Prog : clear implicits.
Arguments obs : clear implicits.
Arguments env : clear implicits.
Arguments Ret {E A}.
Arguments Raise {E A}.
Arguments Vis {E A R}.
Arguments Returned {A}.
Arguments Raised {A}.

#[export] Instance prog_ret {E} : MRet (Prog E) := fun A x => Ret x.
#[export] Instance prog_bind {E} : MBind (Prog E) := fun A B f p => bind p f.

End Prog.
Import Prog.

(* ====================================================================== *)
(** ** Configuration *)
(* ====================================================================== *)

(** The part of [Config] the pipeline reads.  [TABLE_SCHEMA] is a fixed
    text of the source, kept as a field. *)
Record Config : Type := mk_config {
  FORBIDDEN_TOKENS : list pystr;
  TABLE_SCHEMA : pystr;
}.

Definition default_forbidden_tokens : list pystr :=
  [py "insert"; py "update"; py "delete"; py "drop"; py "create"; py "alter"].

(** [Config()] with the schema text [schema]. *)
Definition make_config (schema : pystr) : Config :=
  {| FORBIDDEN_TOKENS := default_forbidden_tokens; TABLE_SCHEMA := schema |}.

(* ====================================================================== *)
(** ** [class Validator] *)
(* ====================================================================== *)

Module Validator.

(** [rf"\b({'|'.join(self.forbidden_tokens)})\b"]; each token is a word
    without pattern syntax, as the configured ones are. *)
Definition forbidden_pattern (forbidden_tokens : list pystr) : Re.regex :=
  Re.Seq Re.WordB (Re.Seq (Re.alts (map Re.lits forbidden_tokens)) Re.WordB).

(** [r"\bjoin\b"] *)
Definition join_pattern : Re.regex :=
  Re.Seq Re.WordB (Re.Seq (Re.lits (py "join")) Re.WordB).

(** [r"\(\s*select\b"] *)
Definition subquery_pattern : Re.regex :=
  Re.Seq (Re.Lit "(")
    (Re.Seq (Re.Star (Re.Cls is_space)) (Re.Seq (Re.lits (py "select")) Re.WordB)).

Section Methods.

Context {P : Platform}.

(** [self.forbidden_tokens] *)
Variable forbidden_tokens : list pystr.

(** [try: return len(sqlparse.parse(sql)) > 0  except: return False] *)
Definition validate_syntax (sql : pystr) : bool :=
  match sqlparse_parse sql with
  | inr n => 0 <? n
  | inl _ => false
  end.

Definition count_forbidden_tokens (sql : pystr) : nat :=
  length (Re.findall true (forbidden_pattern forbidden_tokens) sql).

Definition compute_complexity (sql : pystr) : nat :=
  length (Re.findall true join_pattern sql)
  + length (Re.findall true subquery_pattern sql).

(** [SequenceMatcher(None, a, b).ratio()]; [None] if the matcher's loop
    did not end. *)
Definition compute_similarity (a b : pystr) : option Q := Difflib.ratio a b.

End Methods.

End Validator.

(** The validator as [run] sees it: an object with three methods. *)
Record ValidatorObj : Type := mk_validator {
  v_validate_syntax : pystr -> bool;
  v_count_forbidden_tokens : pystr -> nat;
  v_compute_complexity : pystr -> nat;
}.

(** [Validator(forbidden_tokens)] *)
Definition make_validator {P : Platform} (forbidden_tokens : list pystr)
    : ValidatorObj :=
  {| v_validate_syntax := Validator.validate_syntax;
     v_count_forbidden_tokens := Validator.count_forbidden_tokens forbidden_tokens;
     v_compute_complexity := Validator.compute_complexity |}.

(* ====================================================================== *)
(** ** [class DatabaseHandler] *)
(* ====================================================================== *)

Module DatabaseHandler.

Section Handler.

Context {P : Platform}.

(** Handles of connections and cursors of the MySQL connector. *)
Definition connection : Type := nat.
Definition cursor : Type := nat.

(** The calls to [mysql.connector] and to the logger. *)
Inductive DbE : Type -> Type :=
| Connect : DbE (exn + connection)
| LogInfo : DbE unit
| LogError (e : exn) : DbE unit
| Cursor (conn : connection) : DbE (exn + cursor)
| Execute (cur : cursor) (sql_query : pystr) : DbE (exn + unit)
| Fetchall (cur : cursor) : DbE (exn + list (Pandas.record cell))
| Close (cur : cursor) : DbE (exn + unit).

(** [self.conn], [None] when the connection failed. *)
Record t : Type := mk { conn : option connection }.

(** [__init__]: a [mysql.connector.Error] is logged and leaves
    [self.conn = None]. *)
Definition init : Prog DbE t :=
  try_except is_mysql_Error
    (c ← call Connect;
     _ ← ask LogInfo;
     mret {| conn := Some c |})
    (fun e =>
       _ ← ask (LogError e);
       mret {| conn := None |}).

Definition execute_sql_query (self : t) (sql_query : pystr)
    : Prog DbE (Pandas.DataFrame cell) :=
  match conn self with
  | None => mret Pandas.empty
  | Some c =>
      cur ← call (Cursor c);
      _ ← call (Execute cur sql_query);
      rows ← call (Fetchall cur);
      _ ← call (Close cur);
      mret (Pandas.of_records rows)
  end.

End Handler.

End DatabaseHandler.

(* ====================================================================== *)
(** ** [class SQLApp] *)
(* ====================================================================== *)

Module SQLApp.

(** [r"^```(?:sql)?\s*"] *)
Definition fence_open_pattern : Re.regex :=
  Re.Seq Re.Bol
    (Re.Seq (Re.lits (py "```"))
       (Re.Seq (Re.Opt (Re.lits (py "sql"))) (Re.Star (Re.Cls is_space)))).

(** [r"\s*```$"] *)
Definition fence_close_pattern : Re.regex :=
  Re.Seq (Re.Star (Re.Cls is_space)) (Re.Seq (Re.lits (py "```")) Re.Eol).

(** The three lines that follow each model answer that carries SQL:
    [sql = str(raw).strip()], then the two [re.sub] calls. *)
Definition strip_fences (raw : pystr) : pystr :=
  let sql := strip raw in
  let sql := Re.sub false fence_open_pattern [] sql in
  Re.sub false fence_close_pattern [] sql.

Section App.

Context {P : Platform}.

(** The calls [run] makes: to stdin, to the four crews (the answer is
    [str] of what [kickoff] returns), to [self.db_handler] and to the
    clock. *)
Inductive AppE : Type -> Type :=
| Input (prompt : pystr) : AppE (exn + pystr)
| IntentKickoff (query : pystr) : AppE (exn + pystr)
| GenKickoff (query : pystr) : AppE (exn + pystr)
| DdlKickoff (sql : pystr) : AppE (exn + pystr)
| VerifyKickoff (sql schema error : pystr) : AppE (exn + pystr)
| ExecuteSqlQuery (sql_query : pystr) : AppE (exn + Pandas.DataFrame cell)
| PerfCounter : AppE pyfloat.

(** The fields of [self] that [run] computes with. *)
Record t : Type := mk { config : Config; validator : ValidatorObj }.

(** The text block of the metrics. *)
Definition metrics_text (gen_time exec_time : pyfloat) (nrows ncols : nat)
    (syntax_ok : bool) (forbidden_count complexity : nat) : pystr :=
  py "Generation Time: " ++ format_3f gen_time ++ py "s" ++ ["010"%char]
  ++ py "Execution Time: " ++ format_3f exec_time ++ py "s" ++ ["010"%char]
  ++ py "Rows Returned: " ++ str_of_nat nrows ++ ["010"%char]
  ++ py "Columns: " ++ str_of_nat ncols ++ ["010"%char]
  ++ py "Syntax Valid: " ++ str_of_bool syntax_ok ++ ["010"%char]
  ++ py "Forbidden Tokens: " ++ str_of_nat forbidden_count ++ ["010"%char]
  ++ py "Query Complexity: " ++ str_of_nat complexity.

(** One timed execution: the statements of the [try] block, which are
    also the last three of the [except] block. *)
Definition timed_execute (sql : pystr)
    : Prog AppE (pystr * Pandas.DataFrame cell * pyfloat) :=
  exec_start ← ask PerfCounter;
  df ← call (ExecuteSqlQuery sql);
  t ← ask PerfCounter;
  mret (sql, df, float_sub t exec_start).

Definition run (self : t) (query_input : option pystr)
    : Prog AppE (pystr * pystr * pystr) :=
  q ← match query_input with
      | Some (c :: q') => mret (c :: q')
      | _ => call (Input (py "Ask your query: "))
      end;
  intent ← call (IntentKickoff q);
  if negb (pystr_eqb (strip (lower intent)) (py "valid"))
  then mret (py "Invalid query", [], [])
  else
    start ← ask PerfCounter;
    raw ← call (GenKickoff q);
    t ← ask PerfCounter;
    let gen_time := float_sub t start in
    let sql := strip_fences raw in
    let syntax_ok := v_validate_syntax (validator self) sql in
    let forbidden_count := v_count_forbidden_tokens (validator self) sql in
    let complexity := v_compute_complexity (validator self) sql in
    ddl_check ← call (DdlKickoff sql);
    if startswith (py "error") (lower ddl_check)
    then mret (py "DDL operations not allowed.", [], [])
    else
      '(sql, df, exec_time) ←
        try_except is_Exception
          (timed_execute sql)
          (fun e =>
             regen ← call (VerifyKickoff sql (TABLE_SCHEMA (config self)) (exn_str e));
             timed_execute (strip_fences regen));
      let result := to_string (Pandas.head 5 df) in
      let metrics :=
        metrics_text gen_time exec_time (Pandas.len df) (Pandas.ncols df)
                     syntax_ok forbidden_count complexity in
      mret (sql, result, metrics).

End App.

End SQLApp.

(* ====================================================================== *)
(** ** Traces of [run] and the linked system *)
(* ====================================================================== *)

Module Trace.

Section Trace.

Context {P : Platform}.

Import SQLApp.

(** The calls of [execute_sql_query] in a trace, with their answers. *)
Definition exec_call (o : obs AppE) : option (pystr * (exn + Pandas.DataFrame cell)) :=
  match o with
  | Obs ev r =>
      match ev in AppE R return R -> option (pystr * (exn + Pandas.DataFrame cell)) with
      | ExecuteSqlQuery sql => fun r => Some (sql, r)
      | _ => fun _ => None
      end r
  end.

(** The calls of the regeneration crew: the inputs [sql], [schema] and
    [error], and the answer. *)
Definition verify_call (o : obs AppE) : option (pystr * pystr * pystr * (exn + pystr)) :=
  match o with
  | Obs ev r =>
      match ev in AppE R return R -> option (pystr * pystr * pystr * (exn + pystr)) with
      | VerifyKickoff sql schema error => fun r => Some (sql, schema, error, r)
      | _ => fun _ => None
      end r
  end.

(** The calls of the DDL gate. *)
Definition ddl_call (o : obs AppE) : option (pystr * (exn + pystr)) :=
  match o with
  | Obs ev r =>
      match ev in AppE R return R -> option (pystr * (exn + pystr)) with
      | DdlKickoff sql => fun r => Some (sql, r)
      | _ => fun _ => None
      end r
  end.

(** The calls of the intent crew. *)
Definition intent_call (o : obs AppE) : option (pystr * (exn + pystr)) :=
  match o with
  | Obs ev r =>
      match ev in AppE R return R -> option (pystr * (exn + pystr)) with
      | IntentKickoff q => fun r => Some (q, r)
      | _ => fun _ => None
      end r
  end.

(** The calls of the generation crew. *)
Definition gen_call (o : obs AppE) : option (pystr * (exn + pystr)) :=
  match o with
  | Obs ev r =>
      match ev in AppE R return R -> option (pystr * (exn + pystr)) with
      | GenKickoff q => fun r => Some (q, r)
      | _ => fun _ => None
      end r
  end.

Definition exec_calls (tr : list (obs AppE)) := omap exec_call tr.
Definition verify_calls (tr : list (obs AppE)) := omap verify_call tr.
Definition ddl_calls (tr : list (obs AppE)) := omap ddl_call tr.
Definition intent_calls (tr : list (obs AppE)) := omap intent_call tr.
Definition gen_calls (tr : list (obs AppE)) := omap gen_call tr.

(** The system as [SQLApp.__init__] wires it: [self.db_handler] is a
    [DatabaseHandler], so a call of [execute_sql_query] runs that method
    against the MySQL connector; every other call goes to [outer].  The
    state records the calls made to the connector. *)
Definition linked_env {S1 S2 : Type}
    (outer : env AppE S1) (db : env DatabaseHandler.DbE S2)
    (db_handler : DatabaseHandler.t)
    : env AppE (S1 * S2 * list (obs DatabaseHandler.DbE)) :=
  fun R ev st =>
    let '(s1, s2, log) := st in
    match ev in AppE R return R * (S1 * S2 * list (obs DatabaseHandler.DbE)) with
    | ExecuteSqlQuery sql =>
        let '(o, s2', tr) :=
          interp db (DatabaseHandler.execute_sql_query db_handler sql) s2 in
        (match o with Returned df => inr df | Raised e => inl e end,
         (s1, s2', log ++ tr))
    | ev' =>
        let '(r, s1') := outer _ ev' s1 in (r, (s1', s2, log))
    end.

End Trace.

End Trace.

(* ====================================================================== *)
(** ** Whole-word occurrences, as the specification words them *)
(* ====================================================================== *)

Module Occurrence.

(** [w] is a prefix of [s], letter case ignored. *)
Fixpoint starts_ic (w s : pystr) : bool :=
  match w, s with
  | [], _ => true
  | x :: w', y :: s' => eqb_ic x y && starts_ic w' s'
  | _ :: _, [] => false
  end.

(** The word [w] stands at the position as a whole word, in any letter
    case: no word character right before it and none right after it. *)
Definition whole_word_at (w bef rest : pystr) : bool :=
  starts_ic w rest
  && negb (Re.word_before bef)
  && negb (Re.word_after (skipn (length w) rest)).

(** One of the tokens stands at the position as a whole word. *)
Definition forbidden_at (tokens : list pystr) (bef rest : pystr) : bool :=
  existsb (fun w => whole_word_at w bef rest) tokens.

(** A subquery opens at the position: an opening parenthesis, optional
    white space, then the word [select] in any letter case. *)
Definition subquery_at (rest : pystr) : bool :=
  match rest with
  | c :: r =>
      ascii_eqb c "("
      && starts_ic (py "select") (drop_while is_space r)
      && negb (Re.word_after (skipn 6 (drop_while is_space r)))
  | [] => false
  end.

(** The number of positions of a string at which [f] holds; [bef] is what
    precedes the string. *)
Fixpoint count_positions (f : pystr -> pystr -> bool) (bef rest : pystr) : nat :=
  (if f bef rest then 1 else 0)
  + match rest with
    | [] => 0
    | c :: rest' => count_positions f (c :: bef) rest'
    end.

Definition count_whole_words (tokens : list pystr) (s : pystr) : nat :=
  count_positions (forbidden_at tokens) [] s.

(** The number of whole-word occurrences of the tokens: for each token,
    the positions where it stands as a whole word. *)
Definition count_occurrences (tokens : list pystr) (s : pystr) : nat :=
  list_sum (map (fun w => count_positions (whole_word_at w) [] s) tokens).

Definition count_joins (s : pystr) : nat :=
  count_positions (whole_word_at (py "join")) [] s.

Definition count_subqueries (s : pystr) : nat :=
  count_positions (fun _ rest => subquery_at rest) [] s.

End Occurrence.

(* ====================================================================== *)
(** ** A concrete platform and scripted environments *)
(* ====================================================================== *)

(** Used to run the definitions on concrete inputs. *)
Module Demo.

(** Clock readings are ticks; a frame is rendered as the texts of its
    cells; every text parses as one statement. *)
#[export] Instance platform : Platform := {|
  pyfloat := Z;
  float_sub := Z.sub;
  format_3f := fun _ => py "0.000";
  cell := pystr;
  to_string := fun df => concat (map (fun r => concat (map snd r) ++ ["010"%char]) (Pandas.records df));
  sqlparse_parse := fun _ => inr 1;
|}.

(** The answers of a scripted run: one text per crew, and the answer of
    the database handler to each statement. *)
Record script : Type := mk_script {
  on_intent : pystr;
  on_gen : pystr;
  on_ddl : pystr;
  on_verify : pystr;
  on_execute : pystr -> exn + Pandas.DataFrame pystr;
}.

(** The environment of a script; its state is the clock. *)
Definition scripted (sc : script) : env SQLApp.AppE Z :=
  fun R ev clock =>
    match ev in SQLApp.AppE R return R * Z with
    | SQLApp.Input _ => (inr (py "question"), clock)
    | SQLApp.IntentKickoff _ => (inr (on_intent sc), clock)
    | SQLApp.GenKickoff _ => (inr (on_gen sc), clock)
    | SQLApp.DdlKickoff _ => (inr (on_ddl sc), clock)
    | SQLApp.VerifyKickoff _ _ _ => (inr (on_verify sc), clock)
    | SQLApp.ExecuteSqlQuery sql => (on_execute sc sql, clock)
    | SQLApp.PerfCounter => (clock, (clock + 1)%Z)
    end.

(** A MySQL connector that rejects every statement whose text is not
    [good], and returns [rows] for [good]. *)
Definition connector (good : pystr) (rows : list (Pandas.record pystr))
    : env DatabaseHandler.DbE unit :=
  fun R ev st =>
    match ev in DatabaseHandler.DbE R return R * unit with
    | DatabaseHandler.Connect => (inr 0, st)
    | DatabaseHandler.LogInfo => (tt, st)
    | DatabaseHandler.LogError _ => (tt, st)
    | DatabaseHandler.Cursor _ => (inr 0, st)
    | DatabaseHandler.Execute _ sql =>
        (if pystr_eqb sql good then inr tt
         else inl (mk_exn MySQLError (py "1054 (42S22): Unknown column")), st)
    | DatabaseHandler.Fetchall _ => (inr rows, st)
    | DatabaseHandler.Close _ => (inr tt, st)
    end.

Definition app : SQLApp.t :=
  {| SQLApp.config := make_config (py "schema");
     SQLApp.validator := make_validator default_forbidden_tokens |}.

(** A question out of the domain: the intent check answers "Invalid". *)
Definition joke : script :=
  {| on_intent := py " Invalid ";
     on_gen := py "SELECT 1";
     on_ddl := py "OK";
     on_verify := py "SELECT 1";
     on_execute := fun _ => inr Pandas.empty |}.

(** A statement that deletes: the gate answers with a sentence that
    starts with "Error". *)
Definition deleting : script :=
  {| on_intent := py "Valid";
     on_gen := py "DELETE FROM orders WHERE order_id = 1";
     on_ddl := py "Error: the statement contains DELETE";
     on_verify := py "SELECT 1";
     on_execute := fun _ => inr Pandas.empty |}.

Definition supplier (name : string) : Pandas.record pystr :=
  [(py "supplier_name", py name)].

Definition six_suppliers : Pandas.DataFrame pystr :=
  Pandas.of_records
    [supplier "A"; supplier "B"; supplier "C"; supplier "D"; supplier "E";
     supplier "F"].

Definition unknown_column : exn :=
  mk_exn MySQLError (py "1054 (42S22): Unknown column 'nme' in 'field list'").

(** A first statement with a misspelt column, in a code fence; the
    regeneration repairs it. *)
Definition misspelt : script :=
  {| on_intent := py "valid";
     on_gen := py "```sql" ++ ["010"%char] ++ py "SELECT nme FROM suppliers"
               ++ ["010"%char] ++ py "```";
     on_ddl := py "OK";
     on_verify := py "SELECT supplier_name FROM suppliers";
     on_execute := fun sql =>
       if pystr_eqb sql (py "SELECT supplier_name FROM suppliers")
       then inr six_suppliers else inl unknown_column |}.

(** A statement with a forbidden token that the gate lets pass. *)
Definition dropping : script :=
  {| on_intent := py "Valid";
     on_gen := py "DROP TABLE suppliers";
     on_ddl := py "OK";
     on_verify := py "SELECT 1";
     on_execute := fun _ => inr six_suppliers |}.

(** A validator that reports nothing. *)
Definition silent_validator : ValidatorObj :=
  {| v_validate_syntax := fun _ => false;
     v_count_forbidden_tokens := fun _ => 0;
     v_compute_complexity := fun _ => 0 |}.

End Demo.

(* ====================================================================== *)
(** ** Direct forms of the matcher's steps *)
(* ====================================================================== *)

(** What the matcher computes on the pattern shapes of the source, written
    as plain recursions; the theorems relate them to [Re.run]. *)
Module ReAux.

(** The word [w] is a prefix of [s] under the case mode. *)
Fixpoint prefix_ok (ignorecase : bool) (w s : pystr) : bool :=
  match w, s with
  | [], _ => true
  | x :: w', y :: s' => Re.lit_ok ignorecase x y && prefix_ok ignorecase w' s'
  | _ :: _, [] => false
  end.

(** The characters before a position [n] characters further on. *)
Definition passed (n : nat) (bef rest : pystr) : pystr :=
  rev (firstn n rest) ++ bef.

(** Greedy repetition of a class with backtracking. *)
Fixpoint star_cls (p : ascii -> bool) (bef rest : pystr)
    (k : pystr -> pystr -> option Re.cursor) : option Re.cursor :=
  match rest with
  | c :: rest' =>
      if p c
      then match star_cls p (c :: bef) rest' k with
           | Some x => Some x
           | None => k bef rest
           end
      else k bef rest
  | [] => k bef []
  end.

(** The number of leading characters of a class. *)
Fixpoint span (p : ascii -> bool) (s : pystr) : nat :=
  match s with
  | c :: s' => if p c then S (span p s') else 0
  | [] => 0
  end.

(** The first word of a list that the test accepts. *)
Fixpoint first_word (f : pystr -> bool) (ws : list pystr) : option pystr :=
  match ws with
  | [] => None
  | w :: ws' => if f w then Some w else first_word f ws'
  end.

(** A word of the kind the forbidden tokens are: not empty, made of word
    characters. *)
Definition is_token (w : pystr) : bool :=
  negb (Nat.eqb (length w) 0) && forallb is_word w.

(** The string ends with a white-space character. *)
Fixpoint ends_with_space (s : pystr) : bool :=
  match s with
  | [] => false
  | [c] => is_space c
  | _ :: s' => ends_with_space s'
  end.

(** The string starts with a white-space character. *)
Definition starts_with_space (s : pystr) : bool :=
  match s with
  | c :: _ => is_space c
  | [] => false
  end.

(** [rstrip] from the left: the string is cut where only white space is
    left. *)
Fixpoint rstrip_fwd (s : pystr) : pystr :=
  match s with
  | [] => []
  | c :: s' => if forallb is_space s then [] else c :: rstrip_fwd s'
  end.

(** The opening fence, taken off directly. *)
Definition strip_open (s : pystr) : pystr :=
  if startswith (py "```") s
  then
    let r := skipn 3 s in
    drop_while is_space (if startswith (py "sql") r then skipn 3 r else r)
  else s.

(** A closing fence stands at the position and ends the string: white
    space, then the fence, then nothing. *)
Definition closes_here (s : pystr) : bool :=
  pystr_eqb (drop_while is_space s) (py "```").

(** The closing fence, cut off directly (for a string that does not end
    with white space). *)
Fixpoint cut_close (s : pystr) : pystr :=
  match s with
  | [] => []
  | c :: s' => if closes_here s then [] else c :: cut_close s'
  end.

(** What is left of a pattern that ends with [\b]. *)
Definition ends_word (bef rest : pystr) : option Re.cursor :=
  if Re.at_boundary bef rest then Some (bef, rest) else None.

(** The pattern matches at the position. *)
Definition matches (ignorecase : bool) (r : Re.regex) (bef rest : pystr) : bool :=
  bool_decide (is_Some (Re.match_at ignorecase r bef rest)).

(** The matches of a pattern cannot overlap: a match is not empty, fits in
    the string, and no other match starts inside it. *)
Definition separate (ignorecase : bool) (r : Re.regex) : Prop :=
  forall bef rest n,
    Re.match_at ignorecase r bef rest = Some n ->
    0 < n <= length rest
    /\ forall k, 0 < k < n ->
         Re.match_at ignorecase r (passed k bef rest) (skipn k rest) = None.

(** What is left of a pattern at its end. *)
Definition found (b s : pystr) : option Re.cursor := Some (b, s).

(** What is left of the closing-fence pattern after its white space. *)
Definition closes (b s : pystr) : option Re.cursor :=
  Re.run false (Re.lits (py "```")) b s
         (fun b' s' => if Re.at_eol s' then Some (b', s') else None).

End ReAux.

(* ====================================================================== *)
(** ** Invariants of the sequence matcher *)
(* ====================================================================== *)

Module DifflibAux.

Import Difflib.

(** The number of matched elements of a list of blocks. *)
Definition matched (l : list block) : nat := list_sum (map size l).

(** The block lies in the window. *)
Definition within (alo ahi blo bhi : nat) (m : block) : Prop :=
  alo <= m.1.1 /\ m.1.1 + m.2 <= ahi /\ blo <= m.1.2 /\ m.1.2 + m.2 <= bhi.

(** The lengths recorded for the rows before [i] fit in the window. *)
Definition row_ok (alo blo bhi i : nat) (j2len : gmap nat nat) : Prop :=
  forall j k, j2len !! j = Some k -> k + alo <= i /\ blo + k <= j + 1 /\ j < bhi.

Definition window_ok (w : window) : Prop :=
  w.1.1.1 <= w.1.1.2 /\ w.1.2 <= w.2.

(** The rounds a window can still cost, and the elements it can still
    match on each side. *)
Definition weight (w : window) : nat := 2 * (w.1.1.2 - w.1.1.1) + 1.
Definition room_a (w : window) : nat := w.1.1.2 - w.1.1.1.
Definition room_b (w : window) : nat := w.2 - w.1.2.

Definition total (f : window -> nat) (queue : list window) : nat :=
  list_sum (map f queue).

(** The indices of [x] in a string whose first index is [i]. *)
Fixpoint positions (x : ascii) (i : nat) (s : pystr) : list nat :=
  match s with
  | [] => []
  | c :: s' => (if ascii_eqb c x then [i] else []) ++ positions x (S i) s'
  end.

Section Same.

(** A string compared with itself. *)
Variable s : pystr.

(** The element is kept in [b2j]. *)
Definition kept (x : ascii) : bool := negb (is_popular s (positions x 0 s)).

(** The DP of [find_longest_match] extends a run at [(i, j)]. *)
Definition cell (i j : nat) : bool :=
  match s !! i, s !! j with
  | Some x, Some y => ascii_eqb x y && kept x
  | _, _ => false
  end.

(** The length of the run of kept, equal elements that ends at [(i, j)]. *)
Fixpoint run_len (i j : nat) : nat :=
  if cell i j
  then S (match i, j with
          | S i', S j' => run_len i' j'
          | _, _ => 0
          end)
  else 0.

(** The length of the run that ends just before [(i, j)]. *)
Definition run_before (i j : nat) : nat :=
  match i, j with
  | S i', S j' => run_len i' j'
  | _, _ => 0
  end.

(** After the rows before [i]: [j2len] holds the runs of row [i - 1], the
    best block lies on the diagonal, and no run of those rows is longer. *)
Definition rows_done (i : nat) (st : gmap nat nat * block) : Prop :=
  (forall j, j2lenget st.1 j = run_before i j)
  /\ st.2.1.1 = st.2.1.2
  /\ (forall i' j', i' < i -> run_len i' j' <= size st.2).

End Same.

End DifflibAux.

(* ====================================================================== *)
(** ** More of the traces: stdin and the statements the connector ran *)
(* ====================================================================== *)

Module Calls.

Section Calls.

Context {P : Platform}.

Import SQLApp.

(** The calls of [input], with the prompt and the answer. *)
Definition input_call (o : obs AppE) : option (pystr * (exn + pystr)) :=
  match o with
  | Obs ev r =>
      match ev in AppE R return R -> option (pystr * (exn + pystr)) with
      | Input prompt => fun r => Some (prompt, r)
      | _ => fun _ => None
      end r
  end.

Definition input_calls (tr : list (obs AppE)) := omap input_call tr.

(** The statements passed to [cursor.execute] in a log of the connector. *)
Definition executed_call (o : obs DatabaseHandler.DbE) : option pystr :=
  match o with
  | Obs ev _ =>
      match ev with
      | DatabaseHandler.Execute _ sql_query => Some sql_query
      | _ => None
      end
  end.

Definition executed (log : list (obs DatabaseHandler.DbE)) := omap executed_call log.

(** The cursors closed in a log of the connector. *)
Definition closed_call (o : obs DatabaseHandler.DbE) : option DatabaseHandler.cursor :=
  match o with
  | Obs ev _ =>
      match ev with
      | DatabaseHandler.Close cur => Some cur
      | _ => None
      end
  end.

Definition closed (log : list (obs DatabaseHandler.DbE)) := omap closed_call log.

(** The exceptions that [cursor.execute] and [fetchall] raised in a log of
    the connector. *)
Definition statement_error (o : obs DatabaseHandler.DbE) : option exn :=
  match o with
  | Obs ev r =>
      match ev in DatabaseHandler.DbE R return R -> option exn with
      | DatabaseHandler.Execute _ _ =>
          fun r => match r with inl e => Some e | inr _ => None end
      | DatabaseHandler.Fetchall _ =>
          fun r => match r with inl e => Some e | inr _ => None end
      | _ => fun _ => None
      end r
  end.

Definition statement_errors (log : list (obs DatabaseHandler.DbE)) :=
  omap statement_error log.

End Calls.

End Calls.

(* ====================================================================== *)
(** ** Scenarios in which a collaborator may raise *)
(* ====================================================================== *)

Module Scenario.

(** The answers of a run: what is typed at the prompt, the answer of each
    crew (a text or an exception), and the answer of the database handler
    to each statement. *)
Record t : Type := mk {
  typed : exn + pystr;
  intent : exn + pystr;
  gen : exn + pystr;
  ddl : exn + pystr;
  verify : exn + pystr;
  execute : pystr -> exn + Pandas.DataFrame pystr;
}.

(** The environment of a scenario; its state is the clock. *)
Definition env_of (sc : t) : env (@SQLApp.AppE Demo.platform) Z :=
  fun R ev clock =>
    match ev in SQLApp.AppE R return R * Z with
    | SQLApp.Input _ => (typed sc, clock)
    | SQLApp.IntentKickoff _ => (intent sc, clock)
    | SQLApp.GenKickoff _ => (gen sc, clock)
    | SQLApp.DdlKickoff _ => (ddl sc, clock)
    | SQLApp.VerifyKickoff _ _ _ => (verify sc, clock)
    | SQLApp.ExecuteSqlQuery sql => (execute sc sql, clock)
    | SQLApp.PerfCounter => (clock, (clock + 1)%Z)
    end.

(** The generation crew fails. *)
Definition rate_limit : exn := mk_exn OtherException (py "rate limit").

Definition gen_fails : t :=
  {| typed := inr (py "question");
     intent := inr (py "valid");
     gen := inl rate_limit;
     ddl := inr (py "OK");
     verify := inr (py "SELECT 1");
     execute := fun _ => inr Pandas.empty |}.

(** The first execution is interrupted from the keyboard. *)
Definition interrupt : exn := mk_exn BaseExceptionOnly (py "").

Definition interrupted : t :=
  {| typed := inr (py "question");
     intent := inr (py "valid");
     gen := inr (py "SELECT 1");
     ddl := inr (py "OK");
     verify := inr (py "SELECT 2");
     execute := fun _ => inl interrupt |}.

(** The regeneration answers with a statement that drops a table. *)
Definition regen_drops : t :=
  {| typed := inr (py "question");
     intent := inr (py "valid");
     gen := inr (py "SELECT nme FROM suppliers");
     ddl := inr (py "OK");
     verify := inr (py "DROP TABLE suppliers");
     execute := fun sql =>
       if pystr_eqb sql (py "DROP TABLE suppliers")
       then inr Pandas.empty else inl Demo.unknown_column |}.

End Scenario.

(* ====================================================================== *)
(** ** What the matching blocks stand for *)
(* ====================================================================== *)

Module Matching.

Import Difflib.

Section Matching.

Variables a b : pystr.

(** The [k] elements of [a] from [i] on are the [k] elements of [b] from
    [j] on. *)
Definition agree (i j k : nat) : Prop :=
  forall t, t < k -> exists x, a !! (i + t) = Some x /\ b !! (j + t) = Some x.

(** A block is a real match. *)
Definition block_valid (m : block) : Prop := agree m.1.1 m.1.2 m.2.

(** After [rows] rows of the search, a length kept for the column [j] is
    the length of a match that ends at row [rows - 1] and column [j]. *)
Definition row_valid (rows : nat) (j2len : gmap nat nat) : Prop :=
  forall j k, j2len !! j = Some k ->
    k <= rows /\ k <= j + 1 /\ agree (rows - k) (j + 1 - k) k.

(** [s[lo:hi]] *)
Definition slice (s : pystr) (lo hi : nat) : pystr := take (hi - lo) (drop lo s).

(** A common subsequence of the two strings: characters of both, in the
    order of both. *)
Definition common (x y s : pystr) : Prop := s `sublist_of` x /\ s `sublist_of` y.

(** A window holds a common subsequence of [n] elements. *)
Definition realisable (w : window) (n : nat) : Prop :=
  exists s, length s = n
    /\ common (slice a w.1.1.1 w.1.1.2) (slice b w.1.2 w.2) s.

End Matching.

End Matching.

(* ====================================================================== *)
(** ** JSON values and the built-in errors of subscripts *)
(* ====================================================================== *)

Module Json.

(** What [resp.json()] returns: [None], booleans, numbers, strings, lists
    and dicts.  A dict is the list of its items in insertion order, with
    distinct keys. *)
#[warnings="-register-all"] Inductive value : Type :=
| Null
| Bool (b : bool)
| Int (n : Z)
| Float (repr : pystr)
| Str (s : pystr)
| List (l : list value)
| Dict (d : list (pystr * value)).

(** [d.get(key)] on the items of a dict. *)
Fixpoint dict_get (key : pystr) (d : list (pystr * value)) : option value :=
  match d with
  | [] => None
  | (k, v) :: d' => if pystr_eqb k key then Some v else dict_get key d'
  end.

(** [d[key] = v]: the value of an existing key is replaced in place, a
    new key goes to the end. *)
Fixpoint dict_set (key : pystr) (v : value) (d : list (pystr * value))
    : list (pystr * value) :=
  match d with
  | [] => [(key, v)]
  | (k, x) :: d' =>
      if pystr_eqb k key then (k, v) :: d' else (k, x) :: dict_set key v d'
  end.

(** The classes of the built-in exceptions that the source raises or that
    its subscripts raise; all are subclasses of [Exception]. *)
Inductive builtin_class : Type := KeyError | IndexError | TypeError | RuntimeError.

Record builtin_error : Type := mk_error { err_class : builtin_class; err_text : pystr }.

(** The exception as the [except] clauses of the source see it. *)
Definition to_exn (e : builtin_error) : exn := mk_exn OtherException (err_text e).

Definition not_subscriptable (type_name : string) : builtin_error :=
  mk_error TypeError (py "'" ++ py type_name ++ py "' object is not subscriptable").

(** [v[key]] for a key that is one of the string constants of the source
    (its [repr] is the key between single quotes); the messages are those
    of CPython 3.11. *)
Definition getitem_str (v : value) (key : pystr) : builtin_error + value :=
  match v with
  | Dict d =>
      match dict_get key d with
      | Some x => inr x
      | None => inl (mk_error KeyError (py "'" ++ key ++ py "'"))
      end
  | List _ => inl (mk_error TypeError (py "list indices must be integers or slices, not str"))
  | Str _ => inl (mk_error TypeError (py "string indices must be integers, not 'str'"))
  | Null => inl (not_subscriptable "NoneType")
  | Bool _ => inl (not_subscriptable "bool")
  | Int _ => inl (not_subscriptable "int")
  | Float _ => inl (not_subscriptable "float")
  end.

(** [v[0]]; the keys of a dict that comes from JSON are strings, so [0]
    is never one of them. *)
Definition getitem_0 (v : value) : builtin_error + value :=
  match v with
  | Dict _ => inl (mk_error KeyError (py "0"))
  | List (x :: _) => inr x
  | List [] => inl (mk_error IndexError (py "list index out of range"))
  | Str (c :: _) => inr (Str [c])
  | Str [] => inl (mk_error IndexError (py "string index out of range"))
  | Null => inl (not_subscriptable "NoneType")
  | Bool _ => inl (not_subscriptable "bool")
  | Int _ => inl (not_subscriptable "int")
  | Float _ => inl (not_subscriptable "float")
  end.

End Json.

(* ====================================================================== *)
(** ** [class OpenRouterLLM] *)
(* ====================================================================== *)

Module OpenRouterLLM.

Import Json.

(** [str(n)] for an integer. *)
Definition str_of_Z (n : Z) : pystr :=
  match n with
  | Z0 => py "0"
  | Zpos p => str_of_nat (Pos.to_nat p)
  | Zneg p => py "-" ++ str_of_nat (Pos.to_nat p)
  end.

(** [str(x)] for a value that is a string or [None]. *)
Definition str_of_option (x : option pystr) : pystr :=
  match x with Some s => s | None => py "None" end.

(** The fields of the wrapper; [api_key] is [None] when the environment
    variable is not set. *)
Record t : Type := mk { api_key : option pystr; model : pystr; endpoint : pystr }.

(** [OpenRouterLLM(api_key=...)] with the default model and endpoint. *)
Definition make (key : option pystr) : t :=
  {| api_key := key;
     model := py "openrouter/meta-llama/llama-3.3-8b-instruct:free";
     endpoint := py "https://openrouter.ai/api/v1/chat/completions" |}.

(** A response of [requests]: the status code, the body as text, and what
    [resp.json()] gives (the parsed body, or the exception of the
    parser). *)
Record response : Type := mk_response {
  status_code : Z;
  text : pystr;
  json : exn + value;
}.

(** [requests.post(url, headers=..., json=...)] *)
Inductive HttpE : Type -> Type :=
| Post (url : pystr) (headers : list (pystr * pystr)) (payload : value)
    : HttpE (exn + response).

Definition headers_of (self : t) : list (pystr * pystr) :=
  [(py "Authorization", py "Bearer " ++ str_of_option (api_key self));
   (py "Content-Type", py "application/json")].

Definition payload_of (self : t) (messages : value) : value :=
  Dict [(py "model", Str (model self)); (py "messages", messages)].

(** [RuntimeError(f"OpenRouter API Error {resp.status_code}: {resp.text}")] *)
Definition api_error (resp : response) : builtin_error :=
  mk_error RuntimeError
    (py "OpenRouter API Error " ++ str_of_Z (status_code resp) ++ py ": " ++ text resp).

(** [data["choices"][0]["message"]["content"]] *)
Definition content_of (data : value) : builtin_error + value :=
  match getitem_str data (py "choices") with
  | inl e => inl e
  | inr choices =>
      match getitem_0 choices with
      | inl e => inl e
      | inr choice =>
          match getitem_str choice (py "message") with
          | inl e => inl e
          | inr message => getitem_str message (py "content")
          end
      end
  end.

Definition create_chat_completion (self : t) (messages : value)
    : Prog HttpE value :=
  resp ← call (Post (endpoint self) (headers_of self) (payload_of self messages));
  if negb (status_code resp =? 200)%Z
  then Raise (to_exn (api_error resp))
  else
    match json resp with
    | inl e => Raise e
    | inr data =>
        match content_of data with
        | inl e => Raise (to_exn e)
        | inr content => mret content
        end
    end.

(** The calls of [requests.post] in a trace. *)
Definition post_call (o : obs HttpE)
    : option (pystr * list (pystr * pystr) * value * (exn + response)) :=
  match o with
  | Obs ev r =>
      match ev in HttpE R
            return R -> option (pystr * list (pystr * pystr) * value * (exn + response)) with
      | Post url headers payload => fun r => Some (url, headers, payload, r)
      end r
  end.

Definition post_calls (tr : list (obs HttpE)) := omap post_call tr.

(** A server that answers every request with [resp]. *)
Definition server (resp : response) : env HttpE unit :=
  fun R ev st =>
    match ev in HttpE R return R * unit with
    | Post _ _ _ => (inr resp, st)
    end.

Definition too_many_requests : response :=
  {| status_code := 429; text := py "rate limited"; json := inr Null |}.

Definition one_choice (content : value) : response :=
  {| status_code := 200;
     text := [];
     json := inr (Dict [(py "id", Str (py "gen-1"));
                        (py "choices",
                         List [Dict [(py "message",
                                      Dict [(py "role", Str (py "assistant"));
                                            (py "content", content)])];
                               Dict [(py "message",
                                      Dict [(py "content", Str (py "second"))])]])]) |}.

Definition no_choice : response :=
  {| status_code := 200; text := []; json := inr (Dict [(py "choices", List [])]) |}.

End OpenRouterLLM.

(* ====================================================================== *)
(** ** The chat page (app.py) *)
(* ====================================================================== *)

Module DashApp.

Import Json.

(** The Dash components that [bubble] builds. *)
#[warnings="-register-all"] Inductive component : Type :=
| Div (children : list (option component)) (className : pystr)
      (style : list (pystr * pystr))
| I (className : pystr)
| Span (children : pystr).

(** [bubble(text, role)]: a message of the user has no icon and stands on
    the right; any other role gets the robot icon and stands on the
    left. *)
Definition bubble (text role : pystr) : component :=
  let user := pystr_eqb role (py "user") in
  Div [if user then None else Some (I (py "fa fa-robot icon")); Some (Span text)]
      (py "bubble")
      [(py "alignSelf", if user then py "flex-end" else py "flex-start");
       (py "background",
        if user then py "var(--user-bubble)" else py "var(--bot-bubble)")].

(** [toggle(_, __, visible, style)]: [visible] is the boolean of the
    store (what the previous call returned, [True] at the start);
    [style] is [None] until the first call has set it. *)
Definition toggle (visible : bool) (style : option (list (pystr * value)))
    : list (pystr * value) * pystr * bool :=
  let visible := negb visible in
  let style := match style with Some (x :: d) => x :: d | _ => [] end in
  let style :=
    dict_set (py "display") (Str (if visible then py "flex" else py "none")) style in
  (style, if visible then py "fa fa-chevron-down" else py "fa fa-chevron-up", visible).

(** An entry of the conversation: [{"role": ..., "content": ...}]. *)
Record message : Type := mk_message { role : pystr; content : pystr }.

(** What the callback returns: three times [dash.no_update], or the new
    conversation, the bubbles and the new text of the input box. *)
Inductive chat_output : Type :=
| NoUpdate
| Update (history : list message) (children : list component) (value : pystr).

(** The f-string of the answer. *)
Definition bot_text (sql result metrics : pystr) : pystr :=
  py "**Generated SQL**" ++ ["010"%char] ++ sql ++ ["010"; "010"]%char
  ++ py "**Results**" ++ ["010"%char] ++ result ++ ["010"; "010"]%char
  ++ py "**Metrics**" ++ ["010"%char] ++ metrics.

Section Chat.

Context {P : Platform}.

(** [chat(_, query, history)]; [query] is [None] while nothing was typed. *)
Definition chat (sql_app : SQLApp.t) (query : option pystr) (history : list message)
    : Prog SQLApp.AppE chat_output :=
  match query with
  | Some (c :: q) =>
      let query := c :: q in
      let history := history ++ [{| role := py "user"; content := query |}] in
      '(sql, result, metrics) ← SQLApp.run sql_app (Some query);
      let bot := bot_text sql result metrics in
      let history := history ++ [{| role := py "assistant"; content := bot |}] in
      mret (Update history (map (fun m => bubble (content m) (role m)) history) [])
  | _ => mret NoUpdate
  end.

End Chat.

End DashApp.

(* ====================================================================== *)
(** ** [Config.__init__] and [SQLApp.__init__] *)
(* ====================================================================== *)

Module Startup.

(** The crews that [SQLApp.__init__] asks the factory for, in this
    order. *)
Inductive crew_kind : Type := Intent | Generation | DdlCheck | Verify | SqlToText.

(** What [Config.__init__] reads from the environment, besides the
    constants; a variable that is not set is [None]. *)
Record settings : Type := mk_settings {
  OPENROUTER_KEY : option pystr;
  DB_HOST : option pystr;
  DB_PORT : Z;
  DB_USER : option pystr;
  DB_PASSWORD : option pystr;
  DB_DATABASE : option pystr;
}.

(** The object that [SQLApp()] builds. *)
Record app : Type := mk_app {
  env_settings : settings;
  self : SQLApp.t;
  db_handler : DatabaseHandler.t;
  llm : OpenRouterLLM.t;
}.

Section Startup.

Context {P : Platform}.

(** [int(s)] for a string, a built-in of the platform: the integer, or
    the [ValueError] it raises. *)
Variable int_of_str : pystr -> exn + Z.

(** The text of [TABLE_SCHEMA], a constant of the source. *)
Variable schema : pystr.

(** [int(None)] *)
Definition int_of_None : exn :=
  mk_exn OtherException
    (py "int() argument must be a string, a bytes-like object or a real number, not 'NoneType'").

(** [int(os.getenv(...))] *)
Definition py_int (x : option pystr) : exn + Z :=
  match x with
  | None => inl int_of_None
  | Some s => int_of_str s
  end.

(** The calls of the two constructors: [load_dotenv], [os.getenv], the
    calls of [DatabaseHandler.__init__], and the construction of a crew
    by the factory (its agent, its task and the crew itself). *)
Inductive InitE : Type -> Type :=
| LoadDotenv : InitE (exn + bool)
| Getenv (name : pystr) : InitE (option pystr)
| Db {R : Type} (ev : DatabaseHandler.DbE R) : InitE R
| BuildCrew (kind : crew_kind) : InitE (exn + unit).

(** A program of the database handler, run inside [SQLApp.__init__]. *)
Fixpoint lift_db {A : Type} (p : Prog DatabaseHandler.DbE A) : Prog InitE A :=
  match p with
  | Ret x => Ret x
  | Raise e => Raise e
  | Vis ev k => Vis (Db ev) (fun r => lift_db (k r))
  end.

(** [Config.__init__] *)
Definition config_init : Prog InitE (settings * Config) :=
  _ ← call LoadDotenv;
  key ← ask (Getenv (py "OPENROUTER_API_KEY"));
  host ← ask (Getenv (py "MYSQL_HOST"));
  port_text ← ask (Getenv (py "MYSQL_PORT"));
  match py_int port_text with
  | inl e => Raise e
  | inr port =>
      user ← ask (Getenv (py "MYSQL_USER"));
      password ← ask (Getenv (py "MYSQL_PASSWORD"));
      database ← ask (Getenv (py "MYSQL_DATABASE"));
      mret ({| OPENROUTER_KEY := key; DB_HOST := host; DB_PORT := port;
               DB_USER := user; DB_PASSWORD := password;
               DB_DATABASE := database |},
            make_config schema)
  end.

(** [SQLApp.__init__] *)
Definition sqlapp_init : Prog InitE app :=
  '(env_settings, config) ← config_init;
  let validator := make_validator (FORBIDDEN_TOKENS config) in
  db_handler ← lift_db DatabaseHandler.init;
  let llm := OpenRouterLLM.make (OPENROUTER_KEY env_settings) in
  _ ← call (BuildCrew Intent);
  _ ← call (BuildCrew Generation);
  _ ← call (BuildCrew DdlCheck);
  _ ← call (BuildCrew Verify);
  _ ← call (BuildCrew SqlToText);
  mret {| env_settings := env_settings;
          self := {| SQLApp.config := config; SQLApp.validator := validator |};
          db_handler := db_handler;
          llm := llm |}.

(** The variables read, with their values. *)
Definition getenv_call (o : obs InitE) : option (pystr * option pystr) :=
  match o with
  | Obs ev r =>
      match ev in InitE R return R -> option (pystr * option pystr) with
      | Getenv name => fun r => Some (name, r)
      | _ => fun _ => None
      end r
  end.

(** The attempts to connect, with their answers. *)
Definition connect_call (o : obs InitE) : option (exn + DatabaseHandler.connection) :=
  match o with
  | Obs ev r =>
      match ev in InitE R return R -> option (exn + DatabaseHandler.connection) with
      | Db ev' =>
          match ev' in DatabaseHandler.DbE R
                return R -> option (exn + DatabaseHandler.connection) with
          | DatabaseHandler.Connect => fun r => Some r
          | _ => fun _ => None
          end
      | _ => fun _ => None
      end r
  end.

(** The connection errors logged. *)
Definition logged_error (o : obs InitE) : option exn :=
  match o with
  | Obs ev _ =>
      match ev with
      | Db ev' =>
          match ev' with
          | DatabaseHandler.LogError e => Some e
          | _ => None
          end
      | _ => None
      end
  end.

(** The crews built, with the answers of the factory. *)
Definition crew_call (o : obs InitE) : option (crew_kind * (exn + unit)) :=
  match o with
  | Obs ev r =>
      match ev in InitE R return R -> option (crew_kind * (exn + unit)) with
      | BuildCrew kind => fun r => Some (kind, r)
      | _ => fun _ => None
      end r
  end.

Definition getenv_calls (tr : list (obs InitE)) := omap getenv_call tr.
Definition connect_calls (tr : list (obs InitE)) := omap connect_call tr.
Definition logged_errors (tr : list (obs InitE)) := omap logged_error tr.
Definition crew_calls (tr : list (obs InitE)) := omap crew_call tr.

End Startup.

(** A machine on which only the variables of [vars] are set and the
    MySQL server refuses the connection. *)
Definition refused : exn := mk_exn MySQLError (py "2003: Can't connect to MySQL server").

Definition machine (vars : list (pystr * pystr)) : env (@InitE Demo.platform) unit :=
  fun R ev st =>
    match ev in InitE R return R * unit with
    | LoadDotenv => (inr true, st)
    | Getenv name =>
        (match find (fun kv => pystr_eqb (fst kv) name) vars with
         | Some kv => Some (snd kv)
         | None => None
         end, st)
    | Db ev' =>
        match ev' in DatabaseHandler.DbE R return R * unit with
        | DatabaseHandler.Connect => (inl refused, st)
        | DatabaseHandler.LogInfo => (tt, st)
        | DatabaseHandler.LogError _ => (tt, st)
        | DatabaseHandler.Cursor _ => (inr 0, st)
        | DatabaseHandler.Execute _ _ => (inr tt, st)
        | DatabaseHandler.Fetchall _ => (inr [], st)
        | DatabaseHandler.Close _ => (inr tt, st)
        end
    | BuildCrew _ => (inr tt, st)
    end.

(** [int] on the one text the demonstrations use. *)
Definition demo_int (s : pystr) : exn + Z :=
  if pystr_eqb s (py "3306") then inr 3306%Z
  else inl (mk_exn OtherException (py "invalid literal for int() with base 10")).

End Startup.

(* ====================================================================== *)
(** ** Facts about characters and the matcher *)
(* ====================================================================== *)

Import ListNotations PyStr Prog.
Local Open Scope list_scope.

Module CharFacts.

(** Proves a statement about one character by going through all 256. *)
Ltac all_chars c :=
  destruct c as [[] [] [] [] [] [] [] []]; vm_compute; try reflexivity;
  try discriminate; auto.

Lemma ascii_eqb_eq (a b : ascii) : ascii_eqb a b = true <-> a = b.
Proof. apply Ascii.eqb_eq. Qed.

Lemma ascii_eqb_refl (a : ascii) : ascii_eqb a a = true.
Proof. apply Ascii.eqb_refl. Qed.

Lemma is_word_lower (c : ascii) : is_word (lower_char c) = is_word c.
Proof. all_chars c. Qed.

Lemma is_space_lower (c : ascii) : is_space (lower_char c) = is_space c.
Proof. all_chars c. Qed.

Lemma lower_char_idem (c : ascii) : lower_char (lower_char c) = lower_char c.
Proof. all_chars c. Qed.

Lemma space_not_word (c : ascii) : is_space c = true -> is_word c = false.
Proof. all_chars c. Qed.

Lemma eqb_ic_eq (a c : ascii) : eqb_ic a c = true <-> lower_char a = lower_char c.
Proof. unfold eqb_ic. apply ascii_eqb_eq. Qed.

Lemma eqb_ic_word (a c : ascii) : eqb_ic a c = true -> is_word c = is_word a.
Proof.
  intros H. apply eqb_ic_eq in H.
  rewrite <- (is_word_lower c), <- H. apply is_word_lower.
Qed.

Lemma eqb_ic_space (a c : ascii) : eqb_ic a c = true -> is_space c = is_space a.
Proof.
  intros H. apply eqb_ic_eq in H.
  rewrite <- (is_space_lower c), <- H. apply is_space_lower.
Qed.

Lemma eqb_ic_paren (c : ascii) : eqb_ic "(" c = ascii_eqb c "(".
Proof. all_chars c. Qed.

End CharFacts.

Module ReFacts.

Import Re ReAux CharFacts.

#[local] Arguments passed : simpl never.

Lemma passed_0 (bef rest : pystr) : passed 0 bef rest = bef.
Proof. reflexivity. Qed.

Lemma passed_S (n : nat) (c : ascii) (bef rest : pystr) :
  passed (S n) bef (c :: rest) = passed n (c :: bef) rest.
Proof. unfold passed. cbn. rewrite <- app_assoc. reflexivity. Qed.

Section Steps.

Variable ic : bool.

Lemma run_seq (a b : regex) (bef rest : pystr) (k : pystr -> pystr -> option cursor) :
  run ic (Seq a b) bef rest k = run ic a bef rest (fun b' r' => run ic b b' r' k).
Proof. reflexivity. Qed.

Lemma run_opt (a : regex) (bef rest : pystr) (k : pystr -> pystr -> option cursor) :
  run ic (Opt a) bef rest k
  = match run ic a bef rest k with Some x => Some x | None => k bef rest end.
Proof. reflexivity. Qed.

Lemma run_bol (bef rest : pystr) (k : pystr -> pystr -> option cursor) :
  run ic Bol bef rest k = match bef with [] => k bef rest | _ :: _ => None end.
Proof. reflexivity. Qed.

(** A literal word consumes its length when it is a prefix. *)
Lemma run_lits (w bef rest : pystr) (k : pystr -> pystr -> option cursor) :
  run ic (lits w) bef rest k =
  if prefix_ok ic w rest
  then k (passed (length w) bef rest) (skipn (length w) rest)
  else None.
Proof.
  revert bef rest. induction w as [|x w IH]; intros bef rest; cbn.
  - reflexivity.
  - destruct rest as [|c rest]; cbn; [reflexivity|].
    destruct (lit_ok ic x c); cbn; [|reflexivity].
    rewrite IH, passed_S. reflexivity.
Qed.

Lemma star_loop_cls (p : ascii -> bool) (k : pystr -> pystr -> option cursor) :
  forall fuel bef rest, length rest <= fuel ->
    (fix loop (fuel : nat) (bef rest : pystr) {struct fuel} : option cursor :=
       match fuel with
       | 0 => k bef rest
       | S fuel' =>
           match run ic (Cls p) bef rest
                   (fun bef' rest' =>
                      if length rest' <? length rest
                      then loop fuel' bef' rest' else None) with
           | Some x => Some x
           | None => k bef rest
           end
       end) fuel bef rest
    = star_cls p bef rest k.
Proof.
  induction fuel as [|fuel IH]; intros bef rest Hlen.
  - destruct rest; [reflexivity | cbn in Hlen; lia].
  - destruct rest as [|c rest]; cbn; [reflexivity|].
    destruct (p c); [|reflexivity].
    rewrite Nat.leb_refl.
    rewrite IH by (cbn in Hlen; lia). reflexivity.
Qed.

(** The repetition of a class is the greedy loop. *)
Lemma run_star_cls (p : ascii -> bool) (bef rest : pystr)
    (k : pystr -> pystr -> option cursor) :
  run ic (Star (Cls p)) bef rest k = star_cls p bef rest k.
Proof. cbn [run]. apply star_loop_cls. lia. Qed.

(** When what follows cannot start with a character of the class, the
    loop takes the whole span and never gives back. *)
Lemma star_cls_commit (p : ascii -> bool) (k : pystr -> pystr -> option cursor) :
  (forall b c r, p c = true -> k b (c :: r) = None) ->
  forall bef rest,
    star_cls p bef rest k
    = k (passed (span p rest) bef rest) (drop_while p rest).
Proof.
  intros Hk bef rest. revert bef.
  induction rest as [|c rest IH]; intros bef; cbn.
  - reflexivity.
  - destruct (p c) eqn:Hp; [|reflexivity].
    rewrite IH, passed_S.
    destruct (k _ _) eqn:Hres; [reflexivity|].
    apply Hk. exact Hp.
Qed.

End Steps.

Lemma drop_while_length (p : ascii -> bool) (s : pystr) :
  length (drop_while p s) + span p s = length s.
Proof.
  induction s as [|c s IH]; cbn; [reflexivity|].
  destruct (p c); cbn; lia.
Qed.

Lemma drop_while_skipn (p : ascii -> bool) (s : pystr) :
  drop_while p s = skipn (span p s) s.
Proof.
  induction s as [|c s IH]; cbn; [reflexivity|].
  destruct (p c); cbn; [exact IH | reflexivity].
Qed.

Lemma drop_while_app (p : ascii -> bool) (x y : pystr) :
  drop_while p (x ++ y)
  = if forallb p x then drop_while p y else drop_while p x ++ y.
Proof.
  induction x as [|c x IH]; cbn; [reflexivity|].
  destruct (p c); cbn; [exact IH | reflexivity].
Qed.

Lemma drop_while_all (p : ascii -> bool) (x : pystr) :
  forallb p x = true -> drop_while p x = [].
Proof.
  induction x as [|c x IH]; cbn; [reflexivity|].
  destruct (p c); cbn; [exact IH | discriminate].
Qed.

Lemma prefix_ok_length (ic : bool) (w s : pystr) :
  prefix_ok ic w s = true -> length w <= length s.
Proof.
  revert s. induction w as [|x w IH]; intros [|c s]; cbn; try lia; try discriminate.
  intros H. apply andb_true_iff in H as [_ H]. apply IH in H. lia.
Qed.

Lemma prefix_ok_ic (w s : pystr) : prefix_ok true w s = Occurrence.starts_ic w s.
Proof.
  revert s. induction w as [|x w IH]; intros [|c s]; cbn; try reflexivity.
  rewrite IH. reflexivity.
Qed.

Lemma prefix_ok_cs (w s : pystr) : prefix_ok false w s = startswith w s.
Proof.
  revert s. induction w as [|x w IH]; intros [|c s]; cbn; try reflexivity.
  rewrite IH. reflexivity.
Qed.


(** *** Words made of word characters *)

Lemma starts_ic_length (w s : pystr) :
  Occurrence.starts_ic w s = true -> length w <= length s.
Proof. rewrite <- prefix_ok_ic. apply prefix_ok_length. Qed.

Lemma starts_ic_word_after (w rest : pystr) (k : nat) :
  forallb is_word w = true ->
  Occurrence.starts_ic w rest = true ->
  k < length w ->
  word_after (skipn k rest) = true.
Proof.
  revert rest k. induction w as [|x w IH]; intros rest k Hw Hs Hk; cbn in *.
  - lia.
  - destruct rest as [|c rest]; [discriminate|].
    apply andb_true_iff in Hw as [Hx Hw].
    apply andb_true_iff in Hs as [Hc Hs].
    destruct k as [|k]; cbn.
    + rewrite (eqb_ic_word _ _ Hc). exact Hx.
    + apply IH; [assumption | assumption | lia].
Qed.

Lemma starts_ic_word_before (w rest : pystr) (k : nat) (bef : pystr) :
  forallb is_word w = true ->
  Occurrence.starts_ic w rest = true ->
  0 < k <= length w ->
  word_before (passed k bef rest) = true.
Proof.
  revert rest k bef. induction w as [|x w IH]; intros rest k bef Hw Hs Hk; cbn in *.
  - lia.
  - destruct rest as [|c rest]; [discriminate|].
    apply andb_true_iff in Hw as [Hx Hw].
    apply andb_true_iff in Hs as [Hc Hs].
    destruct k as [|k]; [lia|]. rewrite passed_S.
    destruct k as [|k].
    + rewrite passed_0. cbn. rewrite (eqb_ic_word _ _ Hc). exact Hx.
    + apply (IH rest (S k) (c :: bef)); [assumption | assumption | lia].
Qed.

Lemma is_token_spec (w : pystr) :
  is_token w = true <-> 0 < length w /\ forallb is_word w = true.
Proof.
  unfold is_token. rewrite andb_true_iff, negb_true_iff, Nat.eqb_neq.
  intuition lia.
Qed.

Lemma length_skipn_sub (n : nat) (s : pystr) :
  n <= length s -> length s - length (skipn n s) = n.
Proof. intros H. rewrite length_skipn. lia. Qed.

(** *** The pattern [\bword\b] under [re.IGNORECASE] *)

Lemma run_token_then_boundary (w bef rest : pystr) :
  is_token w = true ->
  run true (lits w) bef rest ends_word
  = if Occurrence.starts_ic w rest && negb (word_after (skipn (length w) rest))
    then Some (passed (length w) bef rest, skipn (length w) rest)
    else None.
Proof.
  intros Hw. apply is_token_spec in Hw as [Hlen Hw].
  rewrite run_lits, prefix_ok_ic.
  destruct (Occurrence.starts_ic w rest) eqn:Hs; cbn; [|reflexivity].
  unfold ends_word, at_boundary.
  rewrite (starts_ic_word_before w rest (length w) bef Hw Hs) by lia.
  cbn. reflexivity.
Qed.

Lemma run_tokens_then_boundary (ws : list pystr) (bef rest : pystr) :
  ws <> [] ->
  forallb is_token ws = true ->
  run true (alts (map lits ws)) bef rest ends_word
  = match first_word
            (fun w => Occurrence.starts_ic w rest
                      && negb (word_after (skipn (length w) rest))) ws with
    | Some w => Some (passed (length w) bef rest, skipn (length w) rest)
    | None => None
    end.
Proof.
  induction ws as [|w ws IH]; intros Hne Hall; [contradiction|].
  cbn in Hall. apply andb_true_iff in Hall as [Hw Hall].
  destruct ws as [|w2 ws].
  - cbn [map alts first_word]. rewrite run_token_then_boundary by assumption.
    destruct (_ && _); reflexivity.
  - change (alts (map lits (w :: w2 :: ws)))
      with (Alt (lits w) (alts (map lits (w2 :: ws)))).
    cbn [run first_word]. rewrite run_token_then_boundary by assumption.
    destruct (_ && _); [reflexivity|].
    apply IH; [discriminate | assumption].
Qed.

Lemma first_word_ext (f g : pystr -> bool) (ws : list pystr) :
  (forall w, In w ws -> f w = g w) -> first_word f ws = first_word g ws.
Proof.
  induction ws as [|w ws IH]; intros H; cbn; [reflexivity|].
  rewrite (H w) by (left; reflexivity).
  destruct (g w); [reflexivity|]. apply IH. intros; apply H; right; assumption.
Qed.

Lemma first_word_none (f : pystr -> bool) (ws : list pystr) :
  (forall w, In w ws -> f w = false) -> first_word f ws = None.
Proof.
  induction ws as [|w ws IH]; intros H; cbn; [reflexivity|].
  rewrite (H w) by (left; reflexivity). apply IH. intros; apply H; right; assumption.
Qed.

Lemma first_word_some (f : pystr -> bool) (ws : list pystr) (w : pystr) :
  first_word f ws = Some w -> In w ws /\ f w = true.
Proof.
  induction ws as [|x ws IH]; cbn; [discriminate|].
  destruct (f x) eqn:Hx.
  - intros [= <-]. auto.
  - intros H. destruct (IH H). auto.
Qed.

Lemma first_word_existsb (f : pystr -> bool) (ws : list pystr) :
  bool_decide (is_Some (first_word f ws)) = existsb f ws.
Proof.
  induction ws as [|x ws IH]; cbn; [reflexivity|].
  destruct (f x); cbn; [reflexivity | exact IH].
Qed.

(** A match of the forbidden pattern at a position is the first token
    that stands there as a whole word. *)
Lemma match_forbidden (tokens : list pystr) (bef rest : pystr) :
  tokens <> [] ->
  forallb is_token tokens = true ->
  match_at true (Validator.forbidden_pattern tokens) bef rest
  = match first_word (fun w => Occurrence.whole_word_at w bef rest) tokens with
    | Some w => Some (length w)
    | None => None
    end.
Proof.
  intros Hne Hall.
  unfold match_at, Validator.forbidden_pattern. cbn [run].
  change (fun bef' rest' : pystr =>
            if at_boundary bef' rest' then Some (bef', rest') else None)
    with ends_word.
  assert (Htok : forall w, In w tokens -> is_token w = true).
  { intros w Hin. rewrite forallb_forall in Hall. apply Hall. exact Hin. }
  destruct (at_boundary bef rest) eqn:Hb.
  - rewrite run_tokens_then_boundary by assumption.
    unfold at_boundary in Hb.
    destruct (word_before bef) eqn:Hwb.
    + (* a word character before and none after: no token starts here *)
      cbn in Hb. apply negb_true_iff in Hb.
      rewrite !first_word_none; [reflexivity | |].
      * intros w _. unfold Occurrence.whole_word_at. rewrite Hwb.
        cbn. rewrite andb_false_r. reflexivity.
      * intros w Hin. apply Htok, is_token_spec in Hin as [Hlen Hw].
        destruct (Occurrence.starts_ic w rest) eqn:Hs; [|reflexivity].
        pose proof (starts_ic_word_after w rest 0 Hw Hs Hlen) as Hwa.
        change (word_after rest = true) in Hwa. congruence.
    + rewrite (first_word_ext _ (fun w => Occurrence.whole_word_at w bef rest)).
      * destruct (first_word _ tokens) as [w|] eqn:Hfw; [|reflexivity].
        apply first_word_some in Hfw as [_ Hfw].
        unfold Occurrence.whole_word_at in Hfw.
        apply andb_true_iff in Hfw as [Hfw _].
        apply andb_true_iff in Hfw as [Hs _].
        rewrite length_skipn_sub by (apply starts_ic_length; exact Hs).
        reflexivity.
      * intros w _. unfold Occurrence.whole_word_at. rewrite Hwb. cbn.
        rewrite andb_true_r. reflexivity.
  - rewrite first_word_none; [reflexivity|].
    intros w Hin. apply Htok, is_token_spec in Hin as [Hlen Hw].
    unfold Occurrence.whole_word_at.
    destruct (Occurrence.starts_ic w rest) eqn:Hs; [|reflexivity].
    pose proof (starts_ic_word_after w rest 0 Hw Hs Hlen) as Hwa.
    change (word_after rest = true) in Hwa.
    unfold at_boundary in Hb. rewrite Hwa in Hb.
    destruct (word_before bef); [reflexivity | discriminate Hb].
Qed.


(** *** The pattern [\(\s*select\b] under [re.IGNORECASE] *)

Lemma select_is_token : is_token (py "select") = true.
Proof. reflexivity. Qed.

Lemma select_not_after_space (b : pystr) (c : ascii) (r : pystr) :
  is_space c = true ->
  run true (lits (py "select")) b (c :: r) ends_word = None.
Proof.
  intros Hc. rewrite run_token_then_boundary by apply select_is_token.
  change (py "select") with ("s"%char :: py "elect").
  cbn [Occurrence.starts_ic].
  destruct (eqb_ic "s" c) eqn:Hs; [|reflexivity].
  apply eqb_ic_space in Hs. rewrite Hc in Hs. discriminate Hs.
Qed.

Lemma match_subquery (bef rest : pystr) :
  match_at true Validator.subquery_pattern bef rest
  = if Occurrence.subquery_at rest
    then Some (S (span is_space (tl rest)) + 6)
    else None.
Proof.
  unfold match_at, Validator.subquery_pattern. cbn [run].
  destruct rest as [|c r]; [reflexivity|].
  unfold lit_ok. rewrite eqb_ic_paren. cbn [Occurrence.subquery_at tl].
  destruct (ascii_eqb c "(") eqn:Hc; [|reflexivity]. cbn [andb].
  change (fix loop (fuel : nat) (bef0 rest0 : pystr) {struct fuel} : option cursor := _)
    with (fun fuel => (fix loop (fuel : nat) (bef0 rest0 : pystr) {struct fuel} : option cursor :=
       match fuel with
       | 0 => run true (lits (py "select")) bef0 rest0 ends_word
       | S fuel' =>
           match run true (Cls is_space) bef0 rest0
                   (fun bef' rest' =>
                      if length rest' <? length rest0
                      then loop fuel' bef' rest' else None) with
           | Some x => Some x
           | None => run true (lits (py "select")) bef0 rest0 ends_word
           end
       end) fuel).
  cbv beta.
  rewrite (star_loop_cls true is_space
             (fun b s => run true (lits (py "select")) b s ends_word)) by lia.
  rewrite star_cls_commit by (intros; apply select_not_after_space; assumption).
  rewrite run_token_then_boundary by apply select_is_token.
  destruct (_ && _) eqn:Hm; [|reflexivity].
  apply andb_true_iff in Hm as [Hs _].
  apply starts_ic_length in Hs. change (length (py "select")) with 6 in *.
  f_equal. rewrite length_skipn. cbn [length].
  pose proof (drop_while_length is_space r). lia.
Qed.

(** *** Scans whose matches cannot overlap *)

Section Scan.

Variable ic : bool.
Variable r : regex.

Hypothesis Hsep : separate ic r.

Lemma scan_counts_positions :
  forall rest bef skip,
    (forall k, k < skip -> match_at ic r (passed k bef rest) (skipn k rest) = None) ->
    length (scan ic r bef rest skip)
    = Occurrence.count_positions (matches ic r) bef rest.
Proof.
  induction rest as [|c rest IH]; intros bef skip Hskip.
  - destruct skip as [|skip]; cbn.
    + unfold matches. destruct (match_at ic r bef []) as [n|] eqn:Hm.
      * apply Hsep in Hm as [Hn _]. cbn in Hn. lia.
      * reflexivity.
    + unfold matches. pose proof (Hskip 0) as H0. rewrite passed_0 in H0.
      change (skipn 0 (@nil ascii)) with (@nil ascii) in H0.
      rewrite H0 by lia. reflexivity.
  - destruct skip as [|skip].
    + cbn [scan Occurrence.count_positions]. unfold matches at 1.
      destruct (match_at ic r bef (c :: rest)) as [n|] eqn:Hm.
      * cbn [length]. rewrite (IH (c :: bef) (n - 1)); [reflexivity|].
        intros k Hk. apply Hsep in Hm as [_ Hin].
        specialize (Hin (S k)). rewrite passed_S in Hin. apply Hin. lia.
      * rewrite (IH (c :: bef) 0); [reflexivity | intros; lia].
    + cbn [scan Occurrence.count_positions]. unfold matches at 1.
      pose proof (Hskip 0) as H0. rewrite passed_0 in H0.
      change (skipn 0 (c :: rest)) with (c :: rest) in H0.
      rewrite H0 by lia.
      rewrite (IH (c :: bef) skip); [reflexivity|].
      intros k Hk. specialize (Hskip (S k)). rewrite passed_S in Hskip.
      apply Hskip. lia.
Qed.

Lemma findall_counts_positions (s : pystr) :
  length (findall ic r s) = Occurrence.count_positions (matches ic r) [] s.
Proof. apply scan_counts_positions. intros; lia. Qed.

End Scan.

Lemma count_positions_ext (f g : pystr -> pystr -> bool) :
  (forall bef rest, f bef rest = g bef rest) ->
  forall rest bef,
    Occurrence.count_positions f bef rest = Occurrence.count_positions g bef rest.
Proof.
  intros H. induction rest as [|c rest IH]; intros bef; cbn; rewrite H;
    [reflexivity|]. rewrite IH. reflexivity.
Qed.


(** *** The matches of the source's counting patterns cannot overlap *)

Lemma forbidden_separate (tokens : list pystr) :
  tokens <> [] ->
  forallb is_token tokens = true ->
  separate true (Validator.forbidden_pattern tokens).
Proof.
  intros Hne Hall bef rest n Hm.
  rewrite match_forbidden in Hm by assumption.
  destruct (first_word _ tokens) as [w|] eqn:Hfw; [|discriminate].
  injection Hm as <-.
  apply first_word_some in Hfw as [Hin Hww].
  assert (Htok : is_token w = true).
  { rewrite forallb_forall in Hall. apply Hall. exact Hin. }
  apply is_token_spec in Htok as [Hlen Hw].
  unfold Occurrence.whole_word_at in Hww.
  apply andb_true_iff in Hww as [Hww _].
  apply andb_true_iff in Hww as [Hs _].
  split; [split; [exact Hlen | apply starts_ic_length; exact Hs]|].
  intros k Hk. rewrite match_forbidden by assumption.
  rewrite first_word_none; [reflexivity|].
  intros w' _. unfold Occurrence.whole_word_at.
  rewrite (starts_ic_word_before w rest k bef Hw Hs) by lia.
  cbn. rewrite andb_false_r. reflexivity.
Qed.

Lemma matches_forbidden (tokens : list pystr) (bef rest : pystr) :
  tokens <> [] ->
  forallb is_token tokens = true ->
  matches true (Validator.forbidden_pattern tokens) bef rest
  = Occurrence.forbidden_at tokens bef rest.
Proof.
  intros Hne Hall. unfold matches, Occurrence.forbidden_at.
  rewrite match_forbidden by assumption.
  rewrite <- first_word_existsb.
  destruct (first_word _ tokens); apply bool_decide_ext;
    split; intros [x Hx]; try discriminate Hx; eauto.
Qed.

(** The count of the source is the number of positions where a token
    stands as a whole word. *)
Lemma count_forbidden_is_count_whole_words (tokens : list pystr) (sql : pystr) :
  tokens <> [] ->
  forallb is_token tokens = true ->
  length (findall true (Validator.forbidden_pattern tokens) sql)
  = Occurrence.count_whole_words tokens sql.
Proof.
  intros Hne Hall.
  rewrite findall_counts_positions by (apply forbidden_separate; assumption).
  unfold Occurrence.count_whole_words.
  apply count_positions_ext. intros. apply matches_forbidden; assumption.
Qed.

Lemma join_pattern_is_forbidden_pattern :
  Validator.join_pattern = Validator.forbidden_pattern [py "join"].
Proof. reflexivity. Qed.

Lemma count_join_is_count_joins (sql : pystr) :
  length (findall true Validator.join_pattern sql) = Occurrence.count_joins sql.
Proof.
  rewrite join_pattern_is_forbidden_pattern.
  rewrite count_forbidden_is_count_whole_words by (discriminate || reflexivity).
  unfold Occurrence.count_whole_words, Occurrence.count_joins.
  apply count_positions_ext. intros bef rest.
  unfold Occurrence.forbidden_at. cbn [existsb]. apply orb_false_r.
Qed.

Lemma skipn_skipn_tl (k : nat) (c : ascii) (r : pystr) :
  skipn (S k) (c :: r) = skipn k r.
Proof. reflexivity. Qed.

Lemma span_skipn_space (r : pystr) (k : nat) :
  k < span is_space r ->
  exists c r', skipn k r = c :: r' /\ is_space c = true.
Proof.
  revert k. induction r as [|c r IH]; intros k Hk; cbn in Hk; [lia|].
  destruct (is_space c) eqn:Hc; [|lia].
  destruct k as [|k]; [exists c, r; auto|].
  cbn. apply IH. lia.
Qed.

Lemma skipn_span_plus (r : pystr) (k : nat) :
  skipn (span is_space r + k) r = skipn k (drop_while is_space r).
Proof.
  induction r as [|c r IH]; cbn.
  - destruct k; reflexivity.
  - destruct (is_space c); cbn; [exact IH | reflexivity].
Qed.

Lemma paren_not_space (c : ascii) : is_space c = true -> ascii_eqb c "(" = false.
Proof. all_chars c. Qed.

Lemma paren_not_word (c : ascii) : is_word c = true -> ascii_eqb c "(" = false.
Proof. all_chars c. Qed.

Lemma subquery_separate : separate true Validator.subquery_pattern.
Proof.
  intros bef rest n Hm. rewrite match_subquery in Hm.
  destruct (Occurrence.subquery_at rest) eqn:Hsq; [|discriminate].
  injection Hm as <-.
  destruct rest as [|c r]; [discriminate|]. cbn [tl].
  cbn [Occurrence.subquery_at] in Hsq.
  apply andb_true_iff in Hsq as [Hsq _].
  apply andb_true_iff in Hsq as [_ Hs].
  pose proof (starts_ic_length _ _ Hs) as Hlen.
  change (length (py "select")) with 6 in Hlen.
  pose proof (drop_while_length is_space r) as Hdl.
  split; [cbn [length]; lia|].
  intros k Hk. rewrite match_subquery.
  destruct k as [|k]; [lia|]. rewrite skipn_skipn_tl.
  assert (Hnot : match skipn k r with
                 | x :: _ => ascii_eqb x "(" = false
                 | [] => True
                 end).
  { destruct (Nat.lt_ge_cases k (span is_space r)) as [Hlt | Hge].
    - destruct (span_skipn_space r k Hlt) as (x & r' & -> & Hx).
      apply paren_not_space. exact Hx.
    - replace k with (span is_space r + (k - span is_space r)) by lia.
      rewrite skipn_span_plus.
      pose proof (starts_ic_word_after (py "select") (drop_while is_space r)
                    (k - span is_space r) eq_refl Hs) as Hwa.
      change (length (py "select")) with 6 in Hwa.
      specialize (Hwa ltac:(lia)).
      destruct (skipn _ (drop_while is_space r)) as [|x r']; [exact I|].
      apply paren_not_word. exact Hwa. }
  destruct (skipn k r) as [|x r']; [reflexivity|].
  cbn [Occurrence.subquery_at]. rewrite Hnot. reflexivity.
Qed.

Lemma count_subquery_is_count_subqueries (sql : pystr) :
  length (findall true Validator.subquery_pattern sql)
  = Occurrence.count_subqueries sql.
Proof.
  rewrite findall_counts_positions by apply subquery_separate.
  unfold Occurrence.count_subqueries. apply count_positions_ext.
  intros bef rest. unfold matches. rewrite match_subquery.
  destruct (Occurrence.subquery_at rest); apply bool_decide_eq_true_2 || apply bool_decide_eq_false_2.
  - eauto.
  - intros [x Hx]. discriminate Hx.
Qed.

End ReFacts.

(* ====================================================================== *)
(** ** Facts about trimming and code fences *)
(* ====================================================================== *)

Import ListNotations PyStr Prog.
Local Open Scope list_scope.

Module StrFacts.

Import Re ReAux CharFacts ReFacts.

Lemma pystr_eqb_eq (a b : pystr) : pystr_eqb a b = true <-> a = b.
Proof.
  revert b. induction a as [|x a IH]; intros [|y b]; cbn; try (split; congruence).
  rewrite andb_true_iff, ascii_eqb_eq, IH. split; [intros [-> ->] | intros [= -> ->]]; auto.
Qed.

Lemma startswith_spec (p s : pystr) :
  startswith p s = true <-> exists t, s = p ++ t.
Proof.
  revert s. induction p as [|x p IH]; intros s; cbn.
  - split; eauto.
  - destruct s as [|c s].
    + split; [discriminate | intros [t Ht]; discriminate Ht].
    + rewrite andb_true_iff, ascii_eqb_eq, IH. split.
      * intros [-> [t ->]]. eauto.
      * intros [t [= -> ->]]. eauto.
Qed.

Lemma startswith_app (p s t : pystr) :
  length p <= length s -> startswith p (s ++ t) = startswith p s.
Proof.
  revert s. induction p as [|x p IH]; intros s Hlen; [reflexivity|].
  destruct s as [|c s]; cbn in Hlen; [lia|].
  cbn. rewrite IH by lia. reflexivity.
Qed.

Lemma endswith_spec (p s : pystr) :
  endswith p s = true <-> exists t, s = t ++ p.
Proof.
  unfold endswith. rewrite startswith_spec. split.
  - intros [t Ht]. exists (rev t).
    rewrite <- (rev_involutive s), Ht, rev_app_distr, rev_involutive. reflexivity.
  - intros [t ->]. exists (rev t). apply rev_app_distr.
Qed.

Lemma endswith_length (p s : pystr) : endswith p s = true -> length p <= length s.
Proof.
  intros H. apply endswith_spec in H as [t ->]. rewrite length_app. lia.
Qed.

(** *** White space at the two ends *)

Lemma ends_with_space_cons (c : ascii) (s : pystr) :
  s <> [] -> ends_with_space (c :: s) = ends_with_space s.
Proof. destruct s; [contradiction | reflexivity]. Qed.

Lemma ends_with_space_tail (c : ascii) (s : pystr) :
  ends_with_space (c :: s) = false -> ends_with_space s = false.
Proof. destruct s; [reflexivity | exact id]. Qed.

Lemma ends_with_space_skipn (n : nat) (s : pystr) :
  ends_with_space s = false -> ends_with_space (skipn n s) = false.
Proof.
  revert s. induction n as [|n IH]; intros s H; [exact H|].
  destruct s as [|c s]; [reflexivity|].
  cbn. apply IH. eapply ends_with_space_tail. exact H.
Qed.

Lemma ends_with_space_drop_while (p : ascii -> bool) (s : pystr) :
  ends_with_space s = false -> ends_with_space (drop_while p s) = false.
Proof. rewrite drop_while_skipn. apply ends_with_space_skipn. Qed.


Lemma all_space_ends (s : pystr) :
  s <> [] -> forallb is_space s = true -> ends_with_space s = true.
Proof.
  induction s as [|c s IH]; intros Hne Hall; [contradiction|].
  cbn in Hall. apply andb_true_iff in Hall as [Hc Hall].
  destruct s as [|c' s]; [exact Hc|].
  rewrite ends_with_space_cons by discriminate. apply IH; [discriminate | exact Hall].
Qed.

Lemma forallb_rev (p : ascii -> bool) (s : pystr) :
  forallb p (rev s) = forallb p s.
Proof.
  induction s as [|c s IH]; [reflexivity|].
  cbn. rewrite forallb_app, IH. cbn. rewrite andb_true_r. apply andb_comm.
Qed.

(** [rstrip], which the source computes from the right end, cuts the
    string where only white space is left. *)
Lemma rstrip_is_rstrip_fwd (s : pystr) : rstrip s = rstrip_fwd s.
Proof.
  unfold rstrip. induction s as [|c s IH]; [reflexivity|].
  cbn [rev]. rewrite drop_while_app, forallb_rev.
  cbn [rstrip_fwd forallb].
  destruct (forallb is_space s) eqn:Hall.
  - cbn [drop_while]. destruct (is_space c); cbn; [reflexivity|].
    destruct s as [|c' s]; [reflexivity|].
    cbn [rstrip_fwd]. rewrite Hall. reflexivity.
  - rewrite andb_false_r, rev_app_distr. cbn. rewrite IH. reflexivity.
Qed.

Lemma rstrip_fwd_nil (s : pystr) :
  rstrip_fwd s = [] <-> forallb is_space s = true.
Proof.
  destruct s as [|c s]; cbn [rstrip_fwd]; [cbn; tauto|].
  destruct (forallb is_space (c :: s)); split; congruence.
Qed.

Lemma rstrip_fwd_no_trailing_space (s : pystr) :
  ends_with_space (rstrip_fwd s) = false.
Proof.
  induction s as [|c s IH]; [reflexivity|].
  cbn [rstrip_fwd]. destruct (forallb is_space (c :: s)) eqn:Hall; [reflexivity|].
  destruct (rstrip_fwd s) as [|c' t] eqn:Ht.
  - apply rstrip_fwd_nil in Ht. cbn in Hall. rewrite Ht, andb_true_r in Hall.
    exact Hall.
  - rewrite ends_with_space_cons by discriminate. exact IH.
Qed.

Lemma rstrip_fwd_keeps_start (s : pystr) :
  starts_with_space s = false -> starts_with_space (rstrip_fwd s) = false.
Proof.
  destruct s as [|c s]; [reflexivity|]. cbn [rstrip_fwd].
  destruct (forallb is_space (c :: s)); [reflexivity | exact id].
Qed.

Lemma rstrip_fwd_fixed (s : pystr) :
  ends_with_space s = false -> rstrip_fwd s = s.
Proof.
  induction s as [|c s IH]; intros H; [reflexivity|].
  cbn [rstrip_fwd]. destruct (forallb is_space (c :: s)) eqn:Hall.
  - rewrite all_space_ends in H by (discriminate || exact Hall). discriminate H.
  - rewrite IH; [reflexivity|]. eapply ends_with_space_tail. exact H.
Qed.

Lemma drop_while_no_leading (s : pystr) :
  starts_with_space (drop_while is_space s) = false.
Proof.
  induction s as [|c s IH]; [reflexivity|].
  cbn. destruct (is_space c) eqn:Hc; [exact IH | exact Hc].
Qed.

Lemma drop_while_fixed (s : pystr) :
  starts_with_space s = false -> drop_while is_space s = s.
Proof. destruct s as [|c s]; [reflexivity|]. cbn. intros ->. reflexivity. Qed.

(** A string is trimmed when no white space stands at either end. *)
Lemma strip_trimmed (s : pystr) :
  starts_with_space (strip s) = false /\ ends_with_space (strip s) = false.
Proof.
  unfold strip, lstrip. rewrite rstrip_is_rstrip_fwd. split.
  - apply rstrip_fwd_keeps_start, drop_while_no_leading.
  - apply rstrip_fwd_no_trailing_space.
Qed.

Lemma strip_fixed (s : pystr) :
  starts_with_space s = false -> ends_with_space s = false -> strip s = s.
Proof.
  intros Hs He. unfold strip, lstrip.
  rewrite rstrip_is_rstrip_fwd, drop_while_fixed by exact Hs.
  apply rstrip_fwd_fixed. exact He.
Qed.

Lemma strip_length (s : pystr) : length (strip s) <= length s.
Proof.
  unfold strip, lstrip, rstrip.
  pose proof (drop_while_length is_space (rev (drop_while is_space s))) as H1.
  pose proof (drop_while_length is_space s) as H2.
  rewrite length_rev in *. lia.
Qed.

(** Trimming and lowercasing commute: a character is white space exactly
    when its lowercase is. *)
Lemma drop_while_lower (s : pystr) :
  drop_while is_space (lower s) = lower (drop_while is_space s).
Proof.
  induction s as [|c s IH]; [reflexivity|].
  cbn. rewrite is_space_lower. destruct (is_space c); [exact IH | reflexivity].
Qed.

Lemma strip_lower (s : pystr) : strip (lower s) = lower (strip s).
Proof.
  unfold strip, lstrip, rstrip. rewrite drop_while_lower.
  unfold lower at 1. rewrite <- map_rev. fold (lower (rev (drop_while is_space s))).
  rewrite drop_while_lower. unfold lower. rewrite map_rev. reflexivity.
Qed.

End StrFacts.

Module FenceFacts.

Import Re ReAux CharFacts ReFacts StrFacts.

#[local] Arguments passed : simpl never.

Lemma star_cls_found (p : ascii -> bool) (bef rest : pystr) :
  star_cls p bef rest found
  = Some (passed (span p rest) bef rest, drop_while p rest).
Proof.
  revert bef. induction rest as [|c rest IH]; intros bef; cbn; [reflexivity|].
  destruct (p c); [|reflexivity].
  rewrite IH, passed_S. reflexivity.
Qed.

(** *** The opening fence *)

Lemma match_open (bef rest : pystr) :
  match_at false SQLApp.fence_open_pattern bef rest
  = match bef with
    | [] =>
        if startswith (py "```") rest
        then Some (length rest - length (strip_open rest))
        else None
    | _ :: _ => None
    end.
Proof.
  unfold match_at, SQLApp.fence_open_pattern.
  rewrite run_seq, run_bol.
  destruct bef as [|b bef]; [|reflexivity].
  rewrite run_seq, run_lits, prefix_ok_cs. unfold strip_open.
  destruct (startswith (py "```") rest); [|reflexivity].
  change (length (py "```")) with 3.
  change (fun bef' rest' : pystr => Some (bef', rest')) with found.
  rewrite run_seq, run_opt, run_lits, prefix_ok_cs.
  change (length (py "sql")) with 3.
  destruct (startswith (py "sql") (skipn 3 rest)).
  - rewrite (run_star_cls false is_space), star_cls_found. reflexivity.
  - rewrite (run_star_cls false is_space), star_cls_found. reflexivity.
Qed.

Lemma subst_open_later (rest bef : pystr) (skip : nat) :
  bef <> [] ->
  subst false SQLApp.fence_open_pattern [] bef rest skip = skipn skip rest.
Proof.
  revert bef skip. induction rest as [|c rest IH]; intros bef skip Hb.
  - destruct skip; cbn [subst]; [|reflexivity].
    rewrite match_open. destruct bef; [contradiction | reflexivity].
  - destruct skip as [|skip]; cbn [subst].
    + rewrite match_open. destruct bef; [contradiction|].
      rewrite IH by discriminate. reflexivity.
    + rewrite IH by discriminate. reflexivity.
Qed.

Lemma strip_open_suffix (s : pystr) :
  strip_open s = skipn (length s - length (strip_open s)) s.
Proof.
  unfold strip_open. destruct (startswith (py "```") s) eqn:Hf.
  - apply startswith_spec in Hf as [t ->].
    change (skipn 3 (py "```" ++ t)) with t.
    destruct (startswith (py "sql") t) eqn:Hs.
    + apply startswith_spec in Hs as [u ->].
      change (skipn 3 (py "sql" ++ u)) with u.
      pose proof (drop_while_length is_space u) as Hl.
      rewrite (drop_while_skipn is_space u) at 1.
      rewrite !length_app. change (length (py "```")) with 3.
      change (length (py "sql")) with 3.
      replace (3 + (3 + length u) - length (drop_while is_space u))
        with (6 + span is_space u) by lia.
      reflexivity.
    + pose proof (drop_while_length is_space t) as Hl.
      rewrite (drop_while_skipn is_space t) at 1.
      rewrite !length_app. change (length (py "```")) with 3.
      replace (3 + length t - length (drop_while is_space t))
        with (3 + span is_space t) by lia.
      reflexivity.
  - rewrite Nat.sub_diag. reflexivity.
Qed.

Lemma strip_open_length (s : pystr) : length (strip_open s) <= length s.
Proof.
  rewrite strip_open_suffix at 1. rewrite length_skipn. lia.
Qed.

Lemma strip_open_shrinks (s : pystr) :
  startswith (py "```") s = true -> length (strip_open s) < length s.
Proof.
  intros Hf. unfold strip_open. rewrite Hf.
  apply startswith_spec in Hf as [t ->].
  change (skipn 3 (py "```" ++ t)) with t.
  rewrite length_app. change (length (py "```")) with 3.
  destruct (startswith (py "sql") t).
  - pose proof (drop_while_length is_space (skipn 3 t)).
    pose proof (length_skipn 3 t). lia.
  - pose proof (drop_while_length is_space t). lia.
Qed.

(** [re.sub(r"^```(?:sql)?\s*", "", s)] takes the opening fence off. *)
Lemma sub_open (s : pystr) : sub false SQLApp.fence_open_pattern [] s = strip_open s.
Proof.
  unfold sub. destruct s as [|c s].
  - cbn [subst]. rewrite match_open. reflexivity.
  - cbn [subst]. rewrite match_open.
    destruct (startswith (py "```") (c :: s)) eqn:Hf.
    + pose proof (strip_open_shrinks _ Hf) as Hlt.
      rewrite subst_open_later by discriminate.
      destruct (length (c :: s) - length (strip_open (c :: s))) as [|n] eqn:Hn;
        [lia|].
      cbn [Nat.eqb app]. replace (S n - 1) with n by lia.
      rewrite (strip_open_suffix (c :: s)), Hn. reflexivity.
    + rewrite subst_open_later by discriminate.
      unfold strip_open. rewrite Hf. reflexivity.
Qed.

(** *** The closing fence *)

Lemma closes_not_after_space (b : pystr) (c : ascii) (r : pystr) :
  is_space c = true -> closes b (c :: r) = None.
Proof.
  intros Hc. unfold closes. rewrite run_lits, prefix_ok_cs.
  change (py "```") with ("`"%char :: py "``"). cbn [startswith].
  destruct (ascii_eqb "`" c) eqn:He; [|reflexivity].
  apply ascii_eqb_eq in He. subst c. discriminate Hc.
Qed.

Lemma newline_is_space (c : ascii) : ascii_eqb c "010" = true -> is_space c = true.
Proof. intros H. apply ascii_eqb_eq in H. subst c. reflexivity. Qed.

Lemma match_close (bef rest : pystr) :
  ends_with_space rest = false ->
  match_at false SQLApp.fence_close_pattern bef rest
  = if closes_here rest then Some (length rest) else None.
Proof.
  intros Hend. unfold match_at, SQLApp.fence_close_pattern. cbn [run].
  change (fix loop (fuel : nat) (bef0 rest0 : pystr) {struct fuel} : option cursor := _)
    with (fun fuel => (fix loop (fuel : nat) (bef0 rest0 : pystr) {struct fuel} : option cursor :=
       match fuel with
       | 0 => closes bef0 rest0
       | S fuel' =>
           match run false (Cls is_space) bef0 rest0
                   (fun bef' rest' =>
                      if length rest' <? length rest0
                      then loop fuel' bef' rest' else None) with
           | Some x => Some x
           | None => closes bef0 rest0
           end
       end) fuel).
  cbv beta.
  rewrite (star_loop_cls false is_space closes) by lia.
  rewrite star_cls_commit by (intros; apply closes_not_after_space; assumption).
  unfold closes. rewrite run_lits, prefix_ok_cs. unfold closes_here.
  pose proof (ends_with_space_drop_while is_space rest Hend) as Hd.
  destruct (startswith (py "```") (drop_while is_space rest)) eqn:Hf.
  - apply startswith_spec in Hf as [t Ht]. rewrite Ht in *.
    change (length (py "```")) with 3.
    change (skipn 3 (py "```" ++ t)) with t.
    destruct t as [|x [|y t]].
    + cbn [at_eol]. rewrite Nat.sub_0_r. reflexivity.
    + cbn [at_eol].
      destruct (ascii_eqb x "010") eqn:Hx.
      * apply newline_is_space in Hx. cbn in Hd. congruence.
      * reflexivity.
    + reflexivity.
  - destruct (pystr_eqb (drop_while is_space rest) (py "```")) eqn:He; [|reflexivity].
    apply pystr_eqb_eq in He. rewrite He in Hf. discriminate Hf.
Qed.

Lemma match_close_end (bef : pystr) :
  match_at false SQLApp.fence_close_pattern bef [] = None.
Proof. rewrite match_close by reflexivity. reflexivity. Qed.

Lemma subst_close_skip_all (rest bef : pystr) :
  subst false SQLApp.fence_close_pattern [] bef rest (length rest) = [].
Proof.
  revert bef. induction rest as [|c rest IH]; intros bef; cbn [length subst].
  - rewrite match_close_end. reflexivity.
  - apply IH.
Qed.

Lemma subst_close (rest bef : pystr) :
  ends_with_space rest = false ->
  subst false SQLApp.fence_close_pattern [] bef rest 0 = cut_close rest.
Proof.
  revert bef. induction rest as [|c rest IH]; intros bef Hend; cbn [subst cut_close].
  - rewrite match_close_end. reflexivity.
  - rewrite match_close by exact Hend.
    destruct (closes_here (c :: rest)).
    + cbn [length Nat.eqb app]. replace (S (length rest) - 1) with (length rest) by lia.
      apply subst_close_skip_all.
    + rewrite IH; [reflexivity|]. eapply ends_with_space_tail. exact Hend.
Qed.

(** [re.sub(r"\s*```$", "", s)] cuts the closing fence off, for a string
    that does not end with white space. *)
Lemma sub_close (s : pystr) :
  ends_with_space s = false ->
  sub false SQLApp.fence_close_pattern [] s = cut_close s.
Proof. apply subst_close. Qed.


(** *** What the direct forms keep and remove *)

Lemma closes_here_ends_with_fence (pre s : pystr) :
  closes_here s = true -> endswith (py "```") (pre ++ s) = true.
Proof.
  unfold closes_here. rewrite pystr_eqb_eq, drop_while_skipn. intros H.
  apply endswith_spec. exists (pre ++ firstn (span is_space s) s).
  rewrite <- app_assoc, <- H, firstn_skipn. reflexivity.
Qed.

Lemma cut_close_fixed_from (pre s : pystr) :
  endswith (py "```") (pre ++ s) = false -> cut_close s = s.
Proof.
  revert pre. induction s as [|c s IH]; intros pre H; [reflexivity|].
  cbn [cut_close]. destruct (closes_here (c :: s)) eqn:Hc.
  - rewrite (closes_here_ends_with_fence pre _ Hc) in H. discriminate H.
  - rewrite (IH (pre ++ [c])); [reflexivity|].
    rewrite <- app_assoc. exact H.
Qed.

Lemma cut_close_fixed (s : pystr) :
  endswith (py "```") s = false -> cut_close s = s.
Proof. apply (cut_close_fixed_from []). Qed.

Lemma cut_close_length (s : pystr) : length (cut_close s) <= length s.
Proof.
  induction s as [|c s IH]; [reflexivity|].
  cbn [cut_close]. destruct (closes_here (c :: s)); cbn; lia.
Qed.

Lemma cut_close_cuts (pre s : pystr) :
  closes_here s = true -> s <> [] -> length (cut_close (pre ++ s)) < length (pre ++ s).
Proof.
  intros Hc Hne. induction pre as [|c pre IH].
  - destruct s as [|c s]; [contradiction|].
    cbn [app cut_close]. rewrite Hc. cbn. lia.
  - cbn [app cut_close]. destruct (closes_here (c :: pre ++ s)); cbn; lia.
Qed.

Lemma cut_close_shrinks (s : pystr) :
  endswith (py "```") s = true -> length (cut_close s) < length s.
Proof.
  intros H. apply endswith_spec in H as [pre ->].
  apply cut_close_cuts; [reflexivity | discriminate].
Qed.




Lemma strip_open_fixed (s : pystr) :
  startswith (py "```") s = false -> strip_open s = s.
Proof. intros H. unfold strip_open. rewrite H. reflexivity. Qed.

Lemma strip_open_no_trailing_space (s : pystr) :
  ends_with_space s = false -> ends_with_space (strip_open s) = false.
Proof. intros H. rewrite strip_open_suffix. apply ends_with_space_skipn, H. Qed.


(** The three lines of the source, through the direct forms. *)
Lemma strip_fences_direct (raw : pystr) :
  SQLApp.strip_fences raw = cut_close (strip_open (strip raw)).
Proof.
  unfold SQLApp.strip_fences. rewrite sub_open. apply sub_close.
  apply strip_open_no_trailing_space, strip_trimmed.
Qed.


Lemma strip_fences_of_trimmed (o : pystr) :
  starts_with_space o = false -> ends_with_space o = false ->
  SQLApp.strip_fences o = cut_close (strip_open o).
Proof.
  intros Hs He. rewrite strip_fences_direct, strip_fixed by assumption.
  reflexivity.
Qed.

Lemma restrip_iff (o : pystr) :
  starts_with_space o = false -> ends_with_space o = false ->
  SQLApp.strip_fences o = o
  <-> startswith (py "```") o = false /\ endswith (py "```") o = false.
Proof.
  intros Hs He. rewrite strip_fences_of_trimmed by assumption. split.
  - intros Hfix.
    assert (Hlen : length (cut_close (strip_open o)) = length o) by (rewrite Hfix; reflexivity).
    pose proof (cut_close_length (strip_open o)) as H1.
    pose proof (strip_open_length o) as H2.
    destruct (startswith (py "```") o) eqn:Hf.
    + pose proof (strip_open_shrinks o Hf). lia.
    + split; [reflexivity|].
      rewrite strip_open_fixed in Hlen by exact Hf.
      destruct (endswith (py "```") o) eqn:Hc; [|reflexivity].
      pose proof (cut_close_shrinks o Hc). lia.
  - intros [Hf Hc]. rewrite strip_open_fixed by exact Hf.
    apply cut_close_fixed. exact Hc.
Qed.

End FenceFacts.

(* ====================================================================== *)
(** ** Facts about counting occurrences *)
(* ====================================================================== *)

Import ListNotations PyStr Prog.
Local Open Scope list_scope.

Module CountFacts.

Import Re ReAux CharFacts ReFacts Occurrence.

#[local] Arguments passed : simpl never.

(** *** Occurrences given by a decomposition of the string *)

Lemma count_positions_at_least (f : pystr -> pystr -> bool) (pre rest : pystr) :
  forall bef,
    f (rev pre ++ bef) rest = true ->
    1 <= count_positions f bef (pre ++ rest).
Proof.
  induction pre as [|c pre IH]; intros bef Hf.
  - cbn in Hf. destruct rest; cbn; rewrite Hf; lia.
  - cbn [app count_positions].
    specialize (IH (c :: bef)). cbn [rev] in Hf. rewrite <- app_assoc in Hf.
    specialize (IH Hf). lia.
Qed.

Lemma starts_ic_same_lower (w occ post : pystr) :
  lower occ = lower w -> starts_ic w (occ ++ post) = true.
Proof.
  revert occ. induction w as [|x w IH]; intros occ H.
  - reflexivity.
  - destruct occ as [|c occ]; [discriminate H|].
    cbn in H. injection H as Hc H.
    cbn. rewrite IH by exact H. rewrite andb_true_r.
    apply eqb_ic_eq. symmetry. exact Hc.
Qed.

Lemma whole_word_at_decomposition (w pre occ post : pystr) :
  lower occ = lower w ->
  word_before (rev pre) = false ->
  word_after post = false ->
  whole_word_at w (rev pre ++ []) (occ ++ post) = true.
Proof.
  intros Hl Hb Ha. unfold whole_word_at. rewrite app_nil_r.
  rewrite starts_ic_same_lower by exact Hl. rewrite Hb. cbn.
  assert (Hlen : length w = length occ).
  { apply (f_equal (@length ascii)) in Hl. unfold lower in Hl.
    rewrite !length_map in Hl. symmetry. exact Hl. }
  rewrite Hlen, skipn_app, skipn_all, Nat.sub_diag.
  change (skipn 0 post) with post. cbn [app]. rewrite Ha. reflexivity.
Qed.

(** *** Two tokens cannot stand at the same position *)

Lemma whole_word_same_token (t1 : pystr) :
  forall t2 r,
    forallb is_word t1 = true -> forallb is_word t2 = true ->
    starts_ic t1 r = true -> starts_ic t2 r = true ->
    word_after (skipn (length t1) r) = false ->
    word_after (skipn (length t2) r) = false ->
    lower t1 = lower t2.
Proof.
  induction t1 as [|x1 t1 IH]; intros t2 r W1 W2 S1 S2 A1 A2.
  - destruct t2 as [|x2 t2]; [reflexivity|].
    pose proof (starts_ic_word_after (x2 :: t2) r 0 W2 S2 ltac:(cbn; lia)) as H.
    cbn in A1, H. congruence.
  - destruct t2 as [|x2 t2].
    + pose proof (starts_ic_word_after (x1 :: t1) r 0 W1 S1 ltac:(cbn; lia)) as H.
      cbn in A2, H. congruence.
    + destruct r as [|c r]; [discriminate S1|].
      cbn in W1, W2, S1, S2, A1, A2.
      apply andb_true_iff in W1 as [_ W1]. apply andb_true_iff in W2 as [_ W2].
      apply andb_true_iff in S1 as [E1 S1]. apply andb_true_iff in S2 as [E2 S2].
      apply eqb_ic_eq in E1. apply eqb_ic_eq in E2.
      change (lower_char x1 :: lower t1 = lower_char x2 :: lower t2).
      rewrite (IH t2 r W1 W2 S1 S2 A1 A2). congruence.
Qed.

Lemma whole_word_at_unique (t1 t2 b r : pystr) :
  is_token t1 = true -> is_token t2 = true ->
  whole_word_at t1 b r = true -> whole_word_at t2 b r = true ->
  lower t1 = lower t2.
Proof.
  intros T1 T2 H1 H2.
  apply is_token_spec in T1 as [_ W1]. apply is_token_spec in T2 as [_ W2].
  unfold whole_word_at in H1, H2.
  apply andb_true_iff in H1 as [H1 A1]. apply andb_true_iff in H1 as [S1 _].
  apply andb_true_iff in H2 as [H2 A2]. apply andb_true_iff in H2 as [S2 _].
  apply negb_true_iff in A1. apply negb_true_iff in A2.
  eapply whole_word_same_token; eassumption.
Qed.

(** With tokens that differ in lowercase, a position holds at most one
    of them: counting positions and counting occurrences agree. *)
Lemma forbidden_at_sum (tokens : list pystr) (b r : pystr) :
  forallb is_token tokens = true ->
  NoDup (map lower tokens) ->
  (if forbidden_at tokens b r then 1 else 0)
  = list_sum (map (fun w => if whole_word_at w b r then 1 else 0) tokens).
Proof.
  unfold forbidden_at.
  induction tokens as [|t ts IH]; intros Hall Hnd; [reflexivity|].
  cbn in Hall. apply andb_true_iff in Hall as [Ht Hall].
  cbn [map] in Hnd. apply NoDup_cons in Hnd as [Hnin Hnd].
  specialize (IH Hall Hnd).
  change (existsb (fun w => whole_word_at w b r) (t :: ts))
    with (whole_word_at t b r || existsb (fun w => whole_word_at w b r) ts).
  change (list_sum (map (fun w => if whole_word_at w b r then 1 else 0) (t :: ts)))
    with ((if whole_word_at t b r then 1 else 0)
          + list_sum (map (fun w => if whole_word_at w b r then 1 else 0) ts)).
  destruct (whole_word_at t b r) eqn:Hw; cbn [orb]; [|exact IH].
  assert (Hnone : existsb (fun w => whole_word_at w b r) ts = false).
  { destruct (existsb _ ts) eqn:He; [|reflexivity].
    apply existsb_exists in He as (t' & Hin & Hw').
    exfalso. apply Hnin. apply list_elem_of_In.
    assert (Ht' : is_token t' = true)
      by (rewrite forallb_forall in Hall; apply Hall; exact Hin).
    rewrite (whole_word_at_unique t t' b r Ht Ht' Hw Hw').
    apply in_map. exact Hin. }
  rewrite Hnone in IH. rewrite <- IH. reflexivity.
Qed.

Lemma list_sum_map_add {A : Type} (f g : A -> nat) (l : list A) :
  list_sum (map (fun x => f x + g x) l) = list_sum (map f l) + list_sum (map g l).
Proof.
  induction l as [|x l IH]; [reflexivity|].
  change (f x + g x + list_sum (map (fun x => f x + g x) l)
          = f x + list_sum (map f l) + (g x + list_sum (map g l))).
  rewrite IH. lia.
Qed.

Lemma count_positions_is_occurrences (tokens : list pystr) :
  forallb is_token tokens = true ->
  NoDup (map lower tokens) ->
  forall r b,
    count_positions (forbidden_at tokens) b r
    = list_sum (map (fun w => count_positions (whole_word_at w) b r) tokens).
Proof.
  intros Hall Hnd. induction r as [|c r IH]; intros b.
  - cbn [count_positions]. rewrite Nat.add_0_r, forbidden_at_sum by assumption.
    f_equal. apply map_ext. intros w. lia.
  - cbn [count_positions]. rewrite IH, forbidden_at_sum by assumption.
    rewrite <- list_sum_map_add. reflexivity.
Qed.

Lemma count_whole_words_is_occurrences (tokens : list pystr) (s : pystr) :
  forallb is_token tokens = true ->
  NoDup (map lower tokens) ->
  count_whole_words tokens s = count_occurrences tokens s.
Proof. intros. apply count_positions_is_occurrences; assumption. Qed.

(** *** Positions of a string that is followed by more text *)

Lemma count_positions_app (f : pystr -> pystr -> bool) (y : pystr) :
  (forall b, f b [] = false) ->
  forall x bef,
    (forall x1 c x2, x = x1 ++ c :: x2 ->
        f (rev x1 ++ bef) (c :: x2 ++ y) = f (rev x1 ++ bef) (c :: x2)) ->
    count_positions f bef (x ++ y)
    = count_positions f bef x + count_positions f (rev x ++ bef) y.
Proof.
  intros Hnil. induction x as [|c x IH]; intros bef Hloc.
  - cbn. rewrite Hnil. reflexivity.
  - cbn [app count_positions rev].
    rewrite (Hloc [] c x eq_refl : f bef (c :: x ++ y) = f bef (c :: x)).
    rewrite (IH (c :: bef)).
    + rewrite <- app_assoc. cbn [app]. lia.
    + intros x1 c' x2 ->.
      specialize (Hloc (c :: x1) c' x2 eq_refl). cbn [rev] in Hloc.
      rewrite <- app_assoc in Hloc. exact Hloc.
Qed.

(** A whole word seen through the end of a string: text that starts with
    no word character changes nothing. *)
Lemma token_local (w s y : pystr) :
  forallb is_word w = true ->
  word_after y = false ->
  starts_ic w (s ++ y) && negb (word_after (skipn (length w) (s ++ y)))
  = starts_ic w s && negb (word_after (skipn (length w) s)).
Proof.
  revert s. induction w as [|x w IH]; intros s Hw Hy.
  - destruct s; cbn [starts_ic length skipn app andb];
      [change (skipn 0 y) with y; rewrite Hy|]; reflexivity.
  - cbn in Hw. apply andb_true_iff in Hw as [Hx Hw].
    destruct s as [|c s].
    + cbn. destruct y as [|c y]; [reflexivity|].
      cbn in Hy. destruct (eqb_ic x c) eqn:Hc; [|reflexivity].
      apply eqb_ic_word in Hc. congruence.
    + cbn. rewrite <- !andb_assoc. f_equal. apply IH; assumption.
Qed.

Lemma whole_word_local (w b s y : pystr) :
  forallb is_word w = true ->
  word_after y = false ->
  whole_word_at w b (s ++ y) = whole_word_at w b s.
Proof.
  intros Hw Hy. unfold whole_word_at.
  destruct (word_before b); cbn [negb].
  - rewrite !andb_false_r. reflexivity.
  - rewrite !andb_true_r. apply token_local; assumption.
Qed.

Lemma whole_word_nil (w b : pystr) : is_token w = true -> whole_word_at w b [] = false.
Proof.
  intros Hw. apply is_token_spec in Hw as [Hlen _].
  destruct w; [cbn in Hlen; lia | reflexivity].
Qed.

(** A whole word looks at what precedes it only through [word_before]. *)
Lemma count_whole_word_bef (w : pystr) (rest b1 b2 : pystr) :
  word_before b1 = word_before b2 ->
  count_positions (whole_word_at w) b1 rest
  = count_positions (whole_word_at w) b2 rest.
Proof.
  revert b1 b2. induction rest as [|c rest IH]; intros b1 b2 Hb; cbn.
  - unfold whole_word_at. rewrite Hb. reflexivity.
  - unfold whole_word_at at 1 3. rewrite Hb.
    rewrite (IH (c :: b1) (c :: b2)) by reflexivity. reflexivity.
Qed.

Lemma count_whole_word_not_at_start (w : pystr) (rest b1 b2 : pystr) :
  forallb is_word w = true -> 0 < length w ->
  word_after rest = false ->
  count_positions (whole_word_at w) b1 rest
  = count_positions (whole_word_at w) b2 rest.
Proof.
  intros Hw Hlen Ha.
  assert (H0 : forall b, whole_word_at w b rest = false).
  { intros b. unfold whole_word_at.
    destruct (starts_ic w rest) eqn:Hs; [|reflexivity].
    pose proof (starts_ic_word_after w rest 0 Hw Hs Hlen) as Hwa.
    change (word_after rest = true) in Hwa. congruence. }
  destruct rest as [|c rest]; cbn; rewrite !H0; [reflexivity|].
  rewrite (count_whole_word_bef w rest (c :: b1) (c :: b2)) by reflexivity.
  reflexivity.
Qed.

Lemma count_subquery_bef (rest b1 b2 : pystr) :
  count_positions (fun _ r => subquery_at r) b1 rest
  = count_positions (fun _ r => subquery_at r) b2 rest.
Proof.
  revert b1 b2. induction rest as [|c rest IH]; intros b1 b2; cbn; [reflexivity|].
  rewrite (IH (c :: b1) (c :: b2)). reflexivity.
Qed.


Lemma subquery_local (c : ascii) (x2 y : pystr) :
  word_after y = false ->
  starts_ic (py "select") (drop_while is_space y) = false ->
  subquery_at (c :: x2 ++ y) = subquery_at (c :: x2).
Proof.
  intros Hy Hsel. cbn [subquery_at]. rewrite drop_while_app.
  destruct (forallb is_space x2) eqn:Hall.
  - rewrite (drop_while_all _ _ Hall), Hsel. cbn.
    rewrite !andb_false_r. reflexivity.
  - rewrite <- !andb_assoc. f_equal.
    apply (token_local (py "select")); [reflexivity | exact Hy].
Qed.

(** *** One more JOIN clause *)

Section JoinClause.

Variables (sep k0 k1 k2 k3 : ascii) (tail : pystr).

Hypothesis Hsep : is_word sep = false.
Hypothesis H0 : lower_char k0 = "j"%char.
Hypothesis H1 : lower_char k1 = "o"%char.
Hypothesis H2 : lower_char k2 = "i"%char.
Hypothesis H3 : lower_char k3 = "n"%char.
Hypothesis Htail : word_after tail = false.

Let clause : pystr := sep :: k0 :: k1 :: k2 :: k3 :: tail.

Lemma kw_word (k x : ascii) : lower_char k = x -> is_word x = true -> is_word k = true.
Proof. intros <- H. rewrite is_word_lower in H. exact H. Qed.

Lemma kw_not_space (k x : ascii) :
  lower_char k = x -> is_space x = false -> is_space k = false.
Proof. intros <- H. rewrite is_space_lower in H. exact H. Qed.

Lemma clause_word_after : word_after clause = false.
Proof using Hsep. exact Hsep. Qed.

Lemma not_letter_sep (x : ascii) : is_word x = true -> eqb_ic x sep = false.
Proof using Hsep.
  intros Hx. destruct (eqb_ic x sep) eqn:He; [|reflexivity].
  apply eqb_ic_word in He. congruence.
Qed.

Lemma clause_no_select : starts_ic (py "select") (drop_while is_space clause) = false.
Proof using Hsep H0.
  unfold clause. cbn [drop_while].
  destruct (is_space sep).
  - rewrite (kw_not_space k0 "j" H0 eq_refl).
    change (py "select") with ("s"%char :: py "elect"). cbn [starts_ic].
    unfold eqb_ic. rewrite H0. reflexivity.
  - change (py "select") with ("s"%char :: py "elect"). cbn [starts_ic].
    rewrite not_letter_sep by reflexivity. reflexivity.
Qed.

Lemma joins_of_clause (b : pystr) :
  count_positions (whole_word_at (py "join")) b clause
  = 1 + count_positions (whole_word_at (py "join")) [] tail.
Proof using Hsep H0 H1 H2 H3 Htail.
  unfold clause. cbn [count_positions].
  rewrite (count_whole_word_not_at_start (py "join") tail _ [])
    by (reflexivity || (cbn; lia) || exact Htail).
  assert (W0 : is_word k0 = true) by (apply (kw_word _ _ H0); reflexivity).
  assert (W1 : is_word k1 = true) by (apply (kw_word _ _ H1); reflexivity).
  assert (W2 : is_word k2 = true) by (apply (kw_word _ _ H2); reflexivity).
  assert (A : whole_word_at (py "join") b (sep :: k0 :: k1 :: k2 :: k3 :: tail) = false).
  { unfold whole_word_at. change (py "join") with ("j"%char :: py "oin").
    cbn [starts_ic]. rewrite not_letter_sep by reflexivity. reflexivity. }
  assert (B : whole_word_at (py "join") (sep :: b) (k0 :: k1 :: k2 :: k3 :: tail) = true).
  { unfold whole_word_at. change (py "join") with ["j"; "o"; "i"; "n"]%char.
    cbn [starts_ic length word_before].
    change (skipn 4 (k0 :: k1 :: k2 :: k3 :: tail)) with tail.
    unfold eqb_ic.
    rewrite H0, H1, H2, H3, Hsep, Htail. reflexivity. }
  assert (C : forall k b' r, is_word k = true ->
                whole_word_at (py "join") (k :: b') r = false).
  { intros k b' r Hk. unfold whole_word_at. cbn [word_before]. rewrite Hk.
    cbn. rewrite andb_false_r. reflexivity. }
  rewrite A, B, !C by assumption. lia.
Qed.

Lemma subqueries_of_clause (b : pystr) :
  count_positions (fun _ r => subquery_at r) b clause
  = count_positions (fun _ r => subquery_at r) [] tail.
Proof using Hsep H0 H1 H2 H3.
  unfold clause. cbn [count_positions].
  rewrite (count_subquery_bef tail _ []).
  assert (A : subquery_at (sep :: k0 :: k1 :: k2 :: k3 :: tail) = false).
  { cbn [subquery_at drop_while].
    rewrite (kw_not_space k0 "j" H0 eq_refl).
    change (py "select") with ("s"%char :: py "elect"). cbn [starts_ic].
    unfold eqb_ic. rewrite H0. cbn. rewrite andb_false_r. reflexivity. }
  assert (C : forall k r, is_word k = true -> subquery_at (k :: r) = false).
  { intros k r Hk. cbn [subquery_at]. rewrite (paren_not_word _ Hk). reflexivity. }
  rewrite A.
  rewrite !C by (eapply kw_word; [eassumption | reflexivity]).
  reflexivity.
Qed.

Lemma joins_with_clause (sql : pystr) :
  count_joins (sql ++ clause) = count_joins sql + 1 + count_joins tail.
Proof using Hsep H0 H1 H2 H3 Htail.
  unfold count_joins.
  rewrite count_positions_app.
  - rewrite joins_of_clause. lia.
  - intros b. apply whole_word_nil. reflexivity.
  - intros x1 c x2 _.
    apply (whole_word_local (py "join") _ (c :: x2) clause);
      [reflexivity | apply clause_word_after].
Qed.

Lemma subqueries_with_clause (sql : pystr) :
  count_subqueries (sql ++ clause) = count_subqueries sql + count_subqueries tail.
Proof using Hsep H0 H1 H2 H3.
  unfold count_subqueries.
  rewrite count_positions_app.
  - rewrite subqueries_of_clause. reflexivity.
  - reflexivity.
  - intros x1 c x2 _.
    apply subquery_local; [apply clause_word_after | apply clause_no_select].
Qed.

End JoinClause.

(** The score of the source is the number of whole-word joins plus the
    number of subquery openings. *)
Lemma complexity_is_count (sql : pystr) :
  Validator.compute_complexity sql = count_joins sql + count_subqueries sql.
Proof.
  unfold Validator.compute_complexity.
  rewrite count_join_is_count_joins, count_subquery_is_count_subqueries.
  reflexivity.
Qed.

Lemma lower_join (kw : pystr) :
  lower kw = py "join" ->
  exists k0 k1 k2 k3,
    kw = [k0; k1; k2; k3]
    /\ lower_char k0 = "j"%char /\ lower_char k1 = "o"%char
    /\ lower_char k2 = "i"%char /\ lower_char k3 = "n"%char.
Proof.
  destruct kw as [|k0 [|k1 [|k2 [|k3 [|k4 kw]]]]]; try discriminate.
  intros H. injection H as ? ? ? ?. exists k0, k1, k2, k3. auto.
Qed.

(** The word JOIN adds one to the score, and what follows it adds its
    own score. *)
Lemma complexity_with_join_clause (sql : pystr) (sep : ascii) (kw tail : pystr) :
  is_word sep = false ->
  lower kw = py "join" ->
  word_after tail = false ->
  Validator.compute_complexity (sql ++ sep :: kw ++ tail)
  = Validator.compute_complexity sql + 1 + Validator.compute_complexity tail.
Proof.
  intros Hsep Hkw Htail.
  destruct (lower_join kw Hkw) as (k0 & k1 & k2 & k3 & -> & H0 & H1 & H2 & H3).
  rewrite !complexity_is_count.
  cbn [app].
  rewrite (joins_with_clause sep k0 k1 k2 k3 tail) by assumption.
  rewrite (subqueries_with_clause sep k0 k1 k2 k3 tail) by assumption.
  lia.
Qed.

End CountFacts.

(* ====================================================================== *)
(** ** Facts about the sequence matcher *)
(* ====================================================================== *)

Import ListNotations PyStr Prog.
Local Open Scope list_scope.
Local Open Scope nat_scope.

Module DifflibFacts.

Import Difflib DifflibAux.

Lemma matched_app (l1 l2 : list block) : matched (l1 ++ l2) = matched l1 + matched l2.
Proof. unfold matched. rewrite map_app, list_sum_app. reflexivity. Qed.

Lemma matched_cons (x : block) (l : list block) :
  matched (x :: l) = size x + matched l.
Proof. reflexivity. Qed.

Lemma matched_nil : matched [] = 0.
Proof. reflexivity. Qed.

(** *** Sorting and merging keep the number of matched elements *)

Lemma matched_insert (x : block) (l : list block) :
  matched (insert_block x l) = size x + matched l.
Proof.
  induction l as [|y l IH]; [reflexivity|].
  cbn [insert_block]. destruct (block_leb x y); [reflexivity|].
  rewrite !matched_cons, IH. lia.
Qed.

Lemma matched_sort (l : list block) : matched (sort_blocks l) = matched l.
Proof.
  induction l as [|x l IH]; [reflexivity|].
  cbn [sort_blocks foldr]. fold (sort_blocks l).
  rewrite matched_insert, matched_cons, IH. reflexivity.
Qed.

Lemma matched_collapse (l : list block) :
  forall cur, matched (collapse cur l) = size cur + matched l.
Proof.
  induction l as [|[[i2 j2] k2] l IH]; intros [[i1 j1] k1].
  - cbn [collapse]. destruct (Nat.eqb_spec k1 0) as [-> |]; reflexivity || (cbn; lia).
  - cbn [collapse].
    destruct ((i1 + k1 =? i2) && (j1 + k1 =? j2)).
    + rewrite IH, matched_cons. unfold size. cbn. lia.
    + rewrite matched_app, IH, matched_cons.
      destruct (Nat.eqb_spec k1 0) as [-> |]; unfold size; cbn; lia.
Qed.

(** *** The block of [find_longest_match] lies in its window *)

Section Bounds.

Variables a b : pystr.
Variables alo ahi blo bhi : nat.

Lemma j2lenget_bound (i j : nat) (j2len : gmap nat nat) :
  row_ok alo blo bhi i j2len -> blo <= j ->
  j2lenget j2len j + alo <= i \/ j2lenget j2len j = 0.
Proof.
  intros Hrow Hj. destruct j as [|j]; [right; reflexivity|].
  cbn [j2lenget]. destruct (j2len !! j) as [k|] eqn:Hk; [|right; reflexivity].
  left. cbn. apply Hrow in Hk. lia.
Qed.

Lemma j2lenget_bound_b (i j : nat) (j2len : gmap nat nat) :
  row_ok alo blo bhi i j2len -> blo <= j ->
  blo + j2lenget j2len j <= j.
Proof.
  intros Hrow Hj. destruct j as [|j]; [cbn; lia|].
  cbn [j2lenget]. destruct (j2len !! j) as [k|] eqn:Hk; [|cbn; lia].
  cbn. apply Hrow in Hk. lia.
Qed.

Lemma inner_bounds (i : nat) (js : list nat) (j2len : gmap nat nat) :
  alo <= i -> i < ahi ->
  row_ok alo blo bhi i j2len ->
  forall newj2len best,
    row_ok alo blo bhi (S i) newj2len ->
    within alo (S i) blo bhi best ->
    let st := inner i blo bhi js j2len newj2len best in
    row_ok alo blo bhi (S i) st.1 /\ within alo (S i) blo bhi st.2.
Proof.
  intros Hlo Hhi Hrow. induction js as [|j js IH]; intros newj2len best Hnew Hbest.
  - cbn. auto.
  - cbn [inner]. destruct (Nat.ltb_spec j blo) as [Hjb | Hjb]; [apply IH; assumption|].
    destruct (Nat.leb_spec bhi j) as [Hjh | Hjh]; [cbn; auto|].
    pose proof (j2lenget_bound i j j2len Hrow Hjb) as Ha.
    pose proof (j2lenget_bound_b i j j2len Hrow Hjb) as Hb.
    apply IH.
    + intros j' k'. destruct (decide (j' = j)) as [-> | Hne].
      * rewrite lookup_insert_eq. intros [= <-]. lia.
      * rewrite lookup_insert_ne by congruence. apply Hnew.
    + destruct (size best <? j2lenget j2len j + 1); [|exact Hbest].
      unfold within. cbn. lia.
Qed.

Lemma outer_bounds (n : nat) :
  forall i st,
    alo <= i -> i + n <= ahi ->
    row_ok alo blo bhi i st.1 ->
    within alo i blo bhi st.2 ->
    let st' := foldl (outer_step a b blo bhi) st (seq i n) in
    row_ok alo blo bhi (i + n) st'.1 /\ within alo (i + n) blo bhi st'.2.
Proof.
  induction n as [|n IH]; intros i st Hlo Hhi Hrow Hbest.
  - cbn. rewrite Nat.add_0_r. auto.
  - cbn [seq foldl].
    destruct (inner_bounds i
                (match a !! i with Some x => default [] (b2j b !! x) | None => [] end)
                st.1 Hlo ltac:(lia) Hrow ∅ st.2) as [Hrow' Hbest'].
    + intros j k Hk. rewrite lookup_empty in Hk. discriminate Hk.
    + unfold within in *. lia.
    + replace (i + S n) with (S i + n) by lia.
      apply IH; [lia | lia | exact Hrow' | exact Hbest'].
Qed.

Lemma extend_back_within (junk : bool) :
  forall besti bestj bestsize,
    within alo ahi blo bhi (besti, bestj, bestsize) ->
    within alo ahi blo bhi (extend_back a b junk alo blo besti bestj bestsize).
Proof.
  induction besti as [|i IH]; intros bestj bestsize Hw; [exact Hw|].
  cbn [extend_back]. destruct bestj as [|j]; [exact Hw|].
  destruct (_ && _) eqn:Hc; [|exact Hw].
  apply IH. repeat (apply andb_true_iff in Hc as [Hc ?]).
  apply Nat.ltb_lt in Hc. apply Nat.ltb_lt in H1.
  unfold within in *. cbn in *. lia.
Qed.

Lemma extend_fwd_within (junk : bool) (fuel : nat) :
  forall besti bestj bestsize,
    within alo ahi blo bhi (besti, bestj, bestsize) ->
    within alo ahi blo bhi (extend_fwd a b junk ahi bhi fuel besti bestj bestsize).
Proof.
  induction fuel as [|fuel IH]; intros besti bestj bestsize Hw; [exact Hw|].
  cbn [extend_fwd]. destruct (_ && _) eqn:Hc; [|exact Hw].
  apply IH. repeat (apply andb_true_iff in Hc as [Hc ?]).
  apply Nat.ltb_lt in Hc. apply Nat.ltb_lt in H1.
  unfold within in *. cbn in *. lia.
Qed.

Lemma find_longest_match_within :
  alo <= ahi -> blo <= bhi ->
  within alo ahi blo bhi (find_longest_match a b alo ahi blo bhi).
Proof.
  intros Ha Hb. unfold find_longest_match, fwd, back.
  destruct (outer_bounds (ahi - alo) alo (∅, (alo, blo, 0))) as [_ Hbest].
  - lia.
  - lia.
  - intros j k Hk. cbn in Hk. rewrite lookup_empty in Hk. discriminate Hk.
  - unfold within. cbn. lia.
  - replace (alo + (ahi - alo)) with ahi in Hbest by lia.
    set (st := foldl _ _ _) in *.
    destruct st.2 as [[i0 j0] k0] eqn:E0. cbn [fst snd].
    pose proof (extend_back_within false i0 j0 k0 Hbest) as H1.
    destruct (extend_back a b false alo blo i0 j0 k0) as [[i1 j1] k1]. cbn [fst snd].
    pose proof (extend_fwd_within false (ahi - (i1 + k1)) i1 j1 k1 H1) as H2.
    destruct (extend_fwd a b false ahi bhi _ i1 j1 k1) as [[i2 j2] k2]. cbn [fst snd].
    pose proof (extend_back_within true i2 j2 k2 H2) as H3.
    destruct (extend_back a b true alo blo i2 j2 k2) as [[i3 j3] k3]. cbn [fst snd].
    apply extend_fwd_within. exact H3.
Qed.

End Bounds.

(** *** The loop of [get_matching_blocks] ends, and matches no element twice *)

Section Loop.

Variables a b : pystr.

Lemma total_cons (f : window -> nat) (w : window) (queue : list window) :
  total f (w :: queue) = f w + total f queue.
Proof. reflexivity. Qed.

Lemma total_nil (f : window -> nat) : total f [] = 0.
Proof. reflexivity. Qed.

Lemma weight_at (alo ahi blo bhi : nat) : weight (alo, ahi, blo, bhi) = 2 * (ahi - alo) + 1.
Proof. reflexivity. Qed.

Lemma room_a_at (alo ahi blo bhi : nat) : room_a (alo, ahi, blo, bhi) = ahi - alo.
Proof. reflexivity. Qed.

Lemma room_b_at (alo ahi blo bhi : nat) : room_b (alo, ahi, blo, bhi) = bhi - blo.
Proof. reflexivity. Qed.

Lemma window_ok_at (alo ahi blo bhi : nat) :
  window_ok (alo, ahi, blo, bhi) <-> alo <= ahi /\ blo <= bhi.
Proof. reflexivity. Qed.

Lemma blocks_loop_total (fuel : nat) :
  forall queue acc,
    Forall window_ok queue ->
    total weight queue <= fuel ->
    exists blocks,
      blocks_loop a b fuel queue acc = Some blocks
      /\ matched blocks <= matched acc + total room_a queue
      /\ matched blocks <= matched acc + total room_b queue.
Proof.
  induction fuel as [|fuel IH]; intros queue acc Hok Hfuel.
  - destruct queue as [|[[[alo ahi] blo] bhi] queue].
    + exists acc. split; [reflexivity|]. unfold total. cbn [map list_sum]. lia.
    + rewrite total_cons, weight_at in Hfuel. lia.
  - destruct queue as [|[[[alo ahi] blo] bhi] queue].
    + exists acc. split; [reflexivity|]. unfold total. cbn [map list_sum]. lia.
    + cbn [blocks_loop].
      inversion Hok as [|w q Hw Hq]; subst.
      destruct Hw as [Ha Hb]. cbn [fst snd] in Ha, Hb.
      pose proof (find_longest_match_within a b alo ahi blo bhi Ha Hb) as Hin.
      destruct (find_longest_match a b alo ahi blo bhi) as [[i j] k].
      unfold within in Hin. cbn [fst snd] in Hin.
      rewrite !total_cons, weight_at in *. rewrite room_a_at, room_b_at.
      destruct (Nat.eqb_spec k 0) as [-> | Hk].
      * destruct (IH queue acc Hq ltac:(lia)) as (blocks & Hrun & H1 & H2).
        exists blocks. split; [exact Hrun | lia].
      * destruct (Nat.ltb_spec alo i) as [Hai | Hai];
          destruct (Nat.ltb_spec blo j) as [Hbj | Hbj];
          destruct (Nat.ltb_spec (i + k) ahi) as [Hia | Hia];
          destruct (Nat.ltb_spec (j + k) bhi) as [Hjb | Hjb];
          cbn [andb];
          match goal with
          | |- exists blocks, blocks_loop a b fuel ?q ?acc' = _ /\ _ =>
              destruct (IH q acc') as (blocks & Hrun & H1 & H2);
                [ repeat (constructor; [unfold window_ok; cbn [fst snd]; lia|]); exact Hq
                | rewrite ?total_cons, ?weight_at; lia
                | exists blocks; split; [exact Hrun|];
                  rewrite matched_app, matched_cons, matched_nil in H1, H2;
                  rewrite ?total_cons, ?room_a_at in H1;
                  rewrite ?total_cons, ?room_b_at in H2;
                  unfold size in H1, H2; cbn [fst snd] in H1, H2; lia ]
          end.
Qed.

(** [get_matching_blocks] returns, and its blocks match at most as many
    elements as either string has. *)
Lemma get_matching_blocks_total :
  exists blocks,
    get_matching_blocks a b = Some blocks
    /\ matched blocks <= length a
    /\ matched blocks <= length b.
Proof.
  unfold get_matching_blocks.
  destruct (blocks_loop_total (2 * length a + 1) [(0, length a, 0, length b)] [])
    as (blocks & Hrun & H1 & H2).
  - constructor; [unfold window_ok; cbn; lia | constructor].
  - rewrite total_cons, weight_at, total_nil. lia.
  - rewrite Hrun. eexists. split; [reflexivity|].
    rewrite matched_app, matched_collapse, matched_sort.
    change (matched [(length a, length b, 0)]) with 0.
    change (size (0, 0, 0)) with 0.
    change (matched []) with 0 in H1, H2.
    rewrite total_cons, room_a_at, total_nil in H1.
    rewrite total_cons, room_b_at, total_nil in H2.
    lia.
Qed.

End Loop.

Lemma calculate_ratio_range (m len : nat) :
  2 * m <= len -> (0 <= calculate_ratio m len /\ calculate_ratio m len <= 1)%Q.
Proof.
  intros H. unfold calculate_ratio. destruct (Nat.eqb_spec len 0) as [-> | Hlen].
  - split; [apply Qle_bool_imp_le | apply Qle_refl]; reflexivity.
  - unfold Qle. cbn [Qnum Qden]. split; [lia|].
    rewrite Z.mul_1_r, Z.mul_1_l.
    replace (Z.pos (Pos.of_nat len)) with (Z.of_nat len) by
      (destruct len; [congruence | rewrite <- Pos.of_nat_succ; lia]).
    lia.
Qed.

Lemma calculate_ratio_full (n : nat) : (calculate_ratio n (n + n) == 1)%Q.
Proof.
  unfold calculate_ratio. destruct (Nat.eqb_spec (n + n) 0) as [_ | Hlen].
  - reflexivity.
  - unfold Qeq. cbn [Qnum Qden]. rewrite Z.mul_1_r, Z.mul_1_l.
    replace (Z.pos (Pos.of_nat (n + n))) with (Z.of_nat (n + n)) by
      (destruct (n + n); [congruence | rewrite <- Pos.of_nat_succ; lia]).
    lia.
Qed.

(** The ratio is defined for every pair of strings, and lies in [0, 1]. *)
Lemma ratio_range (a b : pystr) :
  exists q, ratio a b = Some q /\ (0 <= q /\ q <= 1)%Q.
Proof.
  unfold ratio.
  destruct (get_matching_blocks_total a b) as (blocks & -> & Ha & Hb).
  eexists. split; [reflexivity|].
  apply calculate_ratio_range. fold (matched blocks). lia.
Qed.

(** *** [b2j] holds the indices of the elements that are not popular *)

Lemma chain_lookup (s : pystr) :
  forall (m : gmap ascii (list nat)) (i : nat) (x : ascii),
    default [] (chain m i s !! x) = default [] (m !! x) ++ positions x i s.
Proof.
  induction s as [|c s IH]; intros m i x.
  - cbn. rewrite app_nil_r. reflexivity.
  - cbn [chain positions]. rewrite IH. unfold chain_step.
    destruct (ascii_eqb c x) eqn:Hc.
    + apply Ascii.eqb_eq in Hc. subst c.
      rewrite lookup_insert_eq. simpl. rewrite <- app_assoc. reflexivity.
    + assert (c <> x) by (intros ->; rewrite Ascii.eqb_refl in Hc; discriminate).
      rewrite lookup_insert_ne by assumption. reflexivity.
Qed.

Lemma b2j_lookup (s : pystr) (x : ascii) :
  default [] (b2j s !! x) = if kept s x then positions x 0 s else [].
Proof.
  unfold b2j, kept. rewrite lookup_omap.
  pose proof (chain_lookup s ∅ 0 x) as Hc.
  rewrite lookup_empty in Hc. simpl in Hc.
  destruct (chain ∅ 0 s !! x) as [idxs|]; cbn in Hc |- *; subst.
  - destruct (is_popular s (positions x 0 s)); reflexivity.
  - rewrite <- Hc. destruct (negb _); reflexivity.
Qed.

Lemma positions_spec (x : ascii) (s : pystr) :
  forall i j, In j (positions x i s) <-> exists k, j = i + k /\ s !! k = Some x.
Proof.
  induction s as [|c s IH]; intros i j.
  - cbn. split; [tauto | intros (k & _ & Hk); discriminate Hk].
  - cbn [positions]. rewrite in_app_iff, IH. split.
    + intros [Hin | (k & -> & Hk)].
      * destruct (ascii_eqb c x) eqn:Hc; [|destruct Hin].
        apply Ascii.eqb_eq in Hc. destruct Hin as [<- | []].
        exists 0. split; [lia | cbn; congruence].
      * exists (S k). split; [lia | exact Hk].
    + intros (k & -> & Hk). destruct k as [|k].
      * left. cbn in Hk. injection Hk as ->. rewrite Ascii.eqb_refl.
        left. lia.
      * right. exists k. split; [lia | exact Hk].
Qed.

Lemma positions_sorted (x : ascii) (s : pystr) :
  forall i, StronglySorted lt (positions x i s).
Proof.
  induction s as [|c s IH]; intros i; [constructor|].
  cbn [positions]. destruct (ascii_eqb c x); cbn [app]; [|apply IH].
  constructor; [apply IH|].
  apply Forall_forall. intros j Hj. apply list_elem_of_In in Hj.
  apply positions_spec in Hj as (k & -> & _). lia.
Qed.

(** *** A string compared with itself *)

Section Same.

Variable s : pystr.

Lemma cell_sym (i j : nat) : cell s i j = cell s j i.
Proof.
  unfold cell, ascii_eqb.
  destruct (s !! i) as [x|], (s !! j) as [y|]; try reflexivity.
  destruct (Ascii.eqb x y) eqn:Hxy.
  - apply Ascii.eqb_eq in Hxy. subst y. rewrite Ascii.eqb_refl. reflexivity.
  - rewrite Ascii.eqb_sym, Hxy. reflexivity.
Qed.

Lemma cell_diag (i j : nat) : cell s i j = true -> cell s i i = true.
Proof.
  unfold cell. destruct (s !! i) as [x|]; [|discriminate].
  destruct (s !! j) as [y|]; [|discriminate].
  rewrite Ascii.eqb_refl. intros H. apply andb_true_iff in H as [_ H]. exact H.
Qed.

Lemma run_len_unfold (i j : nat) :
  run_len s i j = if cell s i j then S (run_before s i j) else 0.
Proof. destruct i; reflexivity. Qed.

Lemma run_len_sym : forall i j, run_len s i j = run_len s j i.
Proof.
  induction i as [|i IH]; intros j.
  - rewrite !run_len_unfold, cell_sym. destruct j; reflexivity.
  - rewrite !run_len_unfold, cell_sym. destruct j as [|j]; [reflexivity|].
    cbn [run_before]. rewrite IH. reflexivity.
Qed.

Lemma run_len_diag : forall i j, run_len s i j <= run_len s i i.
Proof.
  induction i as [|i IH]; intros j.
  - rewrite !run_len_unfold. destruct (cell s 0 j) eqn:Hc; [|lia].
    rewrite (cell_diag _ _ Hc). destruct j; cbn; lia.
  - rewrite !run_len_unfold. destruct (cell s (S i) j) eqn:Hc; [|lia].
    rewrite (cell_diag _ _ Hc). destruct j as [|j]; cbn [run_before]; [lia|].
    specialize (IH j). lia.
Qed.

Lemma same_elt_diag (i : nat) : i < length s -> same_elt s s i i = true.
Proof.
  intros Hi. unfold same_elt.
  destruct (s !! i) as [x|] eqn:E; [apply Ascii.eqb_refl|].
  apply lookup_ge_None in E. lia.
Qed.

(** The indices the inner loop goes through in row [i]. *)
Lemma row_indices (i : nat) (x : ascii) :
  s !! i = Some x ->
  let js := default [] (b2j s !! x) in
  StronglySorted lt js
  /\ (forall j, In j js <-> cell s i j = true).
Proof.
  intros Hx. cbn zeta. rewrite b2j_lookup. split.
  - destruct (kept s x); [apply positions_sorted | constructor].
  - intros j. unfold cell. rewrite Hx.
    destruct (kept s x) eqn:Hk.
    + rewrite positions_spec. split.
      * intros (k & -> & Hk'). cbn. rewrite Hk'. rewrite Ascii.eqb_refl. reflexivity.
      * destruct (s !! j) as [y|] eqn:Hy; [|discriminate].
        rewrite andb_true_r. intros Hxy. apply Ascii.eqb_eq in Hxy. subst y.
        exists j. split; [lia | exact Hy].
    + cbn. split; [tauto|]. destruct (s !! j); [|discriminate].
      rewrite andb_false_r. discriminate.
Qed.

Lemma cell_in_range (i j : nat) : cell s i j = true -> j < length s.
Proof.
  unfold cell. destruct (s !! i); [|discriminate].
  destruct (s !! j) eqn:Hj; [|discriminate].
  intros _. apply lookup_lt_Some in Hj. exact Hj.
Qed.

Lemma inner_same (i : nat) (j2len : gmap nat nat) :
  (forall j, j2lenget j2len j = run_before s i j) ->
  forall rem (newj2len : gmap nat nat) (best : block),
    StronglySorted lt rem ->
    (forall j, In j rem -> cell s i j = true) ->
    best.1.1 = best.1.2 ->
    (forall i' j', i' < i -> run_len s i' j' <= size best) ->
    (forall j', ~ In j' rem -> run_len s i j' <= size best) ->
    (forall j', ~ In j' rem ->
       newj2len !! j' = if cell s i j' then Some (run_len s i j') else None) ->
    let st := inner i 0 (length s) rem j2len newj2len best in
    (forall j', st.1 !! j' = if cell s i j' then Some (run_len s i j') else None)
    /\ st.2.1.1 = st.2.1.2
    /\ (forall i' j', i' < S i -> run_len s i' j' <= size st.2).
Proof.
  intros Hrow. induction rem as [|j rem IH];
    intros newj2len best Hsorted Hcell Hdiag Hrows Hdone Hnew.
  - cbn [inner fst snd]. split; [|split].
    + intros j'. apply Hnew. intros [].
    + exact Hdiag.
    + intros i' j' Hi'. destruct (decide (i' = i)) as [-> | Hne].
      * apply Hdone. intros [].
      * apply Hrows. lia.
  - cbn [inner]. change (j <? 0) with false. cbv iota.
    assert (Hcj : cell s i j = true) by (apply Hcell; left; reflexivity).
    pose proof (cell_in_range i j Hcj) as Hjn.
    destruct (Nat.leb_spec (length s) j) as [Hge | _]; [lia|].
    assert (Hk : j2lenget j2len j + 1 = run_len s i j).
    { rewrite Hrow, run_len_unfold, Hcj. lia. }
    rewrite Hk.
    inversion Hsorted as [|j0 rem0 Hsorted' Hall]; subst.
    assert (Hlt : forall j', In j' rem -> j < j').
    { intros j' Hin. rewrite Forall_forall in Hall. apply Hall.
      apply list_elem_of_In. exact Hin. }
    apply IH.
    + exact Hsorted'.
    + intros j' Hin. apply Hcell. right. exact Hin.
    + destruct (Nat.ltb_spec (size best) (run_len s i j)) as [Hbig | _]; [|exact Hdiag].
      cbn [fst snd].
      assert (j = i); [|subst; reflexivity].
      destruct (Nat.lt_trichotomy j i) as [Hji | [Heq | Hij]]; [|exact Heq|].
      * pose proof (Hrows j i Hji) as H1. rewrite run_len_sym in H1. lia.
      * assert (Hni : ~ In i (j :: rem)).
        { intros [-> | Hin]; [lia|]. apply Hlt in Hin. lia. }
        pose proof (Hdone i Hni) as H1. pose proof (run_len_diag i j). lia.
    + intros i' j' Hi'. pose proof (Hrows i' j' Hi').
      destruct (Nat.ltb_spec (size best) (run_len s i j)); [unfold size in *; cbn; lia | lia].
    + intros j' Hnin. destruct (decide (j' = j)) as [-> | Hne].
      * destruct (Nat.ltb_spec (size best) (run_len s i j)); [unfold size; cbn; lia | lia].
      * assert (Hnin' : ~ In j' (j :: rem)) by (intros [-> | H]; [congruence | tauto]).
        pose proof (Hdone j' Hnin').
        destruct (Nat.ltb_spec (size best) (run_len s i j)); [unfold size in *; cbn; lia | lia].
    + intros j' Hnin. destruct (decide (j' = j)) as [-> | Hne].
      * rewrite lookup_insert_eq, Hcj. reflexivity.
      * rewrite lookup_insert_ne by congruence. apply Hnew.
        intros [-> | H]; [congruence | tauto].
Qed.

Lemma outer_same (i : nat) (st : gmap nat nat * block) :
  i < length s ->
  rows_done s i st ->
  rows_done s (S i) (outer_step s s 0 (length s) st i).
Proof.
  intros Hi (Hrow & Hdiag & Hrows). unfold outer_step.
  destruct (s !! i) as [x|] eqn:Hx; [|apply lookup_ge_None in Hx; lia].
  destruct (row_indices i x Hx) as [Hsorted Hin].
  destruct (inner_same i st.1 Hrow (default [] (b2j s !! x)) ∅ st.2)
    as (Hnew & Hdiag' & Hrows').
  - exact Hsorted.
  - intros j Hj. apply Hin. exact Hj.
  - exact Hdiag.
  - exact Hrows.
  - intros j' Hnin. rewrite run_len_unfold.
    destruct (cell s i j') eqn:Hc; [|lia]. apply Hin in Hc. contradiction.
  - intros j' Hnin. rewrite lookup_empty.
    destruct (cell s i j') eqn:Hc; [|reflexivity]. apply Hin in Hc. contradiction.
  - split; [|split; assumption].
    intros j. destruct j as [|j]; [reflexivity|].
    cbn [j2lenget run_before]. rewrite Hnew, run_len_unfold.
    destruct (cell s i j); reflexivity.
Qed.

Lemma rows_same (n : nat) :
  forall i st,
    i + n <= length s ->
    rows_done s i st ->
    rows_done s (i + n) (foldl (outer_step s s 0 (length s)) st (seq i n)).
Proof.
  induction n as [|n IH]; intros i st Hn Hst.
  - cbn. rewrite Nat.add_0_r. exact Hst.
  - cbn [seq foldl]. replace (i + S n) with (S i + n) by lia.
    apply IH; [lia|]. apply outer_same; [lia | exact Hst].
Qed.

Lemma extend_back_diag (p : nat) :
  forall k, p <= length s -> extend_back s s false 0 0 p p k = (0, 0, k + p).
Proof.
  induction p as [|p IH]; intros k Hp.
  - cbn. rewrite Nat.add_0_r. reflexivity.
  - cbn [extend_back]. rewrite same_elt_diag by lia.
    destruct (s !! p) as [x|] eqn:E; [|apply lookup_ge_None in E; lia].
    cbn. rewrite IH by lia. f_equal. lia.
Qed.

Lemma extend_fwd_diag (fuel : nat) :
  forall k, k + fuel = length s ->
    extend_fwd s s false (length s) (length s) fuel 0 0 k = (0, 0, length s).
Proof.
  induction fuel as [|fuel IH]; intros k Hk.
  - cbn. f_equal. lia.
  - cbn [extend_fwd]. cbn [Nat.add].
    destruct (Nat.ltb_spec k (length s)) as [Hlt | Hge]; [|lia].
    rewrite same_elt_diag by lia.
    destruct (s !! k) as [x|] eqn:E; [|apply lookup_ge_None in E; lia].
    cbn. apply IH. lia.
Qed.

(** The longest match of a string with itself is the whole string. *)
Lemma find_longest_match_same :
  find_longest_match s s 0 (length s) 0 (length s) = (0, 0, length s).
Proof.
  pose proof (find_longest_match_within s s 0 (length s) 0 (length s)
                ltac:(lia) ltac:(lia)) as _.
  unfold find_longest_match, fwd, back.
  destruct (outer_bounds s s 0 (length s) 0 (length s) (length s - 0) 0
              (∅, (0, 0, 0))) as [_ Hin].
  { lia. } { lia. }
  { intros j k Hk. cbn in Hk. rewrite lookup_empty in Hk. discriminate Hk. }
  { unfold within. cbn. lia. }
  destruct (rows_same (length s - 0) 0 (∅, (0, 0, 0))) as (_ & Hdiag & _).
  { lia. }
  { split; [|split].
    - intros j. destruct j; reflexivity.
    - reflexivity.
    - intros i' j' Hi'. lia. }
  set (st := foldl _ _ _) in *.
  destruct st.2 as [[p p'] k]. cbn [fst snd] in *. subst p'.
  unfold within in Hin. cbn [fst snd] in Hin.
  rewrite extend_back_diag by lia. cbn [fst snd].
  rewrite extend_fwd_diag by lia. cbn [fst snd extend_back].
  replace (length s - (0 + length s)) with 0 by lia.
  reflexivity.
Qed.

Lemma get_matching_blocks_same :
  exists blocks,
    get_matching_blocks s s = Some blocks /\ matched blocks = length s.
Proof.
  unfold get_matching_blocks.
  replace (2 * length s + 1) with (S (2 * length s)) by lia.
  cbn [blocks_loop]. rewrite find_longest_match_same.
  destruct (Nat.eqb_spec (length s) 0) as [H0 | H0].
  - destruct (2 * length s); eexists; (split; [reflexivity|]); cbn; lia.
  - rewrite Nat.ltb_irrefl. cbn [andb].
    replace (0 + length s <? length s) with false
      by (symmetry; apply Nat.ltb_ge; lia).
    cbn [andb].
    destruct (2 * length s); eexists; (split; [reflexivity|]);
      rewrite matched_app, matched_collapse, matched_sort;
      cbn; lia.
Qed.

Lemma ratio_same : exists q, ratio s s = Some q /\ (q == 1)%Q.
Proof.
  unfold ratio. destruct get_matching_blocks_same as (blocks & -> & Hm).
  eexists. split; [reflexivity|].
  fold (matched blocks). rewrite Hm. apply calculate_ratio_full.
Qed.

End Same.

End DifflibFacts.

(* ====================================================================== *)
(** ** Facts about the orchestrator and the executor *)
(* ====================================================================== *)

Import ListNotations PyStr Prog.
Local Open Scope list_scope.

Module AppFacts.

Import SQLApp Trace.

#[local] Arguments py : simpl never.
#[local] Arguments startswith : simpl never.
#[local] Arguments pystr_eqb : simpl never.
#[local] Arguments strip : simpl never.
#[local] Arguments lower : simpl never.
#[local] Arguments strip_fences : simpl never.
#[local] Arguments metrics_text : simpl never.
#[local] Arguments Pandas.head : simpl never.

(** Destructs the next answer of the environment. *)
Ltac env_step h :=
  match goal with
  | |- context [h ?R ?ev ?s] =>
      let r := fresh "r" in
      let s1 := fresh "s" in
      let E := fresh "Hstep" in
      destruct (h R ev s) as [r s1] eqn:E; cbn
  end.

Ltac answer_step h :=
  env_step h;
  try match goal with
    | r : (exn + _)%type |- _ => destruct r as [? | ?]; cbn
    end.

Ltac branch_step :=
  match goal with
  | |- context [if negb (pystr_eqb ?a ?b) then _ else _] =>
      let E := fresh "Hvalid" in destruct (pystr_eqb a b) eqn:E; cbn
  | |- context [if startswith ?a ?b then _ else _] =>
      let E := fresh "Hgate" in destruct (startswith a b) eqn:E; cbn
  | |- context [if is_Exception ?e then _ else _] =>
      let E := fresh "Hcatch" in destruct (is_Exception e) eqn:E; cbn
  end.

Ltac run_cases h :=
  unfold run, timed_execute; cbn;
  repeat first [ branch_step | answer_step h ].

Ltac leaf_facts :=
  repeat match goal with
    | H : _ \/ _ |- _ => destruct H as [H | H]
    | H : False |- _ => destruct H
    end;
  simplify_eq.

Lemma interp_vis {E : Type -> Type} {St A R : Type} (h : env E St)
    (ev : E R) (k : R -> Prog E A) (s : St) :
  interp h (Vis ev k) s =
  (let '(r, s1) := h _ ev s in
   let '(o, s2, tr) := interp h (k r) s1 in (o, s2, Obs ev r :: tr)).
Proof. reflexivity. Qed.

Section Frames.

Import StrFacts.
Context {C : Type}.

Lemma add_column_In (cols : list pystr) (k x : pystr) :
  In x (Pandas.add_column cols k) <-> In x cols \/ x = k.
Proof.
  unfold Pandas.add_column.
  destruct (existsb (pystr_eqb k) cols) eqn:E.
  - apply existsb_exists in E as (y & Hy & Heq). apply pystr_eqb_eq in Heq. subst y.
    split; [auto|]. intros [H | ->]; assumption.
  - rewrite in_app_iff. cbn. split; intros [H | H]; auto.
    destruct H as [<- | []]. auto.
Qed.

Lemma add_column_NoDup (cols : list pystr) (k : pystr) :
  List.NoDup cols -> List.NoDup (Pandas.add_column cols k).
Proof.
  intros Hnd. unfold Pandas.add_column.
  destruct (existsb (pystr_eqb k) cols) eqn:E; [exact Hnd|].
  apply List.NoDup_app; [exact Hnd | constructor; [intros [] | constructor] |].
  intros x Hx [Hk | []]. subst x.
  assert (Ht : existsb (pystr_eqb k) cols = true).
  { apply existsb_exists. exists k. split; [exact Hx | apply pystr_eqb_eq; reflexivity]. }
  congruence.
Qed.

Lemma add_columns_In (ks cols : list pystr) (x : pystr) :
  In x (foldl Pandas.add_column cols ks) <-> In x cols \/ In x ks.
Proof.
  revert cols. induction ks as [|k ks IH]; intros cols; cbn [foldl].
  - cbn. tauto.
  - rewrite IH, add_column_In. cbn. intuition auto.
Qed.

Lemma add_columns_NoDup (ks cols : list pystr) :
  List.NoDup cols -> List.NoDup (foldl Pandas.add_column cols ks).
Proof.
  revert cols. induction ks as [|k ks IH]; intros cols Hnd; cbn [foldl];
    [exact Hnd|].
  apply IH, add_column_NoDup, Hnd.
Qed.

Lemma columns_from_In (rs : list (Pandas.record C)) (cols : list pystr) (x : pystr) :
  In x (foldl (fun cols r => foldl Pandas.add_column cols (map fst r)) cols rs)
  <-> In x cols \/ exists r, In r rs /\ In x (map fst r).
Proof.
  revert cols. induction rs as [|r rs IH]; intros cols; cbn [foldl].
  - split; [auto|]. intros [H | (r & [] & _)]. exact H.
  - rewrite IH, add_columns_In. split.
    + intros [[H | H] | (r' & Hr & Hx)]; [auto | right; exists r; cbn; auto |].
      right. exists r'. cbn. auto.
    + intros [H | (r' & [<- | Hr] & Hx)]; [auto | auto |].
      right. exists r'. auto.
Qed.

Lemma columns_from_NoDup (rs : list (Pandas.record C)) (cols : list pystr) :
  List.NoDup cols ->
  List.NoDup (foldl (fun cols r => foldl Pandas.add_column cols (map fst r)) cols rs).
Proof.
  revert cols. induction rs as [|r rs IH]; intros cols Hnd; cbn [foldl];
    [exact Hnd|].
  apply IH, add_columns_NoDup, Hnd.
Qed.

(** [pd.DataFrame(rows)]: one row of the frame per fetched row, and the
    columns are the distinct keys of the rows. *)
Lemma of_records_shape (rows : list (Pandas.record C)) :
  Pandas.records (Pandas.of_records rows) = rows
  /\ List.NoDup (Pandas.columns (Pandas.of_records rows))
  /\ (forall k, In k (Pandas.columns (Pandas.of_records rows))
                <-> exists r, In r rows /\ In k (map fst r)).
Proof.
  split; [reflexivity|]. split.
  - apply columns_from_NoDup. constructor.
  - intros k. unfold Pandas.of_records. cbn [Pandas.columns].
    rewrite columns_from_In. cbn. tauto.
Qed.

End Frames.

Section Run.

Context {P : Platform}.
Context {St : Type}.
Variable h : env AppE St.

Lemma rejects_invalid_intent
    (self : SQLApp.t) (s : St) (query_input : option pystr)
    (out : outcome (pystr * pystr * pystr)) (s' : St) (tr : list (obs AppE))
    (q resp : pystr) :
  interp h (run self query_input) s = (out, s', tr) ->
  In (q, inr resp) (intent_calls tr) ->
  pystr_eqb (strip (lower resp)) (py "valid") = false ->
  out = Returned (py "Invalid query", [], [])
  /\ gen_calls tr = [] /\ ddl_calls tr = [] /\ verify_calls tr = []
  /\ exec_calls tr = []
  /\ (forall self' : SQLApp.t,
        interp h (run self' query_input) s = (out, s', tr)).
Proof.
  destruct query_input as [[|c q0]|]; run_cases h.
  all: intros [= <- <- <-]; cbn; intros Hin Hnv.
  all: try (exfalso; tauto).
  all: leaf_facts.
  all: try congruence.
  all: repeat split; try reflexivity.
  all: intros self'; run_cases h; try congruence.
Qed.

Lemma ddl_gate_blocks_on_prefix
    (self : SQLApp.t) (s : St) (query_input : option pystr)
    (out : outcome (pystr * pystr * pystr)) (s' : St) (tr : list (obs AppE))
    (sql resp : pystr) :
  interp h (run self query_input) s = (out, s', tr) ->
  In (sql, inr resp) (ddl_calls tr) ->
  (startswith (py "error") (lower resp) = true <-> exec_calls tr = [])
  /\ (startswith (py "error") (lower resp) = true ->
      out = Returned (py "DDL operations not allowed.", [], [])
      /\ verify_calls tr = [])
  /\ (startswith (py "error") (lower resp) = false ->
      exists r rest, exec_calls tr = (sql, r) :: rest).
Proof.
  destruct query_input as [[|c q0]|]; run_cases h.
  all: intros [= <- <- <-]; cbn; intros Hin.
  all: try (exfalso; tauto).
  all: leaf_facts.
  all: repeat split; intros; try congruence; try reflexivity; eauto.
Qed.

End Run.

Section Linked.

Context {P : Platform}.
Context {S1 S2 : Type}.
Variable outer : env AppE S1.
Variable db : env DatabaseHandler.DbE S2.
Variable db_handler : DatabaseHandler.t.

(** A run that never calls [execute_sql_query] leaves the MySQL connector
    alone: its state and the log of its calls are unchanged. *)
Lemma linked_no_exec_no_db {A : Type} (p : Prog AppE A) :
  forall s1 s2 log out s1' s2' log' tr,
    interp (linked_env outer db db_handler) p (s1, s2, log)
    = (out, (s1', s2', log'), tr) ->
    exec_calls tr = [] ->
    s2' = s2 /\ log' = log.
Proof.
  induction p as [x | e | R ev k IH]; intros s1 s2 log out s1' s2' log' tr.
  - cbn. intros; simplify_eq. auto.
  - cbn. intros; simplify_eq. auto.
  - rewrite interp_vis.
    destruct (linked_env outer db db_handler R ev (s1, s2, log)) as [r [[t1 t2] tlog]] eqn:Hev.
    destruct (interp (linked_env outer db db_handler) (k r) (t1, t2, tlog))
      as [[o [[u1 u2] ulog]] tr0] eqn:Hk.
    intros Heq Hex. simplify_eq.
    assert (Hsame : t2 = s2 /\ tlog = log /\ exec_call (Obs ev r) = None).
    { destruct ev; cbn in Hev, Hex |- *;
        try (destruct (outer _ _ s1) as [r0 s1x]; simplify_eq; auto).
      discriminate Hex. }
    destruct Hsame as (-> & -> & Hnone).
    eapply IH; eauto.
    unfold exec_calls in Hex |- *.
    change (omap exec_call (Obs ev r :: tr0))
      with (match exec_call (Obs ev r) with
            | Some y => y :: omap exec_call tr0
            | None => omap exec_call tr0
            end) in Hex.
    rewrite Hnone in Hex. exact Hex.
Qed.

End Linked.

Section Executor.

Context {P : Platform}.
Context {S2 : Type}.
Variable db : env DatabaseHandler.DbE S2.

Import DatabaseHandler.

(** A failed connection leaves the handler without one. *)
Lemma init_without_connection (s s1 : S2) (e : exn) :
  db _ Connect s = (inl e, s1) ->
  is_mysql_Error e = true ->
  interp db init s
  = (Returned {| conn := None |}, (db _ (LogError e) s1).2,
     [Obs Connect (inl e); Obs (LogError e) (db _ (LogError e) s1).1]).
Proof.
  intros H1 H2. unfold init. cbn. rewrite H1. cbn. rewrite H2. cbn.
  destruct (db unit (LogError e) s1) as [u s2]. reflexivity.
Qed.

Lemma execute_without_connection (s : S2) (sql : pystr) :
  interp db (execute_sql_query {| conn := None |} sql) s
  = (Returned Pandas.empty, s, []).
Proof. reflexivity. Qed.

Lemma execute_rejected_statement (s s1 s2 : S2) (c : connection) (cur : cursor)
    (sql : pystr) (e : exn) :
  db _ (Cursor c) s = (inr cur, s1) ->
  db _ (Execute cur sql) s1 = (inl e, s2) ->
  interp db (execute_sql_query {| conn := Some c |} sql) s
  = (Raised e, s2, [Obs (Cursor c) (inr cur); Obs (Execute cur sql) (inl e)]).
Proof.
  intros H1 H2. unfold execute_sql_query. cbn. rewrite H1. cbn. rewrite H2.
  reflexivity.
Qed.

Lemma execute_returns_only_after_fetch (s s' : S2) (c : connection)
    (sql : pystr) (df : Pandas.DataFrame cell) (tr : list (obs DbE)) :
  interp db (execute_sql_query {| conn := Some c |} sql) s = (Returned df, s', tr) ->
  exists cur rows,
    tr = [Obs (Cursor c) (inr cur); Obs (Execute cur sql) (inr tt);
          Obs (Fetchall cur) (inr rows); Obs (Close cur) (inr tt)]
    /\ df = Pandas.of_records rows.
Proof.
  unfold execute_sql_query. cbn.
  repeat (answer_step db).
  all: intros Heq; simplify_eq.
  repeat match goal with u : unit |- _ => destruct u end.
  eauto.
Qed.

End Executor.

End AppFacts.

(* ====================================================================== *)
(** ** The validator and the fence stripping: main theorems *)
(* ====================================================================== *)

Import ListNotations PyStr Prog.
Local Open Scope list_scope.
Local Open Scope nat_scope.

Module PureClaims.

Import Re ReAux CharFacts ReFacts StrFacts FenceFacts CountFacts DifflibFacts.

Lemma default_tokens_are_tokens : forallb is_token default_forbidden_tokens = true.
Proof. reflexivity. Qed.

Lemma default_tokens_lower (tok : pystr) :
  In tok default_forbidden_tokens -> lower tok = tok.
Proof.
  intros H. repeat (destruct H as [<- | H]; [reflexivity|]). destruct H.
Qed.

Lemma default_tokens_differ : NoDup (map lower default_forbidden_tokens).
Proof. apply (bool_decide_unpack _). vm_compute. exact I. Qed.

(** C6.  [count_forbidden_tokens] with the configured tokens (insert,
    update, delete, drop, create, alter) returns the number of whole-word
    occurrences of those tokens, in any letter case: the sum, over the
    tokens, of the positions where the token stands with no word character
    right before it and none right after it (which is also the number of
    positions where some token stands so).  Hence for a string
    [pre ++ occ ++ post], where [occ] is a token in any letter case, [pre]
    does not end with a word character and [post] does not start with
    one, the count is at least 1. *)
Theorem count_forbidden_tokens_counts_whole_words (sql : pystr) :
  Validator.count_forbidden_tokens default_forbidden_tokens sql
  = Occurrence.count_occurrences default_forbidden_tokens sql
  /\ Validator.count_forbidden_tokens default_forbidden_tokens sql
     = Occurrence.count_whole_words default_forbidden_tokens sql
  /\ (forall pre occ post tok,
        sql = pre ++ occ ++ post ->
        In tok default_forbidden_tokens ->
        lower occ = tok ->
        word_before (rev pre) = false ->
        word_after post = false ->
        1 <= Validator.count_forbidden_tokens default_forbidden_tokens sql).
Proof.
  assert (Heq : Validator.count_forbidden_tokens default_forbidden_tokens sql
                = Occurrence.count_whole_words default_forbidden_tokens sql).
  { apply count_forbidden_is_count_whole_words;
      [discriminate | apply default_tokens_are_tokens]. }
  split; [|split; [exact Heq|]].
  { rewrite Heq. apply count_whole_words_is_occurrences;
      [apply default_tokens_are_tokens | apply default_tokens_differ]. }
  intros pre occ post tok -> Hin Hlow Hb Ha. rewrite Heq.
  unfold Occurrence.count_whole_words.
  apply count_positions_at_least.
  unfold Occurrence.forbidden_at. apply existsb_exists. exists tok.
  split; [exact Hin|].
  apply whole_word_at_decomposition; [|exact Hb | exact Ha].
  rewrite (default_tokens_lower tok Hin). exact Hlow.
Qed.

Lemma count_forbidden_tokens_counts_whole_words_witness :
  Validator.count_forbidden_tokens default_forbidden_tokens
    (py "SELECT 1; DeLeTe FROM orders") = 1
  /\ 1 <= Validator.count_forbidden_tokens default_forbidden_tokens
            (py "SELECT 1; DeLeTe FROM orders").
Proof.
  split; [vm_compute; reflexivity|].
  apply (proj2 (proj2 (count_forbidden_tokens_counts_whole_words
                  (py "SELECT 1; DeLeTe FROM orders")))
           (py "SELECT 1; ") (py "DeLeTe") (py " FROM orders") (py "delete")).
  - reflexivity.
  - vm_compute. tauto.
  - reflexivity.
  - reflexivity.
  - reflexivity.
Defined.

(** C7 (as stated, refuted).  Appending one JOIN clause does not always
    add exactly 1: a clause that joins a subquery holds one whole-word
    JOIN and raises the score from 0 to 2. *)
Lemma join_clause_with_subquery_adds_two :
  Validator.compute_complexity (py "SELECT * FROM orders o") = 0
  /\ Occurrence.count_joins
       (py " JOIN (SELECT id FROM customers) c ON o.cid = c.id") = 1
  /\ Validator.compute_complexity
       (py "SELECT * FROM orders o"
        ++ py " JOIN (SELECT id FROM customers) c ON o.cid = c.id") = 2
  /\ Validator.compute_complexity
       (py "SELECT * FROM orders o"
        ++ py " JOIN (SELECT id FROM customers) c ON o.cid = c.id")
     <> Validator.compute_complexity (py "SELECT * FROM orders o") + 1.
Proof.
  split; [vm_compute; reflexivity|].
  split; [vm_compute; reflexivity|].
  split; [vm_compute; reflexivity|].
  vm_compute. discriminate.
Qed.

(** C7 (amended).  [compute_complexity] returns the number of whole-word
    occurrences of [join] plus the number of subquery openings (an opening
    parenthesis, optional white space, the word [select]), letter case
    ignored; so it returns 0 for a string that has neither.  Appending a
    JOIN clause to any string (a character that is not a word character,
    the word JOIN in any letter case, and a rest that does not start with
    a word character) adds exactly 1 for the word JOIN, plus the score of
    the rest taken alone; the score rises by exactly 1 if and only if the
    rest holds no further join and opens no subquery. *)
Theorem compute_complexity_counts_joins_and_subqueries (sql : pystr) :
  Validator.compute_complexity sql
  = Occurrence.count_joins sql + Occurrence.count_subqueries sql
  /\ (Occurrence.count_joins sql = 0 ->
      Occurrence.count_subqueries sql = 0 ->
      Validator.compute_complexity sql = 0)
  /\ (forall (sep : ascii) (kw tail : pystr),
        is_word sep = false ->
        lower kw = py "join" ->
        word_after tail = false ->
        Validator.compute_complexity (sql ++ sep :: kw ++ tail)
        = Validator.compute_complexity sql + 1 + Validator.compute_complexity tail)
  /\ (forall (sep : ascii) (kw tail : pystr),
        is_word sep = false ->
        lower kw = py "join" ->
        word_after tail = false ->
        (Validator.compute_complexity (sql ++ sep :: kw ++ tail)
         = Validator.compute_complexity sql + 1
         <-> Occurrence.count_joins tail = 0
             /\ Occurrence.count_subqueries tail = 0)).
Proof.
  split; [apply complexity_is_count|]. split; [|split].
  - intros Hj Hs. rewrite complexity_is_count. lia.
  - intros sep kw tail. apply complexity_with_join_clause.
  - intros sep kw tail Hsep Hkw Htail.
    rewrite complexity_with_join_clause by assumption.
    rewrite (complexity_is_count tail). lia.
Qed.

Lemma compute_complexity_counts_joins_and_subqueries_witness :
  Validator.compute_complexity (py "SELECT name FROM suppliers") = 0
  /\ Validator.compute_complexity
       (py "SELECT * FROM orders o" ++ py " Join customers c ON o.customer_id = c.customer_id")
     = Validator.compute_complexity (py "SELECT * FROM orders o") + 1.
Proof.
  split.
  - apply (proj1 (proj2 (compute_complexity_counts_joins_and_subqueries
                           (py "SELECT name FROM suppliers"))));
      vm_compute; reflexivity.
  - apply (proj2 (proj2 (proj2 (compute_complexity_counts_joins_and_subqueries
                           (py "SELECT * FROM orders o"))))
             " "%char (py "Join") (py " customers c ON o.customer_id = c.customer_id"));
      try (vm_compute; reflexivity).
    split; vm_compute; reflexivity.
Defined.

(** C8 (as stated, refuted).  The similarity is not symmetric: "tide"
    against "diet" gives 2/8, "diet" against "tide" gives 4/8. *)
Lemma compute_similarity_is_not_symmetric :
  Validator.compute_similarity (py "tide") (py "diet") = Some (2 # 8)%Q
  /\ Validator.compute_similarity (py "diet") (py "tide") = Some (4 # 8)%Q
  /\ ~ (2 # 8 == 4 # 8)%Q.
Proof.
  split; [vm_compute; reflexivity|].
  split; [vm_compute; reflexivity|].
  unfold Qeq. cbn. lia.
Qed.

(** C8 (amended).  [compute_similarity] returns for every pair of strings,
    the value lies in [0, 1], and for every string [s] the similarity of
    [s] with itself is 1. *)
Theorem compute_similarity_reflexive_and_bounded (a b : pystr) :
  (exists q, Validator.compute_similarity a a = Some q /\ (q == 1)%Q)
  /\ (exists q, Validator.compute_similarity a b = Some q
                /\ (0 <= q)%Q /\ (q <= 1)%Q).
Proof.
  split; [apply ratio_same | apply ratio_range].
Qed.




End PureClaims.

(* ====================================================================== *)
(** ** The orchestrator and the executor: main theorems *)
(* ====================================================================== *)

Import ListNotations PyStr Prog.
Local Open Scope list_scope.

Module Claims.

Import SQLApp Trace AppFacts.

#[local] Arguments py : simpl never.
#[local] Arguments startswith : simpl never.
#[local] Arguments pystr_eqb : simpl never.
#[local] Arguments strip : simpl never.
#[local] Arguments lower : simpl never.
#[local] Arguments strip_fences : simpl never.
#[local] Arguments metrics_text : simpl never.
#[local] Arguments Pandas.head : simpl never.

(** C2.  If the answer of the intent check, trimmed and lowercased, is not
    exactly "valid", [run] returns ("Invalid query", "", "") right after
    that call.  No SQL is generated, the DDL gate and the regeneration are
    not called, [execute_sql_query] is not called, and the validator and the
    configuration have no part in the run (any other [self] gives the same
    run).  In the linked system the MySQL connector is not contacted: its
    state and the log of its calls are unchanged. *)
Theorem invalid_intent_is_rejected {P : Platform} {S1 S2 : Type}
    (outer : env AppE S1) (db : env DatabaseHandler.DbE S2)
    (db_handler : DatabaseHandler.t)
    (self : SQLApp.t) (query_input : option pystr)
    (s1 : S1) (s2 : S2) (log : list (obs DatabaseHandler.DbE))
    (out : outcome (pystr * pystr * pystr))
    (s1' : S1) (s2' : S2) (log' : list (obs DatabaseHandler.DbE))
    (tr : list (obs AppE)) (q resp : pystr) :
  interp (linked_env outer db db_handler) (run self query_input) (s1, s2, log)
  = (out, (s1', s2', log'), tr) ->
  In (q, inr resp) (intent_calls tr) ->
  pystr_eqb (lower (strip resp)) (py "valid") = false ->
  out = Returned (py "Invalid query", [], [])
  /\ gen_calls tr = [] /\ ddl_calls tr = [] /\ verify_calls tr = []
  /\ exec_calls tr = []
  /\ s2' = s2 /\ log' = log
  /\ (forall self' : SQLApp.t,
        interp (linked_env outer db db_handler) (run self' query_input) (s1, s2, log)
        = (out, (s1', s2', log'), tr)).
Proof.
  intros Hrun Hin Hnv. rewrite <- StrFacts.strip_lower in Hnv.
  destruct (rejects_invalid_intent _ _ _ _ _ _ _ _ _ Hrun Hin Hnv)
    as (Hout & Hg & Hd & Hv & He & Hself).
  destruct (linked_no_exec_no_db _ _ _ _ _ _ _ _ _ _ _ _ Hrun He) as [Hs Hl].
  repeat split; assumption.
Qed.

Lemma invalid_intent_is_rejected_witness :
  exists out st tr,
    interp (linked_env (Demo.scripted Demo.joke) (Demo.connector (py "SELECT 1") [])
              {| DatabaseHandler.conn := Some 0 |})
           (run Demo.app (Some (py "Tell me a joke"))) (0%Z, tt, [])
    = (out, st, tr)
    /\ out = Returned (py "Invalid query", [], [])
    /\ st.2 = [].
Proof.
  eexists _, (_, _, _), _. split; [vm_compute; reflexivity|].
  edestruct (invalid_intent_is_rejected (Demo.scripted Demo.joke)
              (Demo.connector (py "SELECT 1") [])
              {| DatabaseHandler.conn := Some 0 |}
              Demo.app (Some (py "Tell me a joke")) 0%Z tt [])
    as (Hout & _ & _ & _ & _ & _ & Hlog & _).
  - vm_compute. reflexivity.
  - vm_compute. left. reflexivity.
  - vm_compute. reflexivity.
  - split; [exact Hout | exact Hlog].
Defined.


(** C3 (as stated, refuted).  The gate does not match the exact string
    "ERROR": the answer "Error: the statement contains DELETE" is not that
    string, and the run is blocked all the same. *)
Lemma ddl_gate_is_not_exact_match :
  exists out st tr sql,
    interp (Demo.scripted Demo.deleting)
           (run Demo.app (Some (py "Delete order 1"))) 0%Z = (out, st, tr)
    /\ In (sql, inr (py "Error: the statement contains DELETE")) (ddl_calls tr)
    /\ py "Error: the statement contains DELETE" <> py "ERROR"
    /\ out = Returned (py "DDL operations not allowed.", [], [])
    /\ exec_calls tr = [].
Proof.
  eexists _, _, _, _. split; [vm_compute; reflexivity|].
  split; [left; reflexivity|].
  split; [discriminate|].
  split; reflexivity.
Qed.

(** C3 (amended).  For every run that reaches the DDL gate, the gate
    blocks exactly when the gate's answer, lowercased, starts with
    "error".  A blocked run returns ("DDL operations not allowed.", "", ""),
    calls neither the regeneration nor [execute_sql_query], and in the
    linked system leaves the MySQL connector alone; a run that is not
    blocked calls [execute_sql_query] with the SQL the gate saw. *)
Theorem ddl_gate_blocks_on_error_prefix {P : Platform} {S1 S2 : Type}
    (outer : env AppE S1) (db : env DatabaseHandler.DbE S2)
    (db_handler : DatabaseHandler.t)
    (self : SQLApp.t) (query_input : option pystr)
    (s1 : S1) (s2 : S2) (log : list (obs DatabaseHandler.DbE))
    (out : outcome (pystr * pystr * pystr))
    (s1' : S1) (s2' : S2) (log' : list (obs DatabaseHandler.DbE))
    (tr : list (obs AppE)) (sql resp : pystr) :
  interp (linked_env outer db db_handler) (run self query_input) (s1, s2, log)
  = (out, (s1', s2', log'), tr) ->
  In (sql, inr resp) (ddl_calls tr) ->
  (startswith (py "error") (lower resp) = true <-> exec_calls tr = [])
  /\ (startswith (py "error") (lower resp) = true ->
      out = Returned (py "DDL operations not allowed.", [], [])
      /\ verify_calls tr = [] /\ s2' = s2 /\ log' = log)
  /\ (startswith (py "error") (lower resp) = false ->
      exists r rest, exec_calls tr = (sql, r) :: rest).
Proof.
  intros Hrun Hin.
  destruct (ddl_gate_blocks_on_prefix _ _ _ _ _ _ _ _ _ Hrun Hin)
    as (Hiff & Hblocked & Hpass).
  split; [exact Hiff|]. split; [|exact Hpass].
  intros Hb. destruct (Hblocked Hb) as [Hout Hv].
  destruct (linked_no_exec_no_db _ _ _ _ _ _ _ _ _ _ _ _ Hrun (proj1 Hiff Hb))
    as [Hs Hl].
  repeat split; assumption.
Qed.

Lemma ddl_gate_blocks_on_error_prefix_witness :
  exists out st tr,
    interp (linked_env (Demo.scripted Demo.deleting)
              (Demo.connector (py "SELECT 1") [])
              {| DatabaseHandler.conn := Some 0 |})
           (run Demo.app (Some (py "Delete order 1"))) (0%Z, tt, [])
    = (out, st, tr)
    /\ out = Returned (py "DDL operations not allowed.", [], [])
    /\ exec_calls tr = []
    /\ st.2 = [].
Proof.
  eexists _, (_, _, _), _. split; [vm_compute; reflexivity|].
  edestruct (ddl_gate_blocks_on_error_prefix (Demo.scripted Demo.deleting)
              (Demo.connector (py "SELECT 1") [])
              {| DatabaseHandler.conn := Some 0 |}
              Demo.app (Some (py "Delete order 1")) 0%Z tt [])
    as (Hiff & Hblocked & _).
  - vm_compute. reflexivity.
  - vm_compute. left. reflexivity.
  - assert (Hb : startswith (py "error")
                   (lower (py "Error: the statement contains DELETE")) = true)
      by (vm_compute; reflexivity).
    destruct (Hblocked Hb) as (Hout & _ & _ & Hlog).
    split; [exact Hout|]. split; [exact (proj1 Hiff Hb) | exact Hlog].
Defined.

(** C1.  If the first call of [execute_sql_query] raises an [Exception]
    [e], then that call ran the generated SQL (the one answer of the
    generation crew, fences stripped), and the regeneration is called
    exactly once, with that SQL, the schema text and [str(e)].  If the
    regeneration raises, its exception leaves [run].  Otherwise the
    regenerated SQL, fences stripped, is executed exactly once more: if
    that call raises, the exception leaves [run]; if it returns, [run]
    returns the regenerated SQL with its preview.  So a run has one
    regeneration and two executions at most. *)
Theorem regeneration_happens_exactly_once {P : Platform} {St : Type}
    (h : env AppE St) (self : SQLApp.t) (s : St) (query_input : option pystr)
    (out : outcome (pystr * pystr * pystr)) (s' : St) (tr : list (obs AppE))
    (sql0 : pystr) (e : exn) (rest : list (pystr * (exn + Pandas.DataFrame cell))) :
  interp h (run self query_input) s = (out, s', tr) ->
  exec_calls tr = (sql0, inl e) :: rest ->
  is_Exception e = true ->
  exists q raw answer,
    gen_calls tr = [(q, inr raw)]
    /\ sql0 = strip_fences raw
    /\ verify_calls tr = [(sql0, TABLE_SCHEMA (config self), exn_str e, answer)]
    /\ match answer with
       | inl e1 => rest = [] /\ out = Raised e1
       | inr regen =>
           exists r2, rest = [(strip_fences regen, r2)]
             /\ match r2 with
                | inl e2 => out = Raised e2
                | inr df =>
                    exists metrics,
                      out = Returned (strip_fences regen,
                                      to_string (Pandas.head 5 df), metrics)
                end
       end.
Proof.
  destruct query_input as [[|c q0]|]; run_cases h.
  all: intros [= <- <- <-]; cbn; intros Hex Hc.
  all: try discriminate Hex.
  all: leaf_facts; try congruence.
  all: do 3 eexists; split; [reflexivity|]; split; [reflexivity|].
  all: split; [reflexivity|]; cbn.
  all: try (split; reflexivity).
  all: eexists; split; [reflexivity|]; cbn; try reflexivity.
  all: eexists; reflexivity.
Qed.

Lemma regeneration_happens_exactly_once_witness :
  exists out st tr,
    interp (Demo.scripted Demo.misspelt)
           (run Demo.app (Some (py "List all suppliers"))) 0%Z = (out, st, tr)
    /\ exec_calls tr
       = [(py "SELECT nme FROM suppliers", inl Demo.unknown_column);
          (py "SELECT supplier_name FROM suppliers", inr Demo.six_suppliers)]
    /\ verify_calls tr
       = [(py "SELECT nme FROM suppliers", py "schema",
           exn_str Demo.unknown_column,
           inr (py "SELECT supplier_name FROM suppliers"))].
Proof.
  eexists _, _, _. split; [vm_compute; reflexivity|].
  split; [vm_compute; reflexivity|].
  edestruct (regeneration_happens_exactly_once (Demo.scripted Demo.misspelt)
               Demo.app 0%Z (Some (py "List all suppliers")))
    as (q & raw & answer & _ & _ & Hv & _).
  - vm_compute. reflexivity.
  - vm_compute. reflexivity.
  - reflexivity.
  - vm_compute in Hv. injection Hv as <-. vm_compute. reflexivity.
Defined.

(** C5.  The validation report never gates execution.  Replacing the
    validator of [self] by any other one gives a run with the same calls,
    the same final state and the same end: the same exception, or the same
    SQL and the same preview (the metrics text may differ).  Whenever the
    gate's answer does not start with "error", [execute_sql_query] is
    called with the SQL the gate saw, whatever the report says.  On a
    successful run the three values of the report are those of the
    generated SQL and stand in the metrics text. *)
Theorem validation_report_never_gates {P : Platform} {St : Type}
    (h : env AppE St) (self : SQLApp.t) (v' : ValidatorObj) (s : St)
    (query_input : option pystr)
    (out : outcome (pystr * pystr * pystr)) (s' : St) (tr : list (obs AppE)) :
  interp h (run self query_input) s = (out, s', tr) ->
  (exists out',
      interp h (run {| config := config self; validator := v' |} query_input) s
      = (out', s', tr)
      /\ match out, out' with
         | Raised e, Raised e' => e = e'
         | Returned (sql, result, metrics), Returned (sql', result', metrics') =>
             sql = sql' /\ result = result'
         | _, _ => False
         end)
  /\ (forall sql resp,
        In (sql, inr resp) (ddl_calls tr) ->
        startswith (py "error") (lower resp) = false ->
        exists r rest, exec_calls tr = (sql, r) :: rest)
  /\ (forall sql result metrics pre df,
        out = Returned (sql, result, metrics) ->
        exec_calls tr = pre ++ [(sql, inr df)] ->
        exists gen_time exec_time raw,
          In (inr raw) (map snd (gen_calls tr))
          /\ metrics =
             metrics_text gen_time exec_time (Pandas.len df) (Pandas.ncols df)
               (v_validate_syntax (validator self) (strip_fences raw))
               (v_count_forbidden_tokens (validator self) (strip_fences raw))
               (v_compute_complexity (validator self) (strip_fences raw))).
Proof.
  intros Hrun. split; [|split].
  - revert Hrun.
    destruct query_input as [[|c q0]|]; run_cases h.
    all: intros [= <- <- <-]; eexists; split; [reflexivity|]; cbn; auto.
  - intros sql resp. eapply (ddl_gate_blocks_on_prefix h); eauto.
  - revert Hrun.
    destruct query_input as [[|c q0]|]; run_cases h.
    all: intros [= <- <- <-] sql result metrics pre df Hout; cbn; intros Hex.
    all: try discriminate Hout.
    all: injection Hout as <- <- <-.
    all: destruct pre as [|? [|? [|? ?]]]; cbn in Hex; try discriminate Hex.
    all: leaf_facts.
    all: do 3 eexists; split; [left; reflexivity | reflexivity].
Qed.

Lemma validation_report_never_gates_witness :
  exists out st tr,
    interp (Demo.scripted Demo.dropping)
           (run Demo.app (Some (py "Drop the suppliers"))) 0%Z = (out, st, tr)
    /\ v_count_forbidden_tokens (validator Demo.app) (py "DROP TABLE suppliers") = 1
    /\ exec_calls tr = [(py "DROP TABLE suppliers", inr Demo.six_suppliers)]
    /\ exists out',
         interp (Demo.scripted Demo.dropping)
           (run {| config := config Demo.app; validator := Demo.silent_validator |}
                (Some (py "Drop the suppliers"))) 0%Z = (out', st, tr).
Proof.
  eexists _, _, _. split; [vm_compute; reflexivity|].
  split; [vm_compute; reflexivity|].
  split; [vm_compute; reflexivity|].
  edestruct (validation_report_never_gates (Demo.scripted Demo.dropping)
               Demo.app Demo.silent_validator 0%Z (Some (py "Drop the suppliers")))
    as ((out' & Hrun' & _) & _).
  - vm_compute. reflexivity.
  - exists out'. exact Hrun'.
Defined.

(** C10.  A run that returns after an execution returns the final SQL,
    the rendering of [df.head()] and the metrics text, where [df] is the
    frame of the last execution.  The preview is the rendering of the
    frame with the same columns and the first 5 rows of [df], and no
    more.  The metrics text is the seven lines of the source; its line
    "Rows Returned: " carries the number of all the rows of [df] and its
    line "Columns: " the number of the columns of [df], both in decimal.
    When [df] is the frame that [pd.DataFrame] builds from fetched rows,
    it has one row per fetched row and its columns are the distinct keys
    of those rows.  With more than 5 rows the preview holds fewer rows
    than the metrics report. *)
Theorem preview_is_head_and_metrics_are_full {P : Platform} {St : Type}
    (h : env AppE St) (self : SQLApp.t) (s : St) (query_input : option pystr)
    (sql result metrics : pystr) (s' : St) (tr : list (obs AppE)) :
  interp h (run self query_input) s = (Returned (sql, result, metrics), s', tr) ->
  exec_calls tr <> [] ->
  exists pre df,
    exec_calls tr = pre ++ [(sql, inr df)]
    /\ result = to_string (Pandas.head 5 df)
    /\ Pandas.columns (Pandas.head 5 df) = Pandas.columns df
    /\ Pandas.records (Pandas.head 5 df) = firstn 5 (Pandas.records df)
    /\ length (Pandas.records (Pandas.head 5 df)) <= 5
    /\ (exists gen_time exec_time syntax_ok forbidden_count complexity,
          metrics =
          py "Generation Time: " ++ format_3f gen_time ++ py "s" ++ ["010"%char]
          ++ py "Execution Time: " ++ format_3f exec_time ++ py "s" ++ ["010"%char]
          ++ py "Rows Returned: " ++ str_of_nat (length (Pandas.records df))
          ++ ["010"%char]
          ++ py "Columns: " ++ str_of_nat (length (Pandas.columns df))
          ++ ["010"%char]
          ++ py "Syntax Valid: " ++ str_of_bool syntax_ok ++ ["010"%char]
          ++ py "Forbidden Tokens: " ++ str_of_nat forbidden_count ++ ["010"%char]
          ++ py "Query Complexity: " ++ str_of_nat complexity)
    /\ (forall rows,
          df = Pandas.of_records rows ->
          Pandas.records df = rows
          /\ List.NoDup (Pandas.columns df)
          /\ (forall k, In k (Pandas.columns df)
                        <-> exists r, In r rows /\ In k (map fst r)))
    /\ (5 < length (Pandas.records df) ->
        length (Pandas.records (Pandas.head 5 df)) < length (Pandas.records df)).
Proof.
  destruct query_input as [[|c q0]|]; run_cases h.
  all: intros Heq Hne; simplify_eq; cbn in Hne |- *.
  all: try contradiction.
  all: first [ exists []; eexists; split; [reflexivity|]
             | eexists [_]; eexists; split; [reflexivity|] ].
  all: assert (Hlen : forall df : Pandas.DataFrame cell,
                  length (Pandas.records (Pandas.head 5 df))
                  = Nat.min 5 (length (Pandas.records df)))
         by (intros df; unfold Pandas.head; cbn; apply length_firstn).
  all: rewrite Hlen.
  all: split; [reflexivity|]; split; [reflexivity|]; split; [reflexivity|].
  all: split; [lia|].
  all: split;
         [match goal with
          | |- context [metrics_text ?g ?e _ _ ?ok ?f ?x] => exists g, e, ok, f, x
          end;
          unfold metrics_text, Pandas.len, Pandas.ncols; cbn [app];
          match goal with |- ?a = ?b => constr_eq a b end; reflexivity|].
  all: split; [intros rows ->; apply of_records_shape | lia].
Qed.

Lemma preview_is_head_and_metrics_are_full_witness :
  exists sql result metrics st tr,
    interp (Demo.scripted Demo.dropping)
           (run Demo.app (Some (py "Drop the suppliers"))) 0%Z
    = (Returned (sql, result, metrics), st, tr)
    /\ exists pre df,
         exec_calls tr = pre ++ [(sql, inr df)]
         /\ length (Pandas.records df) = 6
         /\ length (Pandas.records (Pandas.head 5 df)) <= 5
         /\ exists before after,
              metrics = before ++ py "Rows Returned: 6" ++ ["010"%char]
                        ++ py "Columns: 1" ++ ["010"%char] ++ after.
Proof.
  eexists _, _, _, _, _. split; [vm_compute; reflexivity|].
  edestruct (preview_is_head_and_metrics_are_full (Demo.scripted Demo.dropping)
               Demo.app 0%Z (Some (py "Drop the suppliers")))
    as (pre & df & Hex & _ & _ & _ & Hlen & _).
  - vm_compute. reflexivity.
  - vm_compute. discriminate.
  - exists pre, df. split; [exact Hex|].
    assert (Hdf : df = Demo.six_suppliers).
    { vm_compute in Hex.
      destruct pre as [|x [|y pre]]; cbn in Hex; [|discriminate Hex..].
      simplify_eq. reflexivity. }
    split; [rewrite Hdf; reflexivity|]. split; [exact Hlen|].
    exists (py "Generation Time: 0.000s" ++ ["010"%char]
            ++ py "Execution Time: 0.000s" ++ ["010"%char]),
           (py "Syntax Valid: True" ++ ["010"%char]
            ++ py "Forbidden Tokens: 1" ++ ["010"%char]
            ++ py "Query Complexity: 0").
    vm_compute. reflexivity.
Defined.

(** C4 (as stated, refuted).  The value returned does not always tell
    "ran and returned zero rows" from "failed to run": without a
    connection the statement is not run at all (no call reaches the
    connector), with a connection it is run and no row is fetched, and
    both calls return the same empty frame. *)
Lemma degraded_result_equals_zero_row_result :
  exists out,
    interp (Demo.connector (py "SELECT 1") [])
      (DatabaseHandler.execute_sql_query
         {| DatabaseHandler.conn := None |} (py "SELECT 1")) tt
    = (out, tt, [])
    /\ interp (Demo.connector (py "SELECT 1") [])
         (DatabaseHandler.execute_sql_query
            {| DatabaseHandler.conn := Some 0 |} (py "SELECT 1")) tt
       = (out, tt,
          [Obs (DatabaseHandler.Cursor 0) (inr 0);
           Obs (DatabaseHandler.Execute 0 (py "SELECT 1")) (inr tt);
           Obs (DatabaseHandler.Fetchall 0) (inr []);
           Obs (DatabaseHandler.Close 0) (inr tt)])
    /\ out = Returned Pandas.empty.
Proof.
  eexists. split; [reflexivity|]. split; reflexivity.
Qed.

(** C4 (amended).  A connection that fails with a
    [mysql.connector.Error] is logged and leaves the handler without a
    connection.  Without a connection the executor makes no call, raises
    nothing and returns the empty frame, which has no rows.  With a
    connection, a statement that the connector rejects (its [execute]
    raises [e]) makes [execute_sql_query] raise that same [e]; and a
    frame is returned only when every call of the connector returned, and
    then it is the frame of the rows fetched.  So with a live connection
    a returned frame without rows means that the statement ran and gave
    no rows.  The returned value alone does not tell the degraded state
    apart: its empty frame is the same value as the frame of no rows;
    what tells it apart is the connection error logged at construction
    and the absence of any call to the connector. *)
Theorem executor_failure_modes {P : Platform} {S2 : Type}
    (db : env DatabaseHandler.DbE S2) (s : S2) (sql : pystr) :
  interp db (DatabaseHandler.execute_sql_query
               {| DatabaseHandler.conn := None |} sql) s
  = (Returned Pandas.empty, s, [])
  /\ Pandas.len (@Pandas.empty cell) = 0
  /\ (forall e s1,
        db _ DatabaseHandler.Connect s = (inl e, s1) ->
        is_mysql_Error e = true ->
        interp db DatabaseHandler.init s
        = (Returned {| DatabaseHandler.conn := None |},
           (db _ (DatabaseHandler.LogError e) s1).2,
           [Obs DatabaseHandler.Connect (inl e);
            Obs (DatabaseHandler.LogError e)
                (db _ (DatabaseHandler.LogError e) s1).1]))
  /\ (forall c cur s1 e s2,
        db _ (DatabaseHandler.Cursor c) s = (inr cur, s1) ->
        db _ (DatabaseHandler.Execute cur sql) s1 = (inl e, s2) ->
        interp db (DatabaseHandler.execute_sql_query
                     {| DatabaseHandler.conn := Some c |} sql) s
        = (Raised e, s2,
           [Obs (DatabaseHandler.Cursor c) (inr cur);
            Obs (DatabaseHandler.Execute cur sql) (inl e)]))
  /\ (forall c df s' tr,
        interp db (DatabaseHandler.execute_sql_query
                     {| DatabaseHandler.conn := Some c |} sql) s
        = (Returned df, s', tr) ->
        exists cur rows,
          tr = [Obs (DatabaseHandler.Cursor c) (inr cur);
                Obs (DatabaseHandler.Execute cur sql) (inr tt);
                Obs (DatabaseHandler.Fetchall cur) (inr rows);
                Obs (DatabaseHandler.Close cur) (inr tt)]
          /\ df = Pandas.of_records rows)
  /\ @Pandas.of_records cell [] = Pandas.empty.
Proof.
  split; [apply execute_without_connection|].
  split; [reflexivity|].
  split; [intros e s1; apply init_without_connection|].
  split; [|split; [|reflexivity]].
  - intros c cur s1 e s2. apply execute_rejected_statement.
  - intros c df s' tr. apply execute_returns_only_after_fetch.
Qed.

Lemma executor_failure_modes_witness :
  exists e,
    interp (Demo.connector (py "SELECT 1") [])
      (DatabaseHandler.execute_sql_query
         {| DatabaseHandler.conn := Some 0 |} (py "SELECT nme FROM suppliers")) tt
    = (Raised e, tt,
       [Obs (DatabaseHandler.Cursor 0) (inr 0);
        Obs (DatabaseHandler.Execute 0 (py "SELECT nme FROM suppliers")) (inl e)])
    /\ interp (Demo.connector (py "SELECT 1") [])
         (DatabaseHandler.execute_sql_query
            {| DatabaseHandler.conn := None |} (py "SELECT nme FROM suppliers")) tt
       = (Returned Pandas.empty, tt, []).
Proof.
  eexists.
  destruct (executor_failure_modes (Demo.connector (py "SELECT 1") []) tt
              (py "SELECT nme FROM suppliers")) as (Hnone & _ & _ & Hrej & _ & _).
  split; [|exact Hnone].
  apply (Hrej 0 0 tt _ tt); reflexivity.
Defined.

End Claims.

(* ====================================================================== *)
(** ** More on the orchestrator and the executor *)
(* ====================================================================== *)

Import ListNotations PyStr Prog.
Local Open Scope list_scope.

Module RunProps.

Import SQLApp Trace Calls AppFacts.

#[local] Arguments py : simpl never.
#[local] Arguments startswith : simpl never.
#[local] Arguments pystr_eqb : simpl never.
#[local] Arguments strip : simpl never.
#[local] Arguments lower : simpl never.
#[local] Arguments strip_fences : simpl never.
#[local] Arguments metrics_text : simpl never.
#[local] Arguments Pandas.head : simpl never.

(** X1.  [q = query_input or input("Ask your query: ")]: with a question
    that is not empty, stdin is never read and the intent check gets the
    question as it is; with no question, or an empty one, the first call
    is the prompt, and the line typed goes to the intent check as it is
    (an exception of [input] leaves [run] before any crew is called). *)
Theorem run_prompts_only_without_question {P : Platform} {St : Type}
    (h : env AppE St) (self : SQLApp.t) (s : St) (query_input : option pystr)
    (out : outcome (pystr * pystr * pystr)) (s' : St) (tr : list (obs AppE)) :
  interp h (run self query_input) s = (out, s', tr) ->
  match query_input with
  | Some (c :: q) =>
      input_calls tr = [] /\ exists r, intent_calls tr = [(c :: q, r)]
  | _ =>
      exists r, input_calls tr = [(py "Ask your query: ", r)]
        /\ match r with
           | inl e => out = Raised e /\ tr = [Obs (Input (py "Ask your query: ")) (inl e)]
           | inr line => exists r', intent_calls tr = [(line, r')]
           end
  end.
Proof.
  destruct query_input as [[|c q0]|]; run_cases h.
  all: intros [= <- <- <-]; cbn.
  all: try (split; [reflexivity|]); eauto.
  all: eexists; split; [reflexivity|]; cbn; eauto.
Qed.

Lemma run_prompts_only_without_question_witness :
  exists out st tr,
    interp (Demo.scripted Demo.joke) (run Demo.app (Some [])) 0%Z = (out, st, tr)
    /\ input_calls tr = [(py "Ask your query: ", inr (py "question"))]
    /\ intent_calls tr = [(py "question", inr (py " Invalid "))].
Proof.
  eexists _, _, _. split; [vm_compute; reflexivity|].
  destruct (run_prompts_only_without_question (Demo.scripted Demo.joke) Demo.app
              0%Z (Some []) _ _ _ eq_refl) as (r & Hin & Hrest).
  vm_compute in Hin. simplify_eq. split; [vm_compute; reflexivity|].
  destruct Hrest as (r' & Hint). vm_compute in Hint |- *. reflexivity.
Defined.

(** X2.  [run] catches nothing that a crew raises: an exception of the
    intent check, of the generation or of the DDL gate is the outcome of
    [run], and nothing is executed or regenerated after it. *)
Theorem crew_exceptions_leave_run {P : Platform} {St : Type}
    (h : env AppE St) (self : SQLApp.t) (s : St) (query_input : option pystr)
    (out : outcome (pystr * pystr * pystr)) (s' : St) (tr : list (obs AppE))
    (x : pystr) (e : exn) :
  interp h (run self query_input) s = (out, s', tr) ->
  In (x, inl e) (intent_calls tr) \/ In (x, inl e) (gen_calls tr)
  \/ In (x, inl e) (ddl_calls tr) ->
  out = Raised e /\ exec_calls tr = [] /\ verify_calls tr = [].
Proof.
  destruct query_input as [[|c q0]|]; run_cases h.
  all: intros [= <- <- <-]; cbn; intros Hin.
  all: leaf_facts.
  all: repeat split; reflexivity.
Qed.

Lemma crew_exceptions_leave_run_witness :
  exists st tr,
    interp (Scenario.env_of Scenario.gen_fails)
           (run Demo.app (Some (py "List all suppliers"))) 0%Z
    = (Raised Scenario.rate_limit, st, tr)
    /\ exec_calls tr = [].
Proof.
  eexists _, _. split; [vm_compute; reflexivity|].
  edestruct (crew_exceptions_leave_run (Scenario.env_of Scenario.gen_fails)
               Demo.app 0%Z (Some (py "List all suppliers")))
    with (x := py "List all suppliers") (e := Scenario.rate_limit)
    as (_ & Hex & _).
  - vm_compute. reflexivity.
  - right. left. vm_compute. left. reflexivity.
  - exact Hex.
Defined.

(** X3.  [except Exception] does not catch what is only a
    [BaseException] (a [KeyboardInterrupt], say): raised by the first
    execution, it leaves [run] at once, with no regeneration and no second
    execution. *)
Theorem base_exception_is_not_regenerated {P : Platform} {St : Type}
    (h : env AppE St) (self : SQLApp.t) (s : St) (query_input : option pystr)
    (out : outcome (pystr * pystr * pystr)) (s' : St) (tr : list (obs AppE))
    (sql0 : pystr) (e : exn) (rest : list (pystr * (exn + Pandas.DataFrame cell))) :
  interp h (run self query_input) s = (out, s', tr) ->
  exec_calls tr = (sql0, inl e) :: rest ->
  is_Exception e = false ->
  out = Raised e /\ rest = [] /\ verify_calls tr = [].
Proof.
  destruct query_input as [[|c q0]|]; run_cases h.
  all: intros [= <- <- <-]; cbn; intros Hex Hc.
  all: try discriminate Hex.
  all: leaf_facts; try congruence.
  all: repeat split; reflexivity.
Qed.

Lemma base_exception_is_not_regenerated_witness :
  exists st tr,
    interp (Scenario.env_of Scenario.interrupted)
           (run Demo.app (Some (py "List all suppliers"))) 0%Z
    = (Raised Scenario.interrupt, st, tr)
    /\ verify_calls tr = [].
Proof.
  eexists _, _. split; [vm_compute; reflexivity|].
  edestruct (base_exception_is_not_regenerated (Scenario.env_of Scenario.interrupted)
               Demo.app 0%Z (Some (py "List all suppliers")))
    with (sql0 := py "SELECT 1") (e := Scenario.interrupt)
         (rest := @nil (pystr * (exn + Pandas.DataFrame (@cell Demo.platform))))
    as (_ & _ & Hv).
  - vm_compute. reflexivity.
  - vm_compute. reflexivity.
  - reflexivity.
  - exact Hv.
Defined.

(** X4.  Every crew is asked at most once in a run and at most two
    statements are executed.  The DDL gate sees the generated SQL (the
    answer of the generation crew, fences stripped) and nothing else: when
    the regeneration answers, its SQL, fences stripped, is executed as the
    second statement without being validated or shown to the gate. *)
Theorem regenerated_sql_is_not_gated {P : Platform} {St : Type}
    (h : env AppE St) (self : SQLApp.t) (s : St) (query_input : option pystr)
    (out : outcome (pystr * pystr * pystr)) (s' : St) (tr : list (obs AppE)) :
  interp h (run self query_input) s = (out, s', tr) ->
  length (intent_calls tr) <= 1 /\ length (gen_calls tr) <= 1
  /\ length (ddl_calls tr) <= 1 /\ length (verify_calls tr) <= 1
  /\ length (exec_calls tr) <= 2
  /\ (forall sql r, In (sql, r) (ddl_calls tr) ->
        exists q raw, gen_calls tr = [(q, inr raw)] /\ sql = strip_fences raw)
  /\ (forall sql0 schema error regen,
        In (sql0, schema, error, inr regen) (verify_calls tr) ->
        exists g r1 r2,
          ddl_calls tr = [(sql0, g)]
          /\ exec_calls tr = [(sql0, r1); (strip_fences regen, r2)]).
Proof.
  destruct query_input as [[|c q0]|]; run_cases h.
  all: intros [= <- <- <-]; cbn.
  all: do 5 (split; [lia|]).
  all: split; [intros ? ? Hin | intros ? ? ? ? Hin].
  all: leaf_facts; eauto.
Qed.

Lemma regenerated_sql_is_not_gated_witness :
  exists out st tr,
    interp (Scenario.env_of Scenario.regen_drops)
           (run Demo.app (Some (py "List all suppliers"))) 0%Z
    = (out, st, tr)
    /\ ddl_calls tr = [(py "SELECT nme FROM suppliers", inr (py "OK"))]
    /\ exec_calls tr = [(py "SELECT nme FROM suppliers", inl Demo.unknown_column);
                        (py "DROP TABLE suppliers", inr Pandas.empty)].
Proof.
  eexists _, _, _. split; [vm_compute; reflexivity|].
  edestruct (regenerated_sql_is_not_gated (Scenario.env_of Scenario.regen_drops) Demo.app 0%Z
               (Some (py "List all suppliers"))) as (_ & _ & _ & _ & _ & _ & Hv).
  - vm_compute. reflexivity.
  - edestruct (Hv (py "SELECT nme FROM suppliers") (py "schema")
                  (exn_str Demo.unknown_column) (py "DROP TABLE suppliers"))
      as (g & r1 & r2 & Hd & He).
    + vm_compute. left. reflexivity.
    + vm_compute in Hd, He. simplify_eq. split; vm_compute; reflexivity.
Defined.

Section Connector.

Context {P : Platform}.
Context {S2 : Type}.
Variable db : env DatabaseHandler.DbE S2.

Import DatabaseHandler.

(** The shapes of a call of [execute_sql_query] on a connection. *)
Lemma execute_shapes (s s' : S2) (c : connection) (sql : pystr)
    (out : outcome (Pandas.DataFrame cell)) (tr : list (obs DbE)) :
  interp db (execute_sql_query {| conn := Some c |} sql) s = (out, s', tr) ->
  (exists e, tr = [Obs (Cursor c) (inl e)] /\ out = Raised e)
  \/ (exists cur e,
        tr = [Obs (Cursor c) (inr cur); Obs (Execute cur sql) (inl e)]
        /\ out = Raised e)
  \/ (exists cur e,
        tr = [Obs (Cursor c) (inr cur); Obs (Execute cur sql) (inr tt);
              Obs (Fetchall cur) (inl e)]
        /\ out = Raised e)
  \/ (exists cur rows e,
        tr = [Obs (Cursor c) (inr cur); Obs (Execute cur sql) (inr tt);
              Obs (Fetchall cur) (inr rows); Obs (Close cur) (inl e)]
        /\ out = Raised e)
  \/ (exists cur rows,
        tr = [Obs (Cursor c) (inr cur); Obs (Execute cur sql) (inr tt);
              Obs (Fetchall cur) (inr rows); Obs (Close cur) (inr tt)]
        /\ out = Returned (Pandas.of_records rows)).
Proof.
  unfold execute_sql_query. cbn.
  repeat (answer_step db).
  all: intros Heq; simplify_eq.
  all: repeat match goal with u : unit |- _ => destruct u end.
  - left. eauto.
  - right; left. eauto.
  - right; right; left. eauto.
  - right; right; right; left. eauto.
  - right; right; right; right. eauto.
Qed.

Lemma execute_executed (self : DatabaseHandler.t) (s s' : S2) (sql : pystr)
    (out : outcome (Pandas.DataFrame cell)) (tr : list (obs DbE)) :
  interp db (execute_sql_query self sql) s = (out, s', tr) ->
  executed tr = [] \/ executed tr = [sql].
Proof.
  destruct self as [[c|]].
  - intros H. apply execute_shapes in H.
    destruct H as [(e & -> & _) | [(cur & e & -> & _) | [(cur & e & -> & _)
      | [(cur & rows & e & -> & _) | (cur & rows & -> & _)]]]]; cbn; auto.
  - cbn. intros H. simplify_eq. auto.
Qed.

End Connector.

Section LinkedRuns.

Context {P : Platform}.
Context {S1 S2 : Type}.
Variable outer : env AppE S1.
Variable db : env DatabaseHandler.DbE S2.

Lemma exec_calls_cons (o : obs AppE) (tr : list (obs AppE)) :
  exec_calls (o :: tr)
  = match exec_call o with
    | Some y => y :: exec_calls tr
    | None => exec_calls tr
    end.
Proof. reflexivity. Qed.

Lemma executed_app (l1 l2 : list (obs DatabaseHandler.DbE)) :
  executed (l1 ++ l2) = executed l1 ++ executed l2.
Proof. apply omap_app. Qed.

(** The log of the connector only grows, and the statements it ran are
    among those [run] passed to [execute_sql_query], in their order. *)
Lemma linked_log_grows (db_handler : DatabaseHandler.t) {A : Type} (p : Prog AppE A) :
  forall s1 s2 log out s1' s2' log' tr,
    interp (linked_env outer db db_handler) p (s1, s2, log)
    = (out, (s1', s2', log'), tr) ->
    exists l, log' = log ++ l
      /\ sublist (executed l) (map fst (exec_calls tr)).
Proof.
  induction p as [x | e | R ev k IH]; intros s1 s2 log out s1' s2' log' tr.
  - cbn. intros; simplify_eq. exists []. rewrite app_nil_r. split; [reflexivity|constructor].
  - cbn. intros; simplify_eq. exists []. rewrite app_nil_r. split; [reflexivity|constructor].
  - rewrite interp_vis.
    destruct (linked_env outer db db_handler R ev (s1, s2, log)) as [r [[t1 t2] tlog]] eqn:Hev.
    destruct (interp (linked_env outer db db_handler) (k r) (t1, t2, tlog))
      as [[o [[u1 u2] ulog]] tr0] eqn:Hk.
    intros Heq. simplify_eq.
    destruct (IH _ _ _ _ _ _ _ _ _ Hk) as (l & -> & Hsub).
    rewrite exec_calls_cons.
    destruct ev; cbn in Hev |- *;
      try (destruct (outer _ _ s1) as [r0 s1x]; simplify_eq;
           exists l; split; [reflexivity | exact Hsub]).
    destruct (interp db (DatabaseHandler.execute_sql_query db_handler sql_query) s2)
      as [[o1 s2x] tr1] eqn:Hrun.
    simplify_eq.
    exists (tr1 ++ l). split; [rewrite app_assoc; reflexivity|].
    rewrite executed_app.
    destruct (execute_executed db _ _ _ _ _ _ Hrun) as [-> | ->]; cbn.
    + apply sublist_cons. exact Hsub.
    + apply sublist_skip. exact Hsub.
Qed.

(** Without a connection every call of [execute_sql_query] returns the
    empty frame and the connector is left alone. *)
Lemma linked_degraded {A : Type} (p : Prog AppE A) :
  forall s1 s2 log out s1' s2' log' tr,
    interp (linked_env outer db {| DatabaseHandler.conn := None |}) p (s1, s2, log)
    = (out, (s1', s2', log'), tr) ->
    s2' = s2 /\ log' = log
    /\ forall sql r, In (sql, r) (exec_calls tr) -> r = inr Pandas.empty.
Proof.
  induction p as [x | e | R ev k IH]; intros s1 s2 log out s1' s2' log' tr.
  - cbn. intros; simplify_eq. repeat split. intros ? ? [].
  - cbn. intros; simplify_eq. repeat split. intros ? ? [].
  - rewrite interp_vis.
    destruct (linked_env outer db _ R ev (s1, s2, log)) as [r [[t1 t2] tlog]] eqn:Hev.
    destruct (interp (linked_env outer db _) (k r) (t1, t2, tlog))
      as [[o [[u1 u2] ulog]] tr0] eqn:Hk.
    intros Heq. simplify_eq.
    destruct (IH _ _ _ _ _ _ _ _ _ Hk) as (-> & -> & Hall).
    rewrite exec_calls_cons.
    destruct ev; cbn in Hev |- *;
      try (destruct (outer _ _ s1) as [r0 s1x]; simplify_eq;
           repeat split; exact Hall).
    simplify_eq. rewrite app_nil_r. repeat split.
    intros sql r [Heq | Hin]; [simplify_eq; reflexivity | eauto].
Qed.

End LinkedRuns.

Section EmptyFrames.

Context {P : Platform}.
Context {St : Type}.
Variable h : env AppE St.

(** A run in which every execution returns the empty frame. *)
Lemma run_with_empty_frames
    (self : SQLApp.t) (s : St) (query_input : option pystr)
    (out : outcome (pystr * pystr * pystr)) (s' : St) (tr : list (obs AppE)) :
  interp h (run self query_input) s = (out, s', tr) ->
  (forall sql r, In (sql, r) (exec_calls tr) -> r = inr Pandas.empty) ->
  verify_calls tr = [] /\ length (exec_calls tr) <= 1
  /\ forall sql r, In (sql, r) (exec_calls tr) ->
       exists gen_time exec_time,
         out = Returned (sql, to_string (Pandas.head 5 Pandas.empty),
                 metrics_text gen_time exec_time 0 0
                   (v_validate_syntax (validator self) sql)
                   (v_count_forbidden_tokens (validator self) sql)
                   (v_compute_complexity (validator self) sql)).
Proof.
  destruct query_input as [[|c q0]|]; run_cases h.
  all: intros [= <- <- <-]; cbn; intros Hall.
  all: try solve [split; [reflexivity | split; [lia | intros ? ? []]]].
  all: try (exfalso;
            match goal with
            | e : exn |- _ =>
                specialize (Hall _ (inl e) (or_introl eq_refl)); discriminate Hall
            end).
  all: match goal with
       | d : Pandas.DataFrame cell |- _ =>
           pose proof (Hall _ (inr d) (or_introl eq_refl)) as Hd; simplify_eq
       end.
  all: split; [reflexivity|]; split; [lia|].
  all: intros ? ? [Heq | []]; simplify_eq; eauto.
Qed.

(** The statements [run] passes on are answers of the generation crew or
    of the regeneration crew, fences stripped. *)
Lemma exec_calls_from_crews
    (self : SQLApp.t) (s : St) (query_input : option pystr)
    (out : outcome (pystr * pystr * pystr)) (s' : St) (tr : list (obs AppE)) :
  interp h (run self query_input) s = (out, s', tr) ->
  length (exec_calls tr) <= 2
  /\ forall sql r, In (sql, r) (exec_calls tr) ->
       (exists q raw, In (q, inr raw) (gen_calls tr) /\ sql = strip_fences raw)
       \/ (exists sql0 schema error regen,
             In (sql0, schema, error, inr regen) (verify_calls tr)
             /\ sql = strip_fences regen).
Proof.
  destruct query_input as [[|c q0]|]; run_cases h.
  all: intros [= <- <- <-]; cbn.
  all: split; [lia|].
  all: intros ? ? Hin; leaf_facts.
  all: first [ left; do 2 eexists; split; [left; reflexivity | reflexivity]
             | right; do 4 eexists; split; [left; reflexivity | reflexivity] ].
Qed.

End EmptyFrames.

(** X5.  In the degraded state (the handler has no connection) a run of
    the linked system never touches the connector and never regenerates:
    when the question passes the intent check and the gate, [run] returns
    the generated SQL with the rendering of an empty frame and metrics
    that report 0 rows and 0 columns, as if the statement had run and
    found nothing. *)
Theorem degraded_run_reports_empty_result {P : Platform} {S1 S2 : Type}
    (outer : env AppE S1) (db : env DatabaseHandler.DbE S2)
    (self : SQLApp.t) (query_input : option pystr)
    (s1 : S1) (s2 : S2) (log : list (obs DatabaseHandler.DbE))
    (out : outcome (pystr * pystr * pystr))
    (s1' : S1) (s2' : S2) (log' : list (obs DatabaseHandler.DbE))
    (tr : list (obs AppE)) :
  interp (linked_env outer db {| DatabaseHandler.conn := None |})
         (run self query_input) (s1, s2, log)
  = (out, (s1', s2', log'), tr) ->
  s2' = s2 /\ log' = log /\ verify_calls tr = []
  /\ (forall sql resp,
        In (sql, inr resp) (ddl_calls tr) ->
        startswith (py "error") (lower resp) = false ->
        exists gen_time exec_time,
          exec_calls tr = [(sql, inr Pandas.empty)]
          /\ out = Returned (sql, to_string (Pandas.head 5 Pandas.empty),
                     metrics_text gen_time exec_time 0 0
                       (v_validate_syntax (validator self) sql)
                       (v_count_forbidden_tokens (validator self) sql)
                       (v_compute_complexity (validator self) sql))).
Proof.
  intros Hrun.
  destruct (linked_degraded outer db _ _ _ _ _ _ _ _ _ Hrun) as (Hs & Hl & Hall).
  destruct (run_with_empty_frames _ _ _ _ _ _ _ Hrun Hall) as (Hv & Hlen & Hout).
  repeat (split; [assumption|]).
  intros sql resp Hin Hpass.
  destruct (ddl_gate_blocks_on_prefix _ _ _ _ _ _ _ _ _ Hrun Hin)
    as (_ & _ & Hex).
  destruct (Hex Hpass) as (r & rest & Hcalls).
  assert (Hr : r = inr Pandas.empty)
    by (apply (Hall sql); rewrite Hcalls; left; reflexivity).
  subst r.
  destruct (Hout sql (inr Pandas.empty)) as (gt & et & Ho);
    [rewrite Hcalls; left; reflexivity|].
  exists gt, et. split; [|exact Ho].
  rewrite Hcalls in Hlen. destruct rest; [exact Hcalls | cbn in Hlen; lia].
Qed.

Lemma degraded_run_reports_empty_result_witness :
  exists out st tr gen_time exec_time,
    interp (linked_env (Demo.scripted Demo.dropping)
              (Demo.connector (py "SELECT 1") [])
              {| DatabaseHandler.conn := None |})
           (run Demo.app (Some (py "Drop the suppliers"))) (0%Z, tt, [])
    = (out, st, tr)
    /\ st.2 = []
    /\ out = Returned (py "DROP TABLE suppliers",
                       @to_string Demo.platform (Pandas.head 5 Pandas.empty),
                       @metrics_text Demo.platform gen_time exec_time 0 0 true 1 0).
Proof.
  eexists _, (_, _, _), _.
  edestruct (degraded_run_reports_empty_result (Demo.scripted Demo.dropping)
               (Demo.connector (py "SELECT 1") []) Demo.app
               (Some (py "Drop the suppliers")) 0%Z tt [])
    as (_ & Hlog & _ & Hout).
  - vm_compute. reflexivity.
  - edestruct (Hout (py "DROP TABLE suppliers") (py "OK")) as (gt & et & _ & Ho).
    + vm_compute. left. reflexivity.
    + vm_compute. reflexivity.
    + exists gt, et. split; [reflexivity|]. split; [exact Hlog | exact Ho].
Defined.

(** X6.  In the linked system the connector runs at most two statements
    in a run, and only texts that [run] passed to [execute_sql_query]:
    each is an answer of the generation crew or of the regeneration crew
    with its fences stripped, passed on as it is.  The log of the
    connector only grows. *)
Theorem connector_runs_only_crew_sql {P : Platform} {S1 S2 : Type}
    (outer : env AppE S1) (db : env DatabaseHandler.DbE S2)
    (db_handler : DatabaseHandler.t)
    (self : SQLApp.t) (query_input : option pystr)
    (s1 : S1) (s2 : S2) (log : list (obs DatabaseHandler.DbE))
    (out : outcome (pystr * pystr * pystr))
    (s1' : S1) (s2' : S2) (log' : list (obs DatabaseHandler.DbE))
    (tr : list (obs AppE)) :
  interp (linked_env outer db db_handler) (run self query_input) (s1, s2, log)
  = (out, (s1', s2', log'), tr) ->
  exists l,
    log' = log ++ l
    /\ length (executed l) <= 2
    /\ forall sql, In sql (executed l) ->
         (exists q raw, In (q, inr raw) (gen_calls tr) /\ sql = strip_fences raw)
         \/ (exists sql0 schema error regen,
               In (sql0, schema, error, inr regen) (verify_calls tr)
               /\ sql = strip_fences regen).
Proof.
  intros Hrun.
  destruct (linked_log_grows outer db db_handler _ _ _ _ _ _ _ _ _ Hrun)
    as (l & Hlog & Hsub).
  exists l. split; [exact Hlog|].
  pose proof (exec_calls_from_crews _ _ _ _ _ _ _ Hrun) as Hcalls.
  destruct Hcalls as (Hlen & Hfrom).
  split.
  - apply sublist_length in Hsub. rewrite length_map in Hsub. lia.
  - intros sql Hin.
    assert (Hin' : In sql (map fst (exec_calls tr))).
    { apply list_elem_of_In. eapply elem_of_sublist; [|exact Hsub].
      apply list_elem_of_In. exact Hin. }
    apply in_map_iff in Hin'. destruct Hin' as ([sql' r] & Heq & Hin').
    cbn in Heq. subst sql'. eapply Hfrom. exact Hin'.
Qed.

Lemma connector_runs_only_crew_sql_witness :
  exists out st tr,
    interp (linked_env (Demo.scripted Demo.misspelt)
              (Demo.connector (py "SELECT supplier_name FROM suppliers") [])
              {| DatabaseHandler.conn := Some 0 |})
           (run Demo.app (Some (py "List all suppliers"))) (0%Z, tt, [])
    = (out, st, tr)
    /\ executed st.2 = [py "SELECT nme FROM suppliers";
                        py "SELECT supplier_name FROM suppliers"]
    /\ length (executed st.2) <= 2.
Proof.
  eexists _, (_, _, _), _. split; [vm_compute; reflexivity|].
  split; [vm_compute; reflexivity|].
  edestruct (connector_runs_only_crew_sql (Demo.scripted Demo.misspelt)
               (Demo.connector (py "SELECT supplier_name FROM suppliers") [])
               {| DatabaseHandler.conn := Some 0 |} Demo.app
               (Some (py "List all suppliers")) 0%Z tt [])
    as (l & Hlog & Hlen & _).
  - vm_compute. reflexivity.
  - cbn in Hlog. subst l. exact Hlen.
Defined.

End RunProps.

Module ExecutorProps.

Import Calls AppFacts DatabaseHandler.

(** X7.  [execute_sql_query] on a connection opens one cursor, runs the
    statement once and as given, fetches and closes, in this order, and
    stops at the first call that raises, whose exception it lets through.
    The cursor is closed only after [fetchall] returned: when [execute]
    or [fetchall] raises, [close] is never called. *)
Theorem failed_statement_leaves_cursor_open {P : Platform} {S2 : Type}
    (db : env DbE S2) (s s' : S2) (c : connection) (sql : pystr)
    (out : outcome (Pandas.DataFrame cell)) (tr : list (obs DbE)) :
  interp db (execute_sql_query {| conn := Some c |} sql) s = (out, s', tr) ->
  (exists r, head tr = Some (Obs (Cursor c) r))
  /\ (executed tr = [] \/ executed tr = [sql])
  /\ (forall e, In e (statement_errors tr) -> out = Raised e /\ closed tr = [])
  /\ (forall cur, In cur (closed tr) ->
        exists rows,
          firstn 3 tr = [Obs (Cursor c) (inr cur); Obs (Execute cur sql) (inr tt);
                         Obs (Fetchall cur) (inr rows)]
          /\ closed tr = [cur])
  /\ (forall df, out = Returned df ->
        exists cur rows,
          tr = [Obs (Cursor c) (inr cur); Obs (Execute cur sql) (inr tt);
                Obs (Fetchall cur) (inr rows); Obs (Close cur) (inr tt)]
          /\ df = Pandas.of_records rows).
Proof.
  intros H. apply RunProps.execute_shapes in H.
  destruct H as [(e & -> & ->) | [(cur & e & -> & ->) | [(cur & e & -> & ->)
    | [(cur & rows & e & -> & ->) | (cur & rows & -> & ->)]]]]; cbn.
  all: split; [eexists; reflexivity|].
  all: split; [first [left; reflexivity | right; reflexivity]|].
  all: split; [intros ? Hin; leaf_facts; split; reflexivity|].
  all: split; [intros ? Hin; leaf_facts; eexists; split; reflexivity|].
  all: intros ? Heq; simplify_eq; eauto.
Qed.

Lemma failed_statement_leaves_cursor_open_witness :
  exists st tr,
    interp (Demo.connector (py "SELECT 1") [])
      (execute_sql_query {| conn := Some 0 |} (py "SELECT nme FROM suppliers")) tt
    = (Raised (mk_exn MySQLError (py "1054 (42S22): Unknown column")), st, tr)
    /\ closed tr = [].
Proof.
  eexists _, _. split; [vm_compute; reflexivity|].
  edestruct (failed_statement_leaves_cursor_open (Demo.connector (py "SELECT 1") [])
               tt tt 0 (py "SELECT nme FROM suppliers")) as (_ & _ & Hleak & _).
  - vm_compute. reflexivity.
  - eapply (Hleak (mk_exn MySQLError (py "1054 (42S22): Unknown column"))).
    left. reflexivity.
Defined.

(** X8.  [DatabaseHandler.__init__] connects once.  If [connect]
    returns, the connection is kept and the success is logged.  Only a
    [mysql.connector.Error] is caught: it is logged and the handler is
    built without a connection.  Any other exception of [connect] leaves
    the constructor, unlogged; so the constructor never raises a
    [mysql.connector.Error]. *)
Theorem init_catches_only_mysql_errors {P : Platform} {S2 : Type}
    (db : env DbE S2) (s s' : S2)
    (out : outcome DatabaseHandler.t) (tr : list (obs DbE)) :
  interp db init s = (out, s', tr) ->
  match out with
  | Returned self =>
      (exists c, conn self = Some c /\ tr = [Obs Connect (inr c); Obs LogInfo tt])
      \/ (exists e, is_mysql_Error e = true /\ conn self = None
                    /\ tr = [Obs Connect (inl e); Obs (LogError e) tt])
  | Raised e => is_mysql_Error e = false /\ tr = [Obs Connect (inl e)]
  end.
Proof.
  unfold init. cbn.
  destruct (db _ Connect s) as [[e | c] s1] eqn:Hc; cbn.
  - destruct (is_mysql_Error e) eqn:He; cbn.
    + destruct (db _ (LogError e) s1) as [[] s2]. intros Heq; simplify_eq.
      right. eauto.
    + intros Heq; simplify_eq. auto.
  - destruct (db _ LogInfo s1) as [[] s2]. intros Heq; simplify_eq.
    left. eauto.
Qed.

Lemma init_catches_only_mysql_errors_witness :
  exists st tr,
    interp (fun R ev (st : unit) =>
              match ev in DbE R return R * unit with
              | Connect => (inl (mk_exn OtherException (py "an integer is required")), st)
              | LogInfo => (tt, st)
              | LogError _ => (tt, st)
              | Cursor _ => (inr 0, st)
              | Execute _ _ => (inr tt, st)
              | Fetchall _ => (inr ([] : list (Pandas.record (@cell Demo.platform))), st)
              | Close _ => (inr tt, st)
              end) init tt
    = (Raised (mk_exn OtherException (py "an integer is required")), st, tr)
    /\ tr = [Obs Connect (inl (mk_exn OtherException (py "an integer is required")))].
Proof.
  eexists _, _. split; [vm_compute; reflexivity|].
  edestruct (init_catches_only_mysql_errors
               (fun R ev (st : unit) =>
                  match ev in DbE R return R * unit with
                  | Connect => (inl (mk_exn OtherException (py "an integer is required")), st)
                  | LogInfo => (tt, st)
                  | LogError _ => (tt, st)
                  | Cursor _ => (inr 0, st)
                  | Execute _ _ => (inr tt, st)
                  | Fetchall _ => (inr ([] : list (Pandas.record (@cell Demo.platform))), st)
                  | Close _ => (inr tt, st)
                  end) tt tt (Raised (mk_exn OtherException (py "an integer is required"))))
    as (_ & Htr).
  - vm_compute. reflexivity.
  - exact Htr.
Defined.

End ExecutorProps.

(* ====================================================================== *)
(** ** More on the fence stripping *)
(* ====================================================================== *)

Import ListNotations PyStr Prog.
Local Open Scope list_scope.

Module FenceProps.

Import Re ReAux CharFacts ReFacts StrFacts FenceFacts.

#[local] Arguments py : simpl never.

Lemma fence_chars : py "```" = ["`"; "`"; "`"]%char.
Proof. reflexivity. Qed.














Lemma rstrip_fwd_prefix (s : pystr) : exists t, s = rstrip_fwd s ++ t.
Proof.
  induction s as [|c s [t IH]]; [exists []; reflexivity|].
  cbn [rstrip_fwd]. destruct (forallb is_space (c :: s)).
  - exists (c :: s). reflexivity.
  - exists t. cbn. rewrite <- IH. reflexivity.
Qed.

Lemma cut_close_prefix (s : pystr) : exists t, s = cut_close s ++ t.
Proof.
  induction s as [|c s [t IH]]; [exists []; reflexivity|].
  cbn [cut_close]. destruct (closes_here (c :: s)).
  - exists (c :: s). reflexivity.
  - exists t. cbn. rewrite <- IH. reflexivity.
Qed.

(** X10.  The stripping only cuts at the two ends: its output stands in
    the answer as one piece, so nothing inside the SQL is changed (fences
    and backquotes inside it are kept), and the output is never longer
    than the answer. *)
Theorem strip_fences_only_cuts_the_ends (raw : pystr) :
  (exists pre post, raw = pre ++ SQLApp.strip_fences raw ++ post)
  /\ length (SQLApp.strip_fences raw) <= length raw.
Proof.
  assert (H : exists pre post, raw = pre ++ SQLApp.strip_fences raw ++ post).
  { rewrite strip_fences_direct.
    destruct (cut_close_prefix (strip_open (strip raw))) as [t3 H3].
    pose proof (strip_open_suffix (strip raw)) as H2.
    set (k := length (strip raw) - length (strip_open (strip raw))) in H2.
    unfold strip, lstrip in *. rewrite rstrip_is_rstrip_fwd in *.
    destruct (rstrip_fwd_prefix (drop_while is_space raw)) as [t1 H1].
    pose proof (drop_while_skipn is_space raw) as H0.
    set (u := rstrip_fwd (drop_while is_space raw)) in *.
    exists (firstn (span is_space raw) raw ++ firstn k u), (t3 ++ t1).
    rewrite <- (firstn_skipn (span is_space raw) raw) at 1.
    rewrite <- H0, H1.
    rewrite <- (firstn_skipn k u) at 1.
    rewrite <- H2, H3 at 1.
    rewrite <- !app_assoc. reflexivity. }
  split; [exact H|].
  destruct H as (pre & post & H). rewrite H at 2. rewrite !length_app. lia.
Qed.

(** X11.  An answer without fences is only trimmed: the stripping returns
    [raw.strip()] exactly when the trimmed answer neither starts nor ends
    with a fence of three backquotes. *)
Theorem strip_fences_is_strip_without_fences (raw : pystr) :
  SQLApp.strip_fences raw = strip raw
  <-> startswith (py "```") (strip raw) = false
      /\ endswith (py "```") (strip raw) = false.
Proof.
  destruct (strip_trimmed raw) as [Hs He].
  rewrite <- (restrip_iff (strip raw) Hs He).
  rewrite !strip_fences_direct, (strip_fixed (strip raw) Hs He). tauto.
Qed.

Lemma strip_fences_is_strip_without_fences_witness :
  SQLApp.strip_fences (py "  SELECT name FROM suppliers; ")
  = py "SELECT name FROM suppliers;".
Proof.
  apply (proj2 (strip_fences_is_strip_without_fences
                  (py "  SELECT name FROM suppliers; "))).
  split; vm_compute; reflexivity.
Defined.

End FenceProps.

(* ====================================================================== *)
(** ** More on the counts of the validator *)
(* ====================================================================== *)

Import ListNotations PyStr Prog.
Local Open Scope list_scope.
Local Open Scope nat_scope.

Module CountProps.

Import Re ReAux CharFacts ReFacts StrFacts CountFacts Occurrence.

#[local] Arguments py : simpl never.
#[local] Arguments passed : simpl never.

(** *** What a position sees of the text before it *)

Lemma forbidden_at_bef (tokens : list pystr) (b1 b2 rest : pystr) :
  word_before b1 = word_before b2 ->
  forbidden_at tokens b1 rest = forbidden_at tokens b2 rest.
Proof.
  intros Hb. unfold forbidden_at, whole_word_at. rewrite Hb. reflexivity.
Qed.

Lemma count_forbidden_bef (tokens : list pystr) (rest b1 b2 : pystr) :
  word_before b1 = word_before b2 ->
  count_positions (forbidden_at tokens) b1 rest
  = count_positions (forbidden_at tokens) b2 rest.
Proof.
  revert b1 b2. induction rest as [|c rest IH]; intros b1 b2 Hb; cbn.
  - rewrite (forbidden_at_bef tokens b1 b2) by exact Hb. reflexivity.
  - rewrite (forbidden_at_bef tokens b1 b2) by exact Hb.
    rewrite (IH (c :: b1) (c :: b2)) by reflexivity. reflexivity.
Qed.

Lemma token_not_at_separator (w : pystr) (c : ascii) (y : pystr) :
  is_token w = true -> is_word c = false -> starts_ic w (c :: y) = false.
Proof.
  intros Hw Hc. apply is_token_spec in Hw as [Hlen Hw].
  destruct w as [|x w]; [cbn in Hlen; lia|].
  cbn in Hw |- *. apply andb_true_iff in Hw as [Hx _].
  destruct (eqb_ic x c) eqn:E; [|reflexivity].
  apply eqb_ic_word in E. congruence.
Qed.

Lemma forbidden_not_at_separator (tokens : list pystr) (b : pystr) (c : ascii) (y : pystr) :
  forallb is_token tokens = true -> is_word c = false ->
  forbidden_at tokens b (c :: y) = false.
Proof.
  intros Hall Hc. unfold forbidden_at.
  induction tokens as [|w tokens IH]; [reflexivity|].
  cbn in Hall. apply andb_true_iff in Hall as [Hw Hall].
  cbn [existsb]. rewrite IH by exact Hall.
  unfold whole_word_at. rewrite token_not_at_separator by assumption.
  reflexivity.
Qed.

Lemma forbidden_nil (tokens : list pystr) (b : pystr) :
  forallb is_token tokens = true -> forbidden_at tokens b [] = false.
Proof.
  intros Hall. unfold forbidden_at.
  induction tokens as [|w tokens IH]; [reflexivity|].
  cbn in Hall. apply andb_true_iff in Hall as [Hw Hall].
  cbn [existsb]. rewrite IH by exact Hall.
  rewrite whole_word_nil by exact Hw. reflexivity.
Qed.

Lemma forbidden_local (tokens : list pystr) (b s y : pystr) :
  forallb is_token tokens = true -> word_after y = false ->
  forbidden_at tokens b (s ++ y) = forbidden_at tokens b s.
Proof.
  intros Hall Hy. unfold forbidden_at.
  induction tokens as [|w tokens IH]; [reflexivity|].
  cbn in Hall. apply andb_true_iff in Hall as [Hw Hall].
  apply is_token_spec in Hw as [_ Hw].
  cbn [existsb]. rewrite IH by exact Hall.
  rewrite whole_word_local by assumption. reflexivity.
Qed.

(** Whole words on the two sides of a character that is not a word
    character are counted apart. *)
Lemma count_whole_words_split (tokens : list pystr) (x : pystr) (c : ascii) (y : pystr) :
  forallb is_token tokens = true -> is_word c = false ->
  count_whole_words tokens (x ++ c :: y)
  = count_whole_words tokens x + count_whole_words tokens y.
Proof.
  intros Hall Hc. unfold count_whole_words.
  rewrite count_positions_app.
  - f_equal. cbn [count_positions].
    rewrite forbidden_not_at_separator by assumption.
    apply count_forbidden_bef. cbn. exact Hc.
  - intros b. apply forbidden_nil. exact Hall.
  - intros x1 c' x2 _.
    change (c' :: x2 ++ c :: y) with ((c' :: x2) ++ c :: y).
    apply forbidden_local; [exact Hall | exact Hc].
Qed.

(** X12.  The count is additive across any character that is not a word
    character (a space, a semicolon, a quote, a parenthesis): the
    forbidden tokens of [x + c + y] are those of [x] plus those of [y].
    So the count of a script is the sum of the counts of its statements,
    and a token inside a quoted string or a comment is counted like any
    other. *)
Theorem count_forbidden_tokens_is_additive (tokens : list pystr)
    (x : pystr) (c : ascii) (y : pystr) :
  tokens <> [] -> forallb is_token tokens = true ->
  is_word c = false ->
  Validator.count_forbidden_tokens tokens (x ++ c :: y)
  = Validator.count_forbidden_tokens tokens x
    + Validator.count_forbidden_tokens tokens y.
Proof.
  intros Hne Hall Hc. unfold Validator.count_forbidden_tokens.
  rewrite !count_forbidden_is_count_whole_words by assumption.
  apply count_whole_words_split; assumption.
Qed.

Lemma count_forbidden_tokens_is_additive_witness :
  Validator.count_forbidden_tokens default_forbidden_tokens
    (py "DROP TABLE a" ++ ";"%char :: py " SELECT 'delete'")
  = Validator.count_forbidden_tokens default_forbidden_tokens (py "DROP TABLE a")
    + Validator.count_forbidden_tokens default_forbidden_tokens (py " SELECT 'delete'").
Proof.
  apply count_forbidden_tokens_is_additive; [discriminate | reflexivity | reflexivity].
Defined.

(** *** A single word *)

Lemma starts_ic_all (w s : pystr) :
  length w = length s -> starts_ic w s = pystr_eqb (lower w) (lower s).
Proof.
  revert s. induction w as [|x w IH]; intros [|c s] Hlen; try discriminate Hlen.
  - reflexivity.
  - cbn. rewrite IH by (cbn in Hlen; lia). reflexivity.
Qed.

Lemma pystr_eqb_length (a b : pystr) : pystr_eqb a b = true -> length a = length b.
Proof. intros H. apply pystr_eqb_eq in H. congruence. Qed.

Lemma word_after_skipn_word (s : pystr) (k : nat) :
  forallb is_word s = true -> word_after (skipn k s) = (k <? length s).
Proof.
  revert k. induction s as [|c s IH]; intros k Hs.
  - destruct k; reflexivity.
  - cbn in Hs. apply andb_true_iff in Hs as [Hc Hs].
    destruct k as [|k]; [cbn; exact Hc|].
    cbn [skipn length]. rewrite IH by exact Hs. reflexivity.
Qed.

Lemma whole_word_at_word (w s : pystr) :
  forallb is_word s = true ->
  whole_word_at w [] s = pystr_eqb (lower w) (lower s).
Proof.
  intros Hs. unfold whole_word_at. cbn [word_before negb]. rewrite andb_true_r.
  rewrite word_after_skipn_word by exact Hs.
  destruct (starts_ic w s) eqn:Hst.
  - pose proof (starts_ic_length w s Hst) as Hle.
    destruct (length w <? length s) eqn:Hlt.
    + apply Nat.ltb_lt in Hlt. cbn.
      destruct (pystr_eqb (lower w) (lower s)) eqn:E; [|reflexivity].
      apply pystr_eqb_length in E. unfold lower in E. rewrite !length_map in E. lia.
    + apply Nat.ltb_ge in Hlt. cbn. rewrite <- starts_ic_all by lia. symmetry. exact Hst.
  - cbn. destruct (pystr_eqb (lower w) (lower s)) eqn:E; [|reflexivity].
    pose proof (pystr_eqb_length _ _ E) as Hlen.
    unfold lower in Hlen. rewrite !length_map in Hlen.
    rewrite <- starts_ic_all in E by exact Hlen. congruence.
Qed.

Lemma forbidden_after_word (tokens : list pystr) (b rest : pystr) :
  word_before b = true -> forbidden_at tokens b rest = false.
Proof.
  intros Hb. unfold forbidden_at.
  induction tokens as [|w tokens IH]; [reflexivity|].
  cbn [existsb]. rewrite IH. unfold whole_word_at. rewrite Hb.
  cbn. rewrite andb_false_r. reflexivity.
Qed.

Lemma no_word_inside_word (tokens : list pystr) (s b : pystr) :
  forallb is_word s = true -> word_before b = true ->
  count_positions (forbidden_at tokens) b s = 0.
Proof.
  revert b. induction s as [|c s IH]; intros b Hs Hb.
  - cbn. rewrite forbidden_after_word by exact Hb. reflexivity.
  - cbn in Hs. apply andb_true_iff in Hs as [Hc Hs].
    cbn [count_positions]. rewrite IH by (exact Hs || exact Hc).
    rewrite forbidden_after_word by exact Hb. reflexivity.
Qed.

(** X13.  On text of code points 0 to 255 (the strings of this
    development), a word (a run of letters, digits and underscores,
    standing alone) counts 1 when its [lower()] is the [lower()] of one
    of the tokens, and 0 otherwise: a token inside a longer word, as in
    [updated_at], [dropdown] or [created], is not counted.  Beyond code
    point 255 [re.IGNORECASE] equates more characters than [str.lower]
    does (the capital I with a dot, U+0130, matches [i]); such text is
    not covered here. *)
Theorem word_counts_only_as_a_whole (tokens : list pystr) (word : pystr) :
  tokens <> [] -> forallb is_token tokens = true ->
  word <> [] -> forallb is_word word = true ->
  Validator.count_forbidden_tokens tokens word
  = if existsb (fun w => pystr_eqb (lower w) (lower word)) tokens then 1 else 0.
Proof.
  intros Hne Hall Hw Hword. unfold Validator.count_forbidden_tokens.
  rewrite count_forbidden_is_count_whole_words by assumption.
  unfold count_whole_words.
  destruct word as [|c word]; [contradiction|].
  cbn [count_positions].
  cbn in Hword. apply andb_true_iff in Hword as [Hc Hrest].
  rewrite no_word_inside_word by (exact Hrest || exact Hc).
  rewrite Nat.add_0_r. unfold forbidden_at.
  assert (Hsame : forall w,
            whole_word_at w [] (c :: word)
            = pystr_eqb (lower w) (lower (c :: word))).
  { intros w. apply whole_word_at_word. cbn. rewrite Hc. exact Hrest. }
  clear Hall Hne. induction tokens as [|w tokens IH]; [reflexivity|].
  cbn [existsb]. rewrite Hsame.
  destruct (pystr_eqb (lower w) (lower (c :: word))); [reflexivity | exact IH].
Qed.

Lemma word_counts_only_as_a_whole_witness :
  Validator.count_forbidden_tokens default_forbidden_tokens (py "updated_at") = 0
  /\ Validator.count_forbidden_tokens default_forbidden_tokens (py "UpDate") = 1.
Proof.
  split.
  - rewrite word_counts_only_as_a_whole; [reflexivity | discriminate | reflexivity
                                          | discriminate | reflexivity].
  - rewrite word_counts_only_as_a_whole; [reflexivity | discriminate | reflexivity
                                          | discriminate | reflexivity].
Defined.

(** *** Letter case *)

Lemma eqb_ic_lower (x c : ascii) : eqb_ic x (lower_char c) = eqb_ic x c.
Proof. unfold eqb_ic. rewrite lower_char_idem. reflexivity. Qed.

Lemma starts_ic_lower (w s : pystr) : starts_ic w (lower s) = starts_ic w s.
Proof.
  revert s. induction w as [|x w IH]; intros [|c s]; try reflexivity.
  cbn. rewrite eqb_ic_lower. f_equal. apply IH.
Qed.

Lemma word_before_lower (b : pystr) : word_before (lower b) = word_before b.
Proof. destruct b; [reflexivity | apply is_word_lower]. Qed.

Lemma word_after_lower (r : pystr) : word_after (lower r) = word_after r.
Proof. destruct r; [reflexivity | apply is_word_lower]. Qed.

Lemma skipn_lower (n : nat) (s : pystr) : skipn n (lower s) = lower (skipn n s).
Proof. unfold lower. apply skipn_map. Qed.

Lemma whole_word_at_lower (w b r : pystr) :
  whole_word_at w (lower b) (lower r) = whole_word_at w b r.
Proof.
  unfold whole_word_at.
  rewrite starts_ic_lower, word_before_lower, skipn_lower, word_after_lower.
  reflexivity.
Qed.

Lemma forbidden_at_lower (tokens : list pystr) (b r : pystr) :
  forbidden_at tokens (lower b) (lower r) = forbidden_at tokens b r.
Proof.
  unfold forbidden_at. induction tokens as [|w tokens IH]; [reflexivity|].
  cbn [existsb]. rewrite IH, whole_word_at_lower. reflexivity.
Qed.

Lemma paren_lower (c : ascii) : ascii_eqb (lower_char c) "(" = ascii_eqb c "(".
Proof. all_chars c. Qed.

Lemma subquery_at_lower (r : pystr) : subquery_at (lower r) = subquery_at r.
Proof.
  destruct r as [|c r]; [reflexivity|].
  change (lower (c :: r)) with (lower_char c :: lower r).
  cbn [subquery_at].
  rewrite paren_lower, drop_while_lower, starts_ic_lower, skipn_lower, word_after_lower.
  reflexivity.
Qed.

Lemma count_positions_lower (f : pystr -> pystr -> bool) :
  (forall b r, f (lower b) (lower r) = f b r) ->
  forall r b,
    count_positions f (lower b) (lower r) = count_positions f b r.
Proof.
  intros Hf. induction r as [|c r IH]; intros b.
  - change (lower []) with (@nil ascii). cbn [count_positions].
    rewrite <- (Hf b []). reflexivity.
  - change (lower (c :: r)) with (lower_char c :: lower r).
    cbn [count_positions].
    change (lower_char c :: lower r) with (lower (c :: r)).
    rewrite Hf.
    change (lower_char c :: lower b) with (lower (c :: b)).
    rewrite IH. reflexivity.
Qed.

(** X14.  On text of code points 0 to 255 (the strings of this
    development), neither count depends on the letter case of the SQL:
    the lowercased text has the same number of forbidden tokens and the
    same complexity.  Beyond code point 255 this fails ([str.lower] and
    [re.IGNORECASE] disagree on U+0130); such text is not covered
    here. *)
Theorem counts_ignore_letter_case (tokens : list pystr) (sql : pystr) :
  tokens <> [] -> forallb is_token tokens = true ->
  Validator.count_forbidden_tokens tokens (lower sql)
  = Validator.count_forbidden_tokens tokens sql
  /\ Validator.compute_complexity (lower sql) = Validator.compute_complexity sql.
Proof.
  intros Hne Hall. split.
  - unfold Validator.count_forbidden_tokens.
    rewrite !count_forbidden_is_count_whole_words by assumption.
    unfold count_whole_words.
    apply (count_positions_lower _ (forbidden_at_lower tokens) sql []).
  - rewrite !complexity_is_count. unfold count_joins, count_subqueries. f_equal.
    + apply (count_positions_lower _ (whole_word_at_lower (py "join")) sql []).
    + apply (count_positions_lower (fun _ r => subquery_at r)
               (fun _ r => subquery_at_lower r) sql []).
Qed.

Lemma counts_ignore_letter_case_witness :
  Validator.count_forbidden_tokens default_forbidden_tokens
    (lower (py "Drop Table T; SELECT * FROM a JOIN (Select 1) b"))
  = Validator.count_forbidden_tokens default_forbidden_tokens
      (py "Drop Table T; SELECT * FROM a JOIN (Select 1) b")
  /\ Validator.compute_complexity
       (lower (py "Drop Table T; SELECT * FROM a JOIN (Select 1) b"))
     = Validator.compute_complexity
         (py "Drop Table T; SELECT * FROM a JOIN (Select 1) b").
Proof.
  apply counts_ignore_letter_case; [discriminate | reflexivity].
Defined.

(** *** Statements side by side *)

Lemma count_joins_split (x : pystr) (c : ascii) (y : pystr) :
  is_word c = false ->
  count_joins (x ++ c :: y) = count_joins x + count_joins y.
Proof.
  intros Hc.
  pose proof (count_whole_words_split [py "join"] x c y eq_refl Hc) as H.
  unfold count_whole_words in H. unfold count_joins.
  rewrite !(count_positions_ext (forbidden_at [py "join"]) (whole_word_at (py "join")))
    in H; [exact H | | | ];
    intros; unfold forbidden_at; cbn [existsb]; apply orb_false_r.
Qed.

Lemma count_subqueries_split (x : pystr) (c : ascii) (y : pystr) :
  is_word c = false -> is_space c = false -> ascii_eqb c "(" = false ->
  count_subqueries (x ++ c :: y) = count_subqueries x + count_subqueries y.
Proof.
  intros Hw Hs Hp. unfold count_subqueries.
  rewrite count_positions_app.
  - f_equal. cbn [count_positions subquery_at]. rewrite Hp.
    cbn [andb Nat.add]. apply count_subquery_bef.
  - reflexivity.
  - intros x1 c' x2 _.
    apply subquery_local; [exact Hw|].
    cbn [drop_while]. rewrite Hs.
    apply (token_not_at_separator (py "select")); [reflexivity | exact Hw].
Qed.

(** X15.  The complexity is additive across a character that is neither
    a word character, nor white space, nor an opening parenthesis (a
    semicolon, a comma, a closing parenthesis): the score of [x + c + y]
    is the score of [x] plus the score of [y]. *)
Theorem compute_complexity_is_additive (x : pystr) (c : ascii) (y : pystr) :
  is_word c = false -> is_space c = false -> ascii_eqb c "(" = false ->
  Validator.compute_complexity (x ++ c :: y)
  = Validator.compute_complexity x + Validator.compute_complexity y.
Proof.
  intros Hw Hs Hp. rewrite !complexity_is_count.
  rewrite count_joins_split by exact Hw.
  rewrite count_subqueries_split by assumption.
  lia.
Qed.

Lemma compute_complexity_is_additive_witness :
  Validator.compute_complexity
    (py "SELECT * FROM a JOIN b ON a.x = b.x" ++ ";"%char
       :: py " SELECT * FROM (SELECT 1) t")
  = Validator.compute_complexity (py "SELECT * FROM a JOIN b ON a.x = b.x")
    + Validator.compute_complexity (py " SELECT * FROM (SELECT 1) t").
Proof.
  apply compute_complexity_is_additive; reflexivity.
Defined.

(** *** No token configured *)

Lemma match_no_token (bef rest : pystr) :
  match_at true (Validator.forbidden_pattern []) bef rest
  = if at_boundary bef rest then Some 0 else None.
Proof.
  unfold match_at, Validator.forbidden_pattern. cbn.
  destruct (at_boundary bef rest); [|reflexivity].
  rewrite Nat.sub_diag. reflexivity.
Qed.

Lemma scan_no_token (rest bef : pystr) :
  length (scan true (Validator.forbidden_pattern []) bef rest 0)
  = count_positions at_boundary bef rest.
Proof.
  revert bef. induction rest as [|c rest IH]; intros bef.
  - cbn [scan count_positions]. rewrite match_no_token.
    destruct (at_boundary bef []); reflexivity.
  - cbn [scan count_positions]. rewrite match_no_token.
    destruct (at_boundary bef (c :: rest)); cbn [length Nat.sub]; rewrite IH; reflexivity.
Qed.

Lemma boundary_after_word (s bef : pystr) :
  word_before bef = true -> 1 <= count_positions at_boundary bef s.
Proof.
  revert bef. induction s as [|c s IH]; intros bef Hb.
  - cbn. unfold at_boundary. rewrite Hb. cbn. lia.
  - cbn [count_positions]. unfold at_boundary at 1. rewrite Hb. cbn [word_after].
    destruct (is_word c) eqn:Hc; cbn [xorb negb].
    + specialize (IH (c :: bef) Hc). lia.
    + lia.
Qed.

Lemma boundaries_of_a_word (s bef : pystr) :
  word_before bef = false -> existsb is_word s = true ->
  2 <= count_positions at_boundary bef s.
Proof.
  revert bef. induction s as [|c s IH]; intros bef Hb Hex; [discriminate Hex|].
  cbn [count_positions]. unfold at_boundary at 1. rewrite Hb. cbn [word_after xorb].
  cbn in Hex. destruct (is_word c) eqn:Hc.
  - pose proof (boundary_after_word s (c :: bef) Hc). lia.
  - cbn in Hex. specialize (IH (c :: bef) Hc Hex). lia.
Qed.

(** X16.  With an empty list of tokens the pattern is [\b()\b], which
    matches the empty text at every word boundary: the count is then the
    number of word boundaries of the SQL, not 0, and it is at least 2 as
    soon as the SQL holds a word character. *)
Theorem no_token_counts_word_boundaries (sql : pystr) :
  Validator.count_forbidden_tokens [] sql = count_positions at_boundary [] sql
  /\ (existsb is_word sql = true -> 2 <= Validator.count_forbidden_tokens [] sql).
Proof.
  assert (H : Validator.count_forbidden_tokens [] sql
              = count_positions at_boundary [] sql) by apply scan_no_token.
  split; [exact H|].
  intros Hex. rewrite H. apply boundaries_of_a_word; [reflexivity | exact Hex].
Qed.

Lemma no_token_counts_word_boundaries_witness :
  Validator.count_forbidden_tokens [] (py "SELECT 1") = 4
  /\ 2 <= Validator.count_forbidden_tokens [] (py "SELECT 1").
Proof.
  split; [vm_compute; reflexivity|].
  apply (proj2 (no_token_counts_word_boundaries (py "SELECT 1"))). reflexivity.
Defined.

End CountProps.

(* ====================================================================== *)
(** ** More on the similarity *)
(* ====================================================================== *)

Import ListNotations PyStr Prog.
Local Open Scope list_scope.
Local Open Scope nat_scope.

Module MatchingFacts.

Import Difflib DifflibAux DifflibFacts Matching.

Lemma ascii_same (x y : ascii) : ascii_eqb x y = true -> x = y.
Proof. apply Ascii.eqb_eq. Qed.

Section Valid.

Variables a b : pystr.

Lemma same_elt_agree (i j : nat) :
  same_elt a b i j = true -> exists x, a !! i = Some x /\ b !! j = Some x.
Proof.
  unfold same_elt. destruct (a !! i) as [x|]; [|discriminate].
  destruct (b !! j) as [y|]; [|discriminate].
  intros H. apply ascii_same in H. subst y. eauto.
Qed.

Lemma agree_grow_end (i j k : nat) :
  agree a b i j k ->
  (exists x, a !! (i + k) = Some x /\ b !! (j + k) = Some x) ->
  agree a b i j (S k).
Proof.
  intros Hag Hend t Ht. destruct (decide (t = k)) as [-> | Hne]; [exact Hend|].
  apply Hag. lia.
Qed.

Lemma agree_grow_start (i j k : nat) :
  agree a b (S i) (S j) k ->
  (exists x, a !! i = Some x /\ b !! j = Some x) ->
  agree a b i j (S k).
Proof.
  intros Hag Hstart t Ht. destruct t as [|t].
  - rewrite !Nat.add_0_r. exact Hstart.
  - replace (i + S t) with (S i + t) by lia.
    replace (j + S t) with (S j + t) by lia. apply Hag. lia.
Qed.

Lemma agree_nil (i j : nat) : agree a b i j 0.
Proof. intros t Ht. lia. Qed.

(** The lengths that the inner loop records are lengths of matches. *)
Lemma inner_valid (i : nat) (x : ascii) (j2len : gmap nat nat) :
  a !! i = Some x ->
  row_valid a b i j2len ->
  forall js newj2len best,
    (forall j, In j js -> b !! j = Some x) ->
    row_valid a b (S i) newj2len ->
    block_valid a b best ->
    forall blo bhi,
      let st := inner i blo bhi js j2len newj2len best in
      row_valid a b (S i) st.1 /\ block_valid a b st.2.
Proof.
  intros Hx Hrow. induction js as [|j js IH]; intros newj2len best Hjs Hnew Hbest blo bhi.
  - cbn. auto.
  - cbn [inner]. destruct (j <? blo); [apply IH; auto; intros; apply Hjs; right; assumption|].
    destruct (bhi <=? j); [cbn; auto|].
    assert (Hbj : b !! j = Some x) by (apply Hjs; left; reflexivity).
    assert (Hk : j2lenget j2len j + 1 <= S i
                 /\ j2lenget j2len j + 1 <= j + 1
                 /\ agree a b (S i - (j2lenget j2len j + 1))
                      (j + 1 - (j2lenget j2len j + 1)) (j2lenget j2len j + 1)).
    { destruct j as [|j']; cbn [j2lenget].
      - split; [lia|]. split; [lia|]. cbn.
        replace (i - 0) with i by lia.
        intros t Ht. assert (t = 0) by lia. subst t.
        rewrite !Nat.add_0_r. eauto.
      - destruct (j2len !! j') as [k'|] eqn:Hk'; simpl.
        + destruct (Hrow _ _ Hk') as (H1 & H2 & H3).
          split; [lia|]. split; [lia|].
          replace (k' + 1) with (S k') by lia.
          replace (S i - S k') with (i - k') by lia.
          match goal with
          | |- agree a b _ ?n _ => replace n with (j' + 1 - k') by lia
          end.
          apply agree_grow_end; [exact H3|].
          replace (i - k' + k') with i by lia.
          replace (j' + 1 - k' + k') with (S j') by lia. eauto.
        + split; [lia|]. split; [lia|].
          match goal with
          | |- agree a b ?m ?n ?k =>
              replace m with i by lia; replace n with (S j') by lia;
              replace k with 1 by lia
          end.
          intros t Ht. assert (t = 0) by lia. subst t.
          rewrite !Nat.add_0_r. eauto. }
    destruct Hk as (Hk1 & Hk2 & Hk3).
    apply IH.
    + intros j0 Hin. apply Hjs. right. exact Hin.
    + intros j0 k0. destruct (decide (j0 = j)) as [-> | Hne].
      * rewrite lookup_insert_eq. intros [= <-]. auto.
      * rewrite lookup_insert_ne by congruence. apply Hnew.
    + destruct (size best <? j2lenget j2len j + 1); [|exact Hbest].
      unfold block_valid. cbn [fst snd].
      replace (i + 1) with (S i) by lia. exact Hk3.
Qed.

Lemma b2j_indices (x : ascii) (j : nat) :
  In j (default [] (b2j b !! x)) -> b !! j = Some x.
Proof.
  rewrite b2j_lookup. destruct (kept b x); [|intros []].
  intros Hin. apply positions_spec in Hin as (k & -> & Hk). exact Hk.
Qed.

Lemma outer_valid (blo bhi : nat) (n : nat) :
  forall i st,
    row_valid a b i st.1 -> block_valid a b st.2 ->
    let st' := foldl (outer_step a b blo bhi) st (seq i n) in
    block_valid a b st'.2.
Proof.
  induction n as [|n IH]; intros i st Hrow Hbest; [exact Hbest|].
  cbn [seq foldl]. unfold outer_step at 2.
  destruct (a !! i) as [x|] eqn:Hx.
  - destruct (inner_valid i x st.1 Hx Hrow (default [] (b2j b !! x)) ∅ st.2)
      with (blo := blo) (bhi := bhi) as [Hrow' Hbest'].
    + intros j. apply b2j_indices.
    + intros j k Hk. rewrite lookup_empty in Hk. discriminate Hk.
    + exact Hbest.
    + apply IH; assumption.
  - cbn [inner]. apply IH; [|exact Hbest].
    intros j k Hk. cbn in Hk. rewrite lookup_empty in Hk. discriminate Hk.
Qed.

Lemma extend_back_valid (junk : bool) (alo blo : nat) :
  forall besti bestj bestsize,
    agree a b besti bestj bestsize ->
    block_valid a b (extend_back a b junk alo blo besti bestj bestsize).
Proof.
  induction besti as [|i IH]; intros bestj bestsize Hag; [exact Hag|].
  cbn [extend_back]. destruct bestj as [|j]; [exact Hag|].
  destruct (_ && _) eqn:Hc; [|exact Hag].
  apply IH. apply andb_true_iff in Hc as [_ Hc].
  apply agree_grow_start; [exact Hag | apply same_elt_agree; exact Hc].
Qed.

Lemma extend_fwd_valid (junk : bool) (ahi bhi : nat) (fuel : nat) :
  forall besti bestj bestsize,
    agree a b besti bestj bestsize ->
    block_valid a b (extend_fwd a b junk ahi bhi fuel besti bestj bestsize).
Proof.
  induction fuel as [|fuel IH]; intros besti bestj bestsize Hag; [exact Hag|].
  cbn [extend_fwd]. destruct (_ && _) eqn:Hc; [|exact Hag].
  apply IH. apply andb_true_iff in Hc as [_ Hc].
  apply agree_grow_end; [exact Hag | apply same_elt_agree; exact Hc].
Qed.

(** The block of [find_longest_match] is a real match. *)
Lemma find_longest_match_valid (alo ahi blo bhi : nat) :
  block_valid a b (find_longest_match a b alo ahi blo bhi).
Proof.
  unfold find_longest_match, fwd, back.
  pose proof (outer_valid blo bhi (ahi - alo) alo (∅, (alo, blo, 0))) as Hbest.
  cbn zeta in Hbest.
  set (st := foldl _ _ _) in *.
  assert (H0 : block_valid a b st.2).
  { apply Hbest.
    - intros j k Hk. cbn in Hk. rewrite lookup_empty in Hk. discriminate Hk.
    - apply agree_nil. }
  destruct st.2 as [[i0 j0] k0]. cbn [fst snd].
  pose proof (extend_back_valid false alo blo i0 j0 k0 H0) as H1.
  destruct (extend_back a b false alo blo i0 j0 k0) as [[i1 j1] k1]. cbn [fst snd].
  pose proof (extend_fwd_valid false ahi bhi (ahi - (i1 + k1)) i1 j1 k1 H1) as H2.
  destruct (extend_fwd a b false ahi bhi _ i1 j1 k1) as [[i2 j2] k2]. cbn [fst snd].
  pose proof (extend_back_valid true alo blo i2 j2 k2 H2) as H3.
  destruct (extend_back a b true alo blo i2 j2 k2) as [[i3 j3] k3]. cbn [fst snd].
  apply extend_fwd_valid. exact H3.
Qed.

End Valid.

(** *** The blocks spell a common subsequence *)

Lemma sublist_same_length {A : Type} (l1 l2 : list A) :
  l1 `sublist_of` l2 -> length l2 <= length l1 -> l1 = l2.
Proof.
  induction 1 as [|x l1 l2 Hsub IH|x l1 l2 Hsub IH]; intros Hlen.
  - reflexivity.
  - cbn in Hlen. f_equal. apply IH. lia.
  - apply sublist_length in Hsub. cbn in Hlen. lia.
Qed.

Lemma slice_split (s : pystr) (alo i k ahi : nat) :
  alo <= i -> i + k <= ahi ->
  slice s alo ahi = slice s alo i ++ slice s i (i + k) ++ slice s (i + k) ahi.
Proof.
  intros H1 H2. unfold slice.
  replace (ahi - alo) with ((i - alo) + (k + (ahi - (i + k)))) by lia.
  rewrite <- take_take_drop. f_equal.
  rewrite <- take_take_drop.
  rewrite !drop_drop.
  replace (alo + (i - alo)) with i by lia.
  replace (i + k - i) with k by lia. reflexivity.
Qed.

Lemma list_sum_cons (x : nat) (l : list nat) : list_sum (x :: l) = x + list_sum l.
Proof. reflexivity. Qed.

Lemma slice_all (s : pystr) : slice s 0 (length s) = s.
Proof. unfold slice. rewrite Nat.sub_0_r. cbn [drop]. apply firstn_all. Qed.

Section Common.

Variables a b : pystr.

Lemma agree_slices (i j k : nat) :
  agree a b i j k ->
  slice a i (i + k) = slice b j (j + k) /\ length (slice a i (i + k)) = k.
Proof.
  intros Hag. unfold slice.
  replace (i + k - i) with k by lia. replace (j + k - j) with k by lia.
  split.
  - apply list_eq. intros t.
    destruct (Nat.lt_ge_cases t k) as [Ht | Ht].
    + rewrite !lookup_take_lt, !lookup_drop by exact Ht.
      destruct (Hag t Ht) as (x & Hx & Hy).
      etransitivity; [exact Hx | symmetry; exact Hy].
    + rewrite !lookup_take_ge by exact Ht. reflexivity.
  - rewrite length_take, length_drop.
    destruct k as [|k]; [lia|].
    destruct (Hag k ltac:(lia)) as (x & Hx & _).
    apply lookup_lt_Some in Hx. lia.
Qed.

(** A match between two windows that hold common subsequences makes a
    longer one. *)
Lemma realisable_join (alo ahi blo bhi i j k nl nr : nat) :
  within alo ahi blo bhi (i, j, k) ->
  block_valid a b (i, j, k) ->
  realisable a b (alo, i, blo, j) nl ->
  realisable a b (i + k, ahi, j + k, bhi) nr ->
  realisable a b (alo, ahi, blo, bhi) (nl + k + nr).
Proof.
  intros Hin Hval (sl & Hll & Hla & Hlb) (sr & Hrl & Hra & Hrb).
  unfold within in Hin. cbn [fst snd] in *.
  destruct (agree_slices i j k Hval) as [Heq Hlen].
  exists (sl ++ slice a i (i + k) ++ sr). cbn [fst snd]. split; [|split].
  - rewrite !length_app, Hll, Hrl, Hlen. lia.
  - rewrite (slice_split a alo i k ahi) by lia.
    apply sublist_app; [exact Hla|]. apply sublist_app; [reflexivity | exact Hra].
  - rewrite (slice_split b blo j k bhi) by lia. rewrite Heq.
    apply sublist_app; [exact Hlb|]. apply sublist_app; [reflexivity | exact Hrb].
Qed.

Lemma realisable_nothing (w : window) : realisable a b w 0.
Proof. exists []. split; [reflexivity|]. split; apply sublist_nil_l. Qed.

(** What the loop adds to the blocks is the size of common subsequences
    of the windows still to search. *)
Lemma blocks_loop_common (fuel : nat) :
  forall queue acc res,
    Forall window_ok queue ->
    blocks_loop a b fuel queue acc = Some res ->
    exists ns,
      Forall2 (realisable a b) queue ns
      /\ matched res = matched acc + list_sum ns.
Proof.
  induction fuel as [|fuel IH]; intros queue acc res Hok Hrun.
  - destruct queue as [|[[[alo ahi] blo] bhi] queue]; [|discriminate Hrun].
    cbn in Hrun. injection Hrun as <-. exists []. split; [constructor | cbn; lia].
  - destruct queue as [|[[[alo ahi] blo] bhi] queue].
    + cbn in Hrun. injection Hrun as <-. exists []. split; [constructor | cbn; lia].
    + cbn [blocks_loop] in Hrun.
      inversion Hok as [|w q Hw Hq]; subst.
      destruct Hw as [Ha Hb]. cbn [fst snd] in Ha, Hb.
      pose proof (find_longest_match_within a b alo ahi blo bhi Ha Hb) as Hin.
      pose proof (find_longest_match_valid a b alo ahi blo bhi) as Hval.
      destruct (find_longest_match a b alo ahi blo bhi) as [[i j] k].
      pose proof Hin as Hin'. unfold within in Hin'. cbn [fst snd] in Hin'.
      destruct (k =? 0) eqn:Hk.
      * destruct (IH _ _ _ Hq Hrun) as (ns & Hall & Hsum).
        exists (0 :: ns). split; [constructor; [apply realisable_nothing | exact Hall]|].
        rewrite list_sum_cons. lia.
      * assert (Hjoin : forall nl nr ns,
                  realisable a b (alo, i, blo, j) nl ->
                  realisable a b (i + k, ahi, j + k, bhi) nr ->
                  Forall2 (realisable a b) queue ns ->
                  matched res = matched acc + k + (nr + nl + list_sum ns) ->
                  exists ns',
                    Forall2 (realisable a b) ((alo, ahi, blo, bhi) :: queue) ns'
                    /\ matched res = matched acc + list_sum ns').
        { intros nl nr ns Hl Hr Hall Hsum.
          exists (nl + k + nr :: ns). split.
          - constructor; [|exact Hall].
            apply (realisable_join alo ahi blo bhi i j k); assumption.
          - rewrite list_sum_cons. lia. }
        destruct (Nat.ltb_spec alo i) as [Hai | Hai];
          destruct (Nat.ltb_spec blo j) as [Hbj | Hbj];
          destruct (Nat.ltb_spec (i + k) ahi) as [Hia | Hia];
          destruct (Nat.ltb_spec (j + k) bhi) as [Hjb | Hjb];
          cbn [andb] in Hrun;
          (apply IH in Hrun;
           [ destruct Hrun as (ns2 & Hall & Hsum)
           | repeat (constructor; [unfold window_ok; cbn [fst snd]; lia|]); exact Hq ]);
          repeat match goal with
            | H : Forall2 _ (_ :: _) _ |- _ =>
                apply Forall2_cons_inv_l in H as (? & ? & ? & ? & ->)
            end.
        all: rewrite ?list_sum_cons, matched_app in Hsum.
        all: change (matched [(i, j, k)]) with (k + 0) in Hsum.
        all: first
          [ eapply (Hjoin _ _ _); [eassumption | eassumption | eassumption | lia]
          | eapply (Hjoin 0 _ _);
              [apply realisable_nothing | eassumption | eassumption | lia]
          | eapply (Hjoin _ 0 _);
              [eassumption | apply realisable_nothing | eassumption | lia]
          | eapply (Hjoin 0 0 _);
              [apply realisable_nothing | apply realisable_nothing | eassumption | lia] ].
Qed.

(** The matched elements of [get_matching_blocks] are as many as the
    elements of some common subsequence of the two strings. *)
Lemma get_matching_blocks_common :
  exists blocks s,
    get_matching_blocks a b = Some blocks
    /\ common a b s /\ matched blocks = length s.
Proof.
  destruct (get_matching_blocks_total a b) as (blocks & Hget & _).
  exists blocks. unfold get_matching_blocks in Hget.
  destruct (blocks_loop a b (2 * length a + 1) [(0, length a, 0, length b)] [])
    as [res|] eqn:Hrun; [|discriminate Hget].
  injection Hget as <-.
  assert (Hget : get_matching_blocks a b
                 = Some (collapse (0, 0, 0) (sort_blocks res) ++ [(length a, length b, 0)]))
    by (unfold get_matching_blocks; rewrite Hrun; reflexivity).
  apply blocks_loop_common in Hrun as (ns & Hall & Hsum).
  - apply Forall2_cons_inv_l in Hall as (n & ns' & (s & Hlen & Hs) & Hnil & ->).
    apply Forall2_nil_inv_l in Hnil. subst ns'.
    cbn [fst snd] in Hs. rewrite !slice_all in Hs.
    exists s. split; [exact Hget|]. split; [exact Hs|].
    rewrite matched_app, matched_collapse, matched_sort, Hsum.
    change (matched [(length a, length b, 0)]) with 0.
    change (size (0, 0, 0)) with 0. change (matched []) with 0.
    rewrite list_sum_cons. change (list_sum []) with 0. lia.
  - constructor; [unfold window_ok; cbn; lia | constructor].
Qed.

Lemma ratio_common :
  exists s,
    common a b s
    /\ ratio a b = Some (calculate_ratio (length s) (length a + length b)).
Proof.
  destruct get_matching_blocks_common as (blocks & s & Hget & Hs & Hm).
  exists s. split; [exact Hs|].
  unfold ratio. rewrite Hget. fold (matched blocks). rewrite Hm. reflexivity.
Qed.

End Common.

End MatchingFacts.

Module SimilarityProps.

Import Difflib DifflibAux DifflibFacts Matching MatchingFacts.

Lemma pos_of_nat_Z (n : nat) : n <> 0 -> Z.pos (Pos.of_nat n) = Z.of_nat n.
Proof.
  intros Hn. destruct n; [congruence|]. rewrite <- Pos.of_nat_succ. lia.
Qed.

Lemma calculate_ratio_one (m len : nat) :
  (calculate_ratio m len == 1)%Q -> len = 0 \/ 2 * m = len.
Proof.
  unfold calculate_ratio. destruct (Nat.eqb_spec len 0) as [-> | Hlen]; [auto|].
  unfold Qeq. cbn [Qnum Qden]. rewrite Z.mul_1_r, Z.mul_1_l.
  rewrite pos_of_nat_Z by exact Hlen. intros H. right. lia.
Qed.

Lemma calculate_ratio_zero (len : nat) :
  len <> 0 -> (calculate_ratio 0 len == 0)%Q.
Proof.
  intros Hlen. unfold calculate_ratio.
  destruct (Nat.eqb_spec len 0) as [-> | _]; [congruence|]. reflexivity.
Qed.

(** X17.  The similarity is [2 * M / (len(a) + len(b))] where [M] is the
    length of a common subsequence of the two strings: the matching
    blocks are real matches, they do not overlap and they come in the
    same order in both strings.  (For two empty strings it is 1.) *)
Theorem similarity_counts_a_common_subsequence (a b : pystr) :
  exists s,
    s `sublist_of` a /\ s `sublist_of` b
    /\ Validator.compute_similarity a b
       = Some (calculate_ratio (length s) (length a + length b)).
Proof.
  destruct (get_matching_blocks_common a b) as (blocks & s & Hget & [Ha Hb] & Hm).
  exists s. split; [exact Ha|]. split; [exact Hb|].
  unfold Validator.compute_similarity, ratio. rewrite Hget.
  fold (matched blocks). rewrite Hm. reflexivity.
Qed.

(** X18.  Only identical strings are fully similar: the similarity of
    [a] and [b] is 1 exactly when [a = b]. *)
Theorem similarity_is_one_only_for_equal_strings (a b : pystr) :
  (exists q, Validator.compute_similarity a b = Some q /\ (q == 1)%Q) <-> a = b.
Proof.
  split.
  - intros (q & Hq & H1).
    destruct (ratio_common a b) as (s & [Ha Hb] & Hr).
    unfold Validator.compute_similarity in Hq. rewrite Hr in Hq.
    injection Hq as <-.
    pose proof (sublist_length _ _ Ha) as Hla.
    pose proof (sublist_length _ _ Hb) as Hlb.
    apply calculate_ratio_one in H1 as [H0 | H2].
    + destruct a, b; cbn in H0; try lia. reflexivity.
    + rewrite <- (sublist_same_length s a Ha) by lia.
      apply (sublist_same_length s b Hb). lia.
  - intros <-. apply ratio_same.
Qed.

Lemma similarity_is_one_only_for_equal_strings_witness :
  exists q, Validator.compute_similarity (py "SELECT 1") (py "SELECT 1") = Some q
            /\ (q == 1)%Q.
Proof.
  apply (proj2 (similarity_is_one_only_for_equal_strings (py "SELECT 1") (py "SELECT 1"))).
  reflexivity.
Defined.

(** X19.  Strings without a common character are not similar at all: if
    no character of [a] occurs in [b], and the two are not both empty,
    the matcher returns and the similarity is 0.  This covers the
    comparison of a text that is not empty with the empty string. *)
Theorem similarity_is_zero_without_common_characters (a b : pystr) :
  (forall x, In x a -> In x b -> False) ->
  length a + length b <> 0 ->
  exists q, Validator.compute_similarity a b = Some q /\ (q == 0)%Q.
Proof.
  intros Hno Hlen.
  destruct (ratio_common a b) as (s & [Ha Hb] & Hr).
  unfold Validator.compute_similarity. rewrite Hr.
  eexists. split; [reflexivity|].
  destruct s as [|x s]; [apply calculate_ratio_zero; exact Hlen|].
  exfalso. apply (Hno x).
  - apply list_elem_of_In. eapply elem_of_sublist; [|exact Ha]. left.
  - apply list_elem_of_In. eapply elem_of_sublist; [|exact Hb]. left.
Qed.

Lemma similarity_is_zero_without_common_characters_witness :
  Validator.compute_similarity (py "SELECT 1") [] = Some (0 # 8)%Q
  /\ exists q, Validator.compute_similarity (py "abc") (py "SELECT 1") = Some q
               /\ (q == 0)%Q.
Proof.
  split; [vm_compute; reflexivity|].
  apply (similarity_is_zero_without_common_characters (py "abc") (py "SELECT 1")).
  - intros x Ha Hb. cbn in Ha, Hb.
    repeat (destruct Ha as [<- | Ha]; [repeat (destruct Hb as [Hb | Hb]; [discriminate Hb|]); exact Hb|]).
    exact Ha.
  - discriminate.
Defined.

End SimilarityProps.

(* ====================================================================== *)
(** ** The LLM wrapper *)
(* ====================================================================== *)

Import ListNotations PyStr Prog.
Local Open Scope list_scope.

Module LLMProps.

Import Json OpenRouterLLM StrFacts.

#[local] Arguments py : simpl never.

Lemma dict_get_in (key : pystr) (d : list (pystr * value)) (v : value) :
  dict_get key d = Some v -> In (key, v) d.
Proof.
  induction d as [|[k x] d IH]; [discriminate|].
  cbn [dict_get]. destruct (pystr_eqb k key) eqn:E.
  - apply pystr_eqb_eq in E. subst k. intros [= ->]. left. reflexivity.
  - intros H. right. apply IH. exact H.
Qed.

(** X20.  One call of [create_chat_completion] sends exactly one request
    and never a second one: to the endpoint of the wrapper, with the key
    as bearer token (the text "None" when no key is configured) and the
    model and the messages as payload.  An exception of the request
    leaves the method; an answer whose status is not 200 makes it raise a
    [RuntimeError] whose text holds the status and the body, whatever the
    body is. *)
Theorem chat_completion_sends_one_request {St : Type}
    (h : env HttpE St) (s s' : St) (self : OpenRouterLLM.t) (messages : value)
    (out : outcome value) (tr : list (obs HttpE)) :
  interp h (create_chat_completion self messages) s = (out, s', tr) ->
  exists r,
    post_calls tr
    = [(endpoint self,
        [(py "Authorization", py "Bearer " ++ str_of_option (api_key self));
         (py "Content-Type", py "application/json")],
        Dict [(py "model", Str (model self)); (py "messages", messages)],
        r)]
    /\ match r with
       | inl e => out = Raised e
       | inr resp =>
           status_code resp <> 200%Z ->
           out = Raised (to_exn (mk_error RuntimeError
                   (py "OpenRouter API Error " ++ str_of_Z (status_code resp)
                    ++ py ": " ++ text resp)))
       end.
Proof.
  unfold create_chat_completion. cbn.
  destruct (h _ _ s) as [[e | resp] s1] eqn:Hstep; cbn.
  - intros Heq; simplify_eq. eexists. split; [reflexivity|]. reflexivity.
  - destruct (status_code resp =? 200)%Z eqn:Hst; cbn.
    + apply Z.eqb_eq in Hst.
      destruct (json resp) as [e | data]; cbn.
      * intros Heq; simplify_eq. eexists. split; [reflexivity|].
        intros Hne. contradiction.
      * destruct (content_of data) as [e | c]; cbn; intros Heq; simplify_eq;
          (eexists; split; [reflexivity|]; intros Hne; contradiction).
    + intros Heq; simplify_eq. eexists. split; [reflexivity|].
      intros _. reflexivity.
Qed.

Lemma chat_completion_sends_one_request_witness :
  exists tr,
    interp (server too_many_requests)
      (create_chat_completion (make None) (List [])) tt
    = (Raised (mk_exn OtherException (py "OpenRouter API Error 429: rate limited")),
       tt, tr)
    /\ map (fun c => c.1.1.2) (post_calls tr)
       = [[(py "Authorization", py "Bearer None");
           (py "Content-Type", py "application/json")]].
Proof.
  eexists. split; [vm_compute; reflexivity|].
  edestruct (chat_completion_sends_one_request (server too_many_requests) tt tt
               (make None) (List [])) as (r & Hcalls & _).
  - vm_compute. reflexivity.
  - rewrite Hcalls. reflexivity.
Defined.

(** X21.  With status 200 the method returns the content of the message
    of the first choice, and returns only then: the body must be a dict
    whose [choices] is a list that starts with a dict, whose [message] is
    a dict with a [content].  The content is returned as it is, whatever
    its type ([None] included), and the other choices are ignored. *)
Theorem chat_completion_returns_first_choice {St : Type}
    (h : env HttpE St) (s s' : St) (self : OpenRouterLLM.t) (messages : value)
    (content : value) (tr : list (obs HttpE)) :
  interp h (create_chat_completion self messages) s = (Returned content, s', tr)
  <-> exists url headers payload resp body choice others message,
        h _ (Post url headers payload) s = (inr resp, s')
        /\ url = endpoint self /\ headers = headers_of self
        /\ payload = payload_of self messages
        /\ tr = [Obs (Post url headers payload) (inr resp)]
        /\ status_code resp = 200%Z
        /\ json resp = inr (Dict body)
        /\ dict_get (py "choices") body = Some (List (Dict choice :: others))
        /\ dict_get (py "message") choice = Some (Dict message)
        /\ dict_get (py "content") message = Some content.
Proof.
  unfold create_chat_completion. cbn. split.
  - destruct (h _ _ s) as [[e | resp] s1] eqn:Hstep; cbn;
      [intros Heq; discriminate Heq|].
    destruct (status_code resp =? 200)%Z eqn:Hst; cbn;
      [|intros Heq; discriminate Heq].
    apply Z.eqb_eq in Hst.
    destruct (json resp) as [e | data] eqn:Hj; cbn; [intros Heq; discriminate Heq|].
    destruct (content_of data) as [e | c] eqn:Hc; cbn; intros Heq; simplify_eq.
    unfold content_of in Hc.
    destruct data as [| | | | |l|body]; cbn in Hc; try discriminate Hc.
    destruct (dict_get (py "choices") body) as [choices|] eqn:H1; [|discriminate Hc].
    destruct choices as [| | | |[|c0 t]|[|x l]|d]; cbn in Hc; try discriminate Hc.
    destruct x as [| | | | |l0|choice]; cbn in Hc; try discriminate Hc.
    destruct (dict_get (py "message") choice) as [msg|] eqn:H2; [|discriminate Hc].
    destruct msg as [| | | | |l0|message]; cbn in Hc; try discriminate Hc.
    destruct (dict_get (py "content") message) as [v|] eqn:H3; [|discriminate Hc].
    injection Hc as <-.
    do 8 eexists. repeat (split; [first [eassumption | reflexivity]|]). exact H3.
  - intros (url & headers & payload & resp & body & choice & others & message
            & Hstep & -> & -> & -> & -> & Hst & Hj & H1 & H2 & H3).
    rewrite Hstep. cbn. rewrite Hst. cbn. rewrite Hj. cbn.
    unfold content_of. cbn. rewrite H1. cbn. rewrite H2. cbn. rewrite H3.
    reflexivity.
Qed.

Lemma chat_completion_returns_first_choice_witness :
  exists tr,
    interp (server (one_choice Null)) (create_chat_completion (make None) (List [])) tt
    = (Returned Null, tt, tr).
Proof.
  eexists.
  apply (proj2 (chat_completion_returns_first_choice (server (one_choice Null)) tt tt
                  (make None) (List []) Null _)).
  do 8 eexists. repeat (split; [reflexivity|]). reflexivity.
Defined.

(** The text of a subscript error never starts like the text of the
    error of the status check. *)
Lemma getitem_str_text (v : value) (key : pystr) (e : builtin_error) :
  getitem_str v key = inl e ->
  err_class e <> RuntimeError
  /\ exists c rest, err_text e = c :: rest /\ c <> "O"%char.
Proof.
  destruct v as [| | | | |l|d]; cbn.
  7: destruct (dict_get key d); [discriminate|].
  all: intros [= <-]; (split; [discriminate|]).
  all: do 2 eexists; split; [reflexivity | discriminate].
Qed.

Lemma getitem_0_text (v : value) (e : builtin_error) :
  getitem_0 v = inl e ->
  err_class e <> RuntimeError
  /\ exists c rest, err_text e = c :: rest /\ c <> "O"%char.
Proof.
  destruct v as [| | | |[|c0 t]|[|x l]|d]; cbn.
  all: try discriminate.
  all: intros [= <-]; (split; [discriminate|]).
  all: do 2 eexists; split; [reflexivity | discriminate].
Qed.

Lemma content_of_text (data : value) (e : builtin_error) :
  content_of data = inl e ->
  err_class e <> RuntimeError
  /\ exists c rest, err_text e = c :: rest /\ c <> "O"%char.
Proof.
  unfold content_of.
  destruct (getitem_str data (py "choices")) as [e1 | choices] eqn:H1.
  { intros [= <-]. eapply getitem_str_text, H1. }
  destruct (getitem_0 choices) as [e2 | choice] eqn:H2.
  { intros [= <-]. eapply getitem_0_text, H2. }
  destruct (getitem_str choice (py "message")) as [e3 | message] eqn:H3.
  { intros [= <-]. eapply getitem_str_text, H3. }
  apply getitem_str_text.
Qed.

(** X22.  With status 200 and a body that the parser accepts, the
    method raises exactly the error of the failing subscript of
    [data["choices"][0]["message"]["content"]], and that error is never
    the [RuntimeError] of the status check: a [KeyError] that names the
    key when [choices], [message] or [content] is missing (or the number
    0 when [choices] is a dict), an [IndexError] when [choices] is an
    empty list or an empty string, a [TypeError] when the body, the first
    choice or the message is not a dict.  The exception raised differs
    from every exception of the status check, whatever the answer that
    one reports.  An exception of the parser leaves the method as it is.
    (The exceptions of a run keep only what the [except] clauses of the
    source tell apart, so the class is stated on the subscript error
    that is raised.) *)
Theorem chat_completion_fails_on_malformed_body {St : Type}
    (h : env HttpE St) (s s' : St) (self : OpenRouterLLM.t) (messages : value)
    (resp : response) :
  h _ (Post (endpoint self) (headers_of self) (payload_of self messages)) s
  = (inr resp, s') ->
  status_code resp = 200%Z ->
  let out := (interp h (create_chat_completion self messages) s).1.1 in
  match json resp with
  | inl e => out = Raised e
  | inr data =>
      out = match content_of data with
            | inl e => Raised (to_exn e)
            | inr content => Returned content
            end
      /\ (forall e, content_of data = inl e ->
            err_class e <> RuntimeError
            /\ forall r : response, to_exn e <> to_exn (api_error r))
      /\ match data with
         | Dict body =>
             match dict_get (py "choices") body with
             | None => content_of data = inl (mk_error KeyError (py "'choices'"))
             | Some (List []) =>
                 content_of data
                 = inl (mk_error IndexError (py "list index out of range"))
             | Some (List (Dict choice :: _)) =>
                 match dict_get (py "message") choice with
                 | None => content_of data = inl (mk_error KeyError (py "'message'"))
                 | Some (Dict message) =>
                     match dict_get (py "content") message with
                     | None =>
                         content_of data = inl (mk_error KeyError (py "'content'"))
                     | Some content => content_of data = inr content
                     end
                 | Some _ =>
                     exists text, content_of data = inl (mk_error TypeError text)
                 end
             | Some (Dict _) => content_of data = inl (mk_error KeyError (py "0"))
             | Some (Str []) =>
                 content_of data
                 = inl (mk_error IndexError (py "string index out of range"))
             | Some _ => exists text, content_of data = inl (mk_error TypeError text)
             end
         | _ => exists text, content_of data = inl (mk_error TypeError text)
         end
  end.
Proof.
  intros Hstep Hst. unfold create_chat_completion. cbn. rewrite Hstep. cbn.
  rewrite Hst. cbn.
  destruct (json resp) as [e | data]; cbn; [reflexivity|].
  split; [destruct (content_of data); reflexivity|].
  split.
  { intros e He. destruct (content_of_text _ _ He) as (Hc & c & rest & Ht & Hne).
    split; [exact Hc|]. intros r Heq.
    unfold to_exn, api_error in Heq. cbn in Heq. rewrite Ht in Heq.
    injection Heq as Heq _. apply Hne. exact Heq. }
  unfold content_of.
  destruct data as [| | | | |l|body]; cbn; try (eexists; reflexivity).
  destruct (dict_get (py "choices") body) as [choices|]; cbn; [|reflexivity].
  destruct choices as [| | | |[|c0 t]|[|x l]|d]; cbn;
    try reflexivity; try (eexists; reflexivity).
  destruct x as [| | | | |l0|choice]; cbn; try (eexists; reflexivity).
  destruct (dict_get (py "message") choice) as [msg|]; cbn; [|reflexivity].
  destruct msg as [| | | | |l0|message]; cbn; try (eexists; reflexivity).
  destruct (dict_get (py "content") message) as [v|]; cbn; reflexivity.
Qed.

Lemma chat_completion_fails_on_malformed_body_witness :
  (interp (server no_choice) (create_chat_completion (make None) (List [])) tt).1.1
  = Raised (to_exn (mk_error IndexError (py "list index out of range")))
  /\ content_of (Dict [(py "choices", List [])])
     = inl (mk_error IndexError (py "list index out of range")).
Proof.
  destruct (chat_completion_fails_on_malformed_body (server no_choice) tt tt
              (make None) (List []) no_choice eq_refl eq_refl)
    as (Hout & _ & Herr).
  cbn in Herr. split; [|exact Herr].
  rewrite Hout. reflexivity.
Defined.

End LLMProps.

(* ====================================================================== *)
(** ** The chat page *)
(* ====================================================================== *)

Import ListNotations PyStr Prog.
Local Open Scope list_scope.

Module ChatProps.

Import Json DashApp SQLApp Trace Calls AppFacts StrFacts.

#[local] Arguments py : simpl never.
#[local] Arguments startswith : simpl never.
#[local] Arguments pystr_eqb : simpl never.
#[local] Arguments strip : simpl never.
#[local] Arguments lower : simpl never.
#[local] Arguments strip_fences : simpl never.
#[local] Arguments metrics_text : simpl never.
#[local] Arguments Pandas.head : simpl never.
#[local] Arguments bot_text : simpl never.
#[local] Arguments bubble : simpl never.

(** A program followed by another: the second runs from the state the
    first one leaves, and an exception of the first ends the run. *)
Lemma interp_bind {E : Type -> Type} {St A B : Type} (h : env E St)
    (p : Prog E A) (f : A -> Prog E B) :
  forall s,
    interp h (bind p f) s
    = let '(o, s1, tr1) := interp h p s in
      match o with
      | Returned x =>
          let '(o2, s2, tr2) := interp h (f x) s1 in (o2, s2, tr1 ++ tr2)
      | Raised e => (Raised e, s1, tr1)
      end.
Proof.
  induction p as [x | e | R ev k IH]; intros s.
  - cbn. destruct (interp h (f x) s) as [[o2 s2] tr2]. reflexivity.
  - reflexivity.
  - cbn [bind]. rewrite !interp_vis. destruct (h R ev s) as [r s1].
    rewrite IH. destruct (interp h (k r) s1) as [[o s2] tr1].
    destruct o as [x | e]; [|reflexivity].
    destruct (interp h (f x) s2) as [[o2 s3] tr2]. reflexivity.
Qed.

Section Chat.

Context {P : Platform}.
Context {St : Type}.
Variable h : env AppE St.

(** The run of [chat] on a question is the run of [run] on it. *)
Lemma chat_runs_run (sql_app : SQLApp.t) (c : ascii) (q : pystr)
    (history : list message) (s : St) :
  interp h (chat sql_app (Some (c :: q)) history) s
  = let '(o, s1, tr) := interp h (run sql_app (Some (c :: q))) s in
    (match o with
     | Returned (sql, result, metrics) =>
         Returned
           (Update
              ((history ++ [{| role := py "user"; content := c :: q |}])
               ++ [{| role := py "assistant"; content := bot_text sql result metrics |}])
              (map (fun m => bubble (content m) (role m))
                 ((history ++ [{| role := py "user"; content := c :: q |}])
                  ++ [{| role := py "assistant";
                         content := bot_text sql result metrics |}]))
              [])
     | Raised e => Raised e
     end, s1, tr).
Proof.
  unfold chat. change (mbind ?f ?p) with (bind p f).
  rewrite interp_bind.
  destruct (interp h (run sql_app (Some (c :: q))) s) as [[o s1] tr].
  destruct o as [[[sql result] metrics] | e]; [|reflexivity].
  cbn. rewrite app_nil_r. reflexivity.
Qed.

(** With a question, [run] does not read stdin and asks the intent
    crew about the question itself. *)
Lemma run_with_question (sql_app : SQLApp.t) (c : ascii) (q : pystr) (s : St)
    (out : outcome (pystr * pystr * pystr)) (s' : St) (tr : list (obs AppE)) :
  interp h (run sql_app (Some (c :: q))) s = (out, s', tr) ->
  input_calls tr = [] /\ exists r, intent_calls tr = [(c :: q, r)].
Proof.
  run_cases h.
  all: intros [= <- <- <-]; cbn.
  all: split; [reflexivity|]; eauto.
Qed.

End Chat.

(** X23.  The chat callback never makes [run] prompt on stdin.  With no
    text in the box ([None] or the empty string) it calls nothing and
    returns [no_update] for its three outputs; with a text it passes the
    text to [run] as the question, so the intent crew is asked about
    exactly that text, and it never returns [no_update]. *)
Theorem chat_never_prompts {P : Platform} {St : Type}
    (h : env AppE St) (sql_app : SQLApp.t) (query : option pystr)
    (history : list message) (s s' : St)
    (out : outcome chat_output) (tr : list (obs AppE)) :
  interp h (chat sql_app query history) s = (out, s', tr) ->
  input_calls tr = []
  /\ match query with
     | Some (c :: q) =>
         out <> Returned NoUpdate /\ exists r, intent_calls tr = [(c :: q, r)]
     | _ => out = Returned NoUpdate /\ tr = [] /\ s' = s
     end.
Proof.
  destruct query as [[|c q]|].
  - cbn. intros Heq; simplify_eq. auto.
  - rewrite chat_runs_run.
    destruct (interp h (run sql_app (Some (c :: q))) s) as [[o s1] tr1] eqn:Hrun.
    intros Heq; simplify_eq.
    destruct (run_with_question h _ _ _ _ _ _ _ Hrun) as [Hin Hint].
    split; [exact Hin|]. split; [|exact Hint].
    destruct o as [[[sql result] metrics] | e]; discriminate.
  - cbn. intros Heq; simplify_eq. auto.
Qed.

Lemma chat_never_prompts_witness :
  exists out st tr,
    interp (Demo.scripted Demo.joke) (chat Demo.app (Some (py "Tell me a joke")) []) 0%Z
    = (out, st, tr)
    /\ input_calls tr = []
    /\ intent_calls tr = [(py "Tell me a joke", inr (py " Invalid "))].
Proof.
  eexists _, _, _. split; [vm_compute; reflexivity|].
  edestruct (chat_never_prompts (Demo.scripted Demo.joke) Demo.app
               (Some (py "Tell me a joke")) [] 0%Z) as (Hin & _ & r & Hint).
  - vm_compute. reflexivity.
  - split; [exact Hin|]. vm_compute. reflexivity.
Defined.

(** X24.  When [run] returns, the callback adds two entries to the
    conversation, the question with the role [user] and then the answer
    with the role [assistant], keeps the earlier entries as they are,
    draws one bubble per entry in their order (the question on the right
    without icon, the answer on the left with the robot icon) and empties
    the input box.  When [run] raises, the callback raises the same
    exception and returns nothing. *)
Theorem chat_appends_question_and_answer {P : Platform} {St : Type}
    (h : env AppE St) (sql_app : SQLApp.t) (c : ascii) (q : pystr)
    (history : list message) (s s' : St)
    (out : outcome chat_output) (tr : list (obs AppE)) :
  interp h (chat sql_app (Some (c :: q)) history) s = (out, s', tr) ->
  exists out_run,
    interp h (run sql_app (Some (c :: q))) s = (out_run, s', tr)
    /\ match out_run with
       | Raised e => out = Raised e
       | Returned (sql, result, metrics) =>
           exists children,
             out = Returned
                     (Update
                        (history
                         ++ [{| role := py "user"; content := c :: q |};
                             {| role := py "assistant";
                                content := bot_text sql result metrics |}])
                        children [])
             /\ children
                = map (fun m => bubble (content m) (role m)) history
                  ++ [Div [None; Some (Span (c :: q))] (py "bubble")
                          [(py "alignSelf", py "flex-end");
                           (py "background", py "var(--user-bubble)")];
                      Div [Some (I (py "fa fa-robot icon"));
                           Some (Span (bot_text sql result metrics))]
                          (py "bubble")
                          [(py "alignSelf", py "flex-start");
                           (py "background", py "var(--bot-bubble)")]]
             /\ length children = length history + 2
       end.
Proof.
  rewrite chat_runs_run.
  destruct (interp h (run sql_app (Some (c :: q))) s) as [[o s1] tr1] eqn:Hrun.
  intros Heq; simplify_eq. exists o. split; [reflexivity|].
  destruct o as [[[sql result] metrics] | e]; [|reflexivity].
  eexists. split; [rewrite <- app_assoc; reflexivity|].
  split.
  - rewrite map_app. reflexivity.
  - rewrite length_map, !length_app. cbn. lia.
Qed.

Lemma chat_appends_question_and_answer_witness :
  exists history children st tr,
    interp (Demo.scripted Demo.joke)
      (chat Demo.app (Some (py "Tell me a joke"))
         [{| role := py "user"; content := py "hello" |}]) 0%Z
    = (Returned (Update history children []), st, tr)
    /\ length history = 3 /\ length children = 3.
Proof.
  eexists _, _, _, _. split; [vm_compute; reflexivity|].
  edestruct (chat_appends_question_and_answer (Demo.scripted Demo.joke) Demo.app
               "T"%char (py "ell me a joke")
               [{| role := py "user"; content := py "hello" |}] 0%Z)
    as (out_run & Hrun & Hout).
  - vm_compute. reflexivity.
  - vm_compute in Hrun. simplify_eq.
    destruct Hout as (children & Heq & _ & Hlen).
    split; [reflexivity|]. simplify_eq. exact Hlen.
Defined.

(** X25.  A rejection is shown as an answer: when the intent check
    rejects the question, or when the DDL gate blocks the statement, the
    callback still adds the two entries, and the text of the answer
    carries the rejection message under the heading "Generated SQL", with
    empty results and empty metrics; nothing is executed. *)
Theorem chat_shows_rejection_as_answer {P : Platform} {St : Type}
    (h : env AppE St) (sql_app : SQLApp.t) (c : ascii) (q : pystr)
    (history : list message) (s s' : St)
    (out : outcome chat_output) (tr : list (obs AppE)) (x resp : pystr) :
  interp h (chat sql_app (Some (c :: q)) history) s = (out, s', tr) ->
  (In (x, inr resp) (intent_calls tr)
   /\ pystr_eqb (strip (lower resp)) (py "valid") = false)
  \/ (In (x, inr resp) (ddl_calls tr)
      /\ startswith (py "error") (lower resp) = true) ->
  exists reason history' children,
    out = Returned (Update history' children [])
    /\ (reason = py "Invalid query" \/ reason = py "DDL operations not allowed.")
    /\ history'
       = history
         ++ [{| role := py "user"; content := c :: q |};
             {| role := py "assistant";
                content := py "**Generated SQL**" ++ ["010"%char] ++ reason
                           ++ ["010"; "010"]%char ++ py "**Results**"
                           ++ ["010"; "010"; "010"]%char ++ py "**Metrics**"
                           ++ ["010"%char] |}]
    /\ exec_calls tr = [].
Proof.
  rewrite chat_runs_run.
  destruct (interp h (run sql_app (Some (c :: q))) s) as [[o s1] tr1] eqn:Hrun.
  intros Heq Hrej; simplify_eq.
  destruct Hrej as [[Hin Hnv] | [Hin Hb]].
  - destruct (rejects_invalid_intent h _ _ _ _ _ _ _ _ Hrun Hin Hnv)
      as (-> & _ & _ & _ & Hex & _).
    exists (py "Invalid query"). do 2 eexists.
    split; [reflexivity|]. split; [left; reflexivity|].
    split; [|exact Hex]. rewrite <- app_assoc. reflexivity.
  - destruct (ddl_gate_blocks_on_prefix h _ _ _ _ _ _ _ _ Hrun Hin)
      as (Hiff & Hblocked & _).
    destruct (Hblocked Hb) as [-> _].
    exists (py "DDL operations not allowed."). do 2 eexists.
    split; [reflexivity|]. split; [right; reflexivity|].
    split; [|apply Hiff; exact Hb]. rewrite <- app_assoc. reflexivity.
Qed.

Lemma chat_shows_rejection_as_answer_witness :
  exists history children st tr,
    interp (Demo.scripted Demo.deleting)
      (chat Demo.app (Some (py "Delete order 1")) []) 0%Z
    = (Returned (Update history children []), st, tr)
    /\ map content history
       = [py "Delete order 1";
          py "**Generated SQL**" ++ ["010"%char] ++ py "DDL operations not allowed."
          ++ ["010"; "010"]%char ++ py "**Results**"
          ++ ["010"; "010"; "010"]%char ++ py "**Metrics**" ++ ["010"%char]]
    /\ exec_calls tr = [].
Proof.
  eexists _, _, _, _. split; [vm_compute; reflexivity|].
  split; [vm_compute; reflexivity|].
  edestruct (chat_shows_rejection_as_answer (Demo.scripted Demo.deleting) Demo.app
               "D"%char (py "elete order 1") [] 0%Z)
    with (x := py "DELETE FROM orders WHERE order_id = 1")
         (resp := py "Error: the statement contains DELETE")
    as (reason & history' & children & _ & _ & _ & Hex).
  - vm_compute. reflexivity.
  - right. split; [vm_compute; left; reflexivity | vm_compute; reflexivity].
  - exact Hex.
Defined.

(** *** The toggle of the chat window *)

Lemma pystr_eqb_refl (k : pystr) : pystr_eqb k k = true.
Proof. apply pystr_eqb_eq. reflexivity. Qed.

Lemma dict_get_set_eq (k : pystr) (v : value) (d : list (pystr * value)) :
  dict_get k (dict_set k v d) = Some v.
Proof.
  induction d as [|[k0 x] d IH]; cbn [dict_set dict_get].
  - rewrite pystr_eqb_refl. reflexivity.
  - destruct (pystr_eqb k0 k) eqn:E; cbn [dict_get]; rewrite E; [reflexivity | exact IH].
Qed.

Lemma dict_get_set_ne (k k' : pystr) (v : value) (d : list (pystr * value)) :
  k' <> k -> dict_get k' (dict_set k v d) = dict_get k' d.
Proof.
  intros Hne. induction d as [|[k0 x] d IH]; cbn [dict_set dict_get].
  - destruct (pystr_eqb k k') eqn:E; [|reflexivity].
    apply pystr_eqb_eq in E. congruence.
  - destruct (pystr_eqb k0 k) eqn:E; cbn [dict_get].
    + apply pystr_eqb_eq in E. subst k0.
      destruct (pystr_eqb k k') eqn:E'; [|reflexivity].
      apply pystr_eqb_eq in E'. congruence.
    + destruct (pystr_eqb k0 k'); [reflexivity | exact IH].
Qed.

Lemma dict_set_set (k : pystr) (v1 v2 : value) (d : list (pystr * value)) :
  dict_set k v2 (dict_set k v1 d) = dict_set k v2 d.
Proof.
  induction d as [|[k0 x] d IH]; cbn [dict_set].
  - rewrite pystr_eqb_refl. reflexivity.
  - destruct (pystr_eqb k0 k) eqn:E; cbn [dict_set]; rewrite E; [reflexivity|].
    rewrite IH. reflexivity.
Qed.

Lemma dict_set_keys (k : pystr) (v : value) (d : list (pystr * value)) :
  map fst (dict_set k v d)
  = if existsb (fun k0 => pystr_eqb k0 k) (map fst d) then map fst d
    else map fst d ++ [k].
Proof.
  induction d as [|[k0 x] d IH]; cbn [dict_set map fst existsb app]; [reflexivity|].
  destruct (pystr_eqb k0 k) eqn:E; cbn [map fst orb]; [reflexivity|].
  rewrite IH. destruct (existsb _ (map fst d)); reflexivity.
Qed.

(** X26.  [toggle] flips the visibility, sets [display] in the style to
    "flex" when the window becomes visible and to "none" when it becomes
    hidden, with the matching chevron, and leaves every other entry of
    the style as it was (a missing or empty style starts from an empty
    dict).  Two clicks bring back the visibility and give the style of the
    window as it was, with [display] set accordingly. *)
Theorem toggle_flips_display_only (visible : bool)
    (style : option (list (pystr * value))) :
  let before := match style with Some d => d | None => [] end in
  let '(style1, chevron1, visible1) := toggle visible style in
  let '(style2, chevron2, visible2) := toggle visible1 (Some style1) in
  visible1 = negb visible
  /\ dict_get (py "display") style1
     = Some (Str (if visible1 then py "flex" else py "none"))
  /\ chevron1 = (if visible1 then py "fa fa-chevron-down" else py "fa fa-chevron-up")
  /\ (forall k, k <> py "display" -> dict_get k style1 = dict_get k before)
  /\ visible2 = visible
  /\ style2
     = dict_set (py "display") (Str (if visible then py "flex" else py "none")) before
  /\ map fst style2 = map fst style1.
Proof.
  assert (Hor : match style with Some (x :: d) => x :: d | _ => [] end
                = match style with Some d => d | None => [] end)
    by (destruct style as [[|x d]|]; reflexivity).
  unfold toggle. rewrite Hor.
  set (before := match style with Some d => d | None => [] end).
  cbn zeta.
  set (style1 := dict_set (py "display") _ before).
  assert (Hne : match style1 with x :: d => x :: d | [] => [] end = style1)
    by (destruct style1; reflexivity).
  rewrite Hne. rewrite negb_involutive.
  split; [reflexivity|].
  split; [apply dict_get_set_eq|].
  split; [reflexivity|].
  split; [intros k Hk; apply dict_get_set_ne; exact Hk|].
  split; [reflexivity|].
  split; [apply dict_set_set|].
  unfold style1. rewrite dict_set_set, !dict_set_keys. reflexivity.
Qed.

Lemma toggle_flips_display_only_witness :
  dict_get (py "height")
    (toggle true (Some [(py "height", Str (py "400px"))])).1.1
  = Some (Str (py "400px"))
  /\ dict_get (py "display")
       (toggle true (Some [(py "height", Str (py "400px"))])).1.1
     = Some (Str (py "none")).
Proof.
  pose proof (toggle_flips_display_only true
                (Some [(py "height", Str (py "400px"))])) as H.
  cbn zeta in H.
  destruct (toggle true (Some [(py "height", Str (py "400px"))]))
    as [[style1 chevron1] visible1] eqn:E1.
  destruct (toggle visible1 (Some style1)) as [[style2 chevron2] visible2].
  destruct H as (Hv & Hd & _ & Hk & _).
  cbn [fst snd]. split.
  - rewrite (Hk (py "height")) by discriminate. reflexivity.
  - rewrite Hd, Hv. reflexivity.
Defined.

End ChatProps.

(* ====================================================================== *)
(** ** The constructors *)
(* ====================================================================== *)

Import ListNotations PyStr Prog.
Local Open Scope list_scope.

Module StartupProps.

Import Startup AppFacts.

#[local] Arguments py : simpl never.
#[local] Arguments make_config : simpl never.
#[local] Arguments make_validator : simpl never.
#[local] Arguments OpenRouterLLM.make : simpl never.

Ltac init_step h :=
  match goal with
  | |- context [h ?R ?ev ?s] =>
      let r := fresh "r" in
      let s1 := fresh "s" in
      let E := fresh "Hstep" in
      destruct (h R ev s) as [r s1] eqn:E; cbn;
      try match goal with
        | r : (exn + _)%type |- _ => destruct r as [? | ?]; cbn
        end
  | |- context [if is_mysql_Error ?e then _ else _] =>
      let E := fresh "Hcatch" in destruct (is_mysql_Error e) eqn:E; cbn
  end.

(** X27.  [SQLApp()] reads the environment first, and needs the port:
    when [MYSQL_PORT] is not set ([int(None)] raises a [TypeError]) or is
    not an integer, the exception of [int] leaves the constructor right
    after the third variable is read, before any attempt to connect to
    MySQL and before any crew is built.  (The other variables may be
    missing: they are kept as [None].) *)
Theorem startup_needs_the_port {P : Platform} {St : Type}
    (int_of_str : pystr -> exn + Z) (schema : pystr)
    (h : env InitE St) (s s' : St) (out : outcome app) (tr : list (obs InitE))
    (port_text : option pystr) (e : exn) :
  interp h (sqlapp_init int_of_str schema) s = (out, s', tr) ->
  In (py "MYSQL_PORT", port_text) (getenv_calls tr) ->
  py_int int_of_str port_text = inl e ->
  out = Raised e
  /\ map fst (getenv_calls tr)
     = [py "OPENROUTER_API_KEY"; py "MYSQL_HOST"; py "MYSQL_PORT"]
  /\ connect_calls tr = [] /\ crew_calls tr = [].
Proof.
  unfold sqlapp_init, config_init, DatabaseHandler.init. cbn.
  repeat init_step h.
  all: try (intros Heq Hin; simplify_eq; cbn in Hin; tauto).
  destruct (py_int int_of_str r1) as [e1 | port] eqn:Hport; cbn.
  - intros Heq Hin Hp; simplify_eq. cbn in Hin.
    unfold py in Hin; cbn in Hin.
    destruct Hin as [Hin | [Hin | [Hin | []]]]; simplify_eq.
    rewrite Hport in Hp. simplify_eq. repeat split; reflexivity.
  - repeat init_step h.
    all: intros Heq Hin Hp; simplify_eq; cbn in Hin.
    all: unfold py in Hin; cbn in Hin.
    all: repeat match goal with
           | H : _ \/ _ |- _ => destruct H as [H | H]
           | H : False |- _ => destruct H
           end; simplify_eq.
    all: congruence.
Qed.

Lemma startup_needs_the_port_witness :
  exists st tr,
    interp (machine [(py "MYSQL_HOST", py "localhost")])
      (sqlapp_init demo_int (py "schema")) tt
    = (Raised int_of_None, st, tr)
    /\ connect_calls tr = [].
Proof.
  eexists _, _. split; [vm_compute; reflexivity|].
  edestruct (startup_needs_the_port demo_int (py "schema")
               (machine [(py "MYSQL_HOST", py "localhost")]) tt)
    with (port_text := @None pystr) (e := int_of_None)
    as (_ & _ & Hc & _).
  - vm_compute. reflexivity.
  - vm_compute. right. right. left. reflexivity.
  - reflexivity.
  - exact Hc.
Defined.

(** X28.  A MySQL server that cannot be reached does not stop
    [SQLApp()]: when [connect] raises a [mysql.connector.Error], the error
    is logged, the five crews are then built in the order intent,
    generation, DDL check, verification, SQL-to-text, and, if the factory
    builds them all, the constructor returns an application whose handler
    has no connection.  Its configuration and its validator are the fixed
    ones (the six forbidden tokens), and the key of the LLM wrapper is
    what [OPENROUTER_API_KEY] held, [None] included. *)
Theorem startup_survives_refused_connection {P : Platform} {St : Type}
    (int_of_str : pystr -> exn + Z) (schema : pystr)
    (h : env InitE St) (s s' : St) (out : outcome app) (tr : list (obs InitE))
    (e : exn) :
  interp h (sqlapp_init int_of_str schema) s = (out, s', tr) ->
  connect_calls tr = [inl e] ->
  is_mysql_Error e = true ->
  logged_errors tr = [e]
  /\ (forall kind e', In (kind, inl e') (crew_calls tr) -> out = Raised e')
  /\ ((forall kind r, In (kind, r) (crew_calls tr) -> r = inr tt) ->
      exists a key,
        out = Returned a
        /\ DatabaseHandler.conn (db_handler a) = None
        /\ In (py "OPENROUTER_API_KEY", key) (getenv_calls tr)
        /\ llm a = OpenRouterLLM.make key
        /\ self a = {| SQLApp.config := make_config schema;
                       SQLApp.validator := make_validator default_forbidden_tokens |}
        /\ map fst (crew_calls tr)
           = [Intent; Generation; DdlCheck; Verify; SqlToText]).
Proof.
  unfold sqlapp_init, config_init, DatabaseHandler.init. cbn.
  repeat init_step h.
  all: try (intros Heq Hc; simplify_eq; cbn in Hc; discriminate Hc).
  destruct (py_int int_of_str r1) as [e1 | port] eqn:Hport; cbn.
  - intros Heq Hc; simplify_eq; try (cbn in Hc; discriminate Hc).
  - repeat init_step h.
    all: intros Heq Hc He; simplify_eq; try (cbn in Hc; simplify_eq).
    all: try congruence.
    all: cbn.
    all: split; [reflexivity|].
    all: split;
      [ intros kind e' Hin;
        repeat match goal with
          | H : _ \/ _ |- _ => destruct H as [H | H]
          | H : False |- _ => destruct H
          end; simplify_eq; reflexivity |].
    all: intros Hall.
    all: try (exfalso;
              match goal with
              | e0 : exn |- _ =>
                  match type of Hall with
                  | context [(?k, inl e0)] =>
                      specialize (Hall k (inl e0)); cbn in Hall;
                      assert (Hx : @inl exn unit e0 = inr tt) by (apply Hall; tauto);
                      discriminate Hx
                  end
              end).
    all: repeat match goal with u : unit |- _ => destruct u end.
    all: do 2 eexists; split; [reflexivity|]; split; [reflexivity|].
    all: split; [left; reflexivity|]; repeat split; reflexivity.
Qed.

Lemma startup_survives_refused_connection_witness :
  exists a st tr,
    interp (machine [(py "MYSQL_PORT", py "3306")])
      (sqlapp_init demo_int (py "schema")) tt
    = (Returned a, st, tr)
    /\ DatabaseHandler.conn (db_handler a) = None
    /\ OpenRouterLLM.api_key (llm a) = None.
Proof.
  eexists _, _, _.
  split; [cbv -[make_validator make_config OpenRouterLLM.make]; reflexivity|].
  edestruct (startup_survives_refused_connection demo_int (py "schema")
               (machine [(py "MYSQL_PORT", py "3306")]) tt)
    with (e := refused) as (_ & _ & Hret).
  - cbv -[make_validator make_config OpenRouterLLM.make]. reflexivity.
  - reflexivity.
  - reflexivity.
  - destruct Hret as (a & key & Ha & Hconn & _).
    + intros kind r Hin.
      cbv -[make_validator make_config OpenRouterLLM.make] in Hin.
      repeat (destruct Hin as [Hin | Hin]; [injection Hin as <- <-; reflexivity|]).
      destruct Hin.
    + simplify_eq. split; reflexivity.
Defined.

End StartupProps.
